(** * Whisper2 Android client: key derivation, authenticated encryption,
      canonical signing and the WebSocket reconnect machine

    The repository is a pair of Python generators whose payload is the Kotlin
    source of the Android client.  This development embeds the Kotlin code of
    [generate_all.py] (crypto layer, phase 2; network layer, phase 3;
    keystore and secure storage, phase 4; the authentication service,
    phase 5) and the constants and extension functions of its phase 1.

    Conventions of the embedding.
    - A [ByteArray] is a [list Byte.byte]; a Kotlin [Int] or [Long] is a [Z] with
      the wrap-around of the 32- or 64-bit operation written out.
    - A Kotlin [String] is a [string]: the sequence of its 8-bit characters,
      which for the ASCII text the protocol uses is also its UTF-8 encoding.
      The text functions of the Kotlin library ([trim], [lowercase], the
      regular expression [\s+], [split]) are modelled on the ASCII range;
      Unicode normalisation ([java.text.Normalizer]) is a parameter.
    - A function that can throw returns a [Result]; the exceptions are the
      constructors of [exn].
    - The primitives of the Java Cryptography Architecture and of
      Lazysodium are the methods of the classes [JCA] and [LazySodium];
      what the proofs assume of them is stated in [JCASpec] and
      [LazySodiumSpec]; the Keystore cipher and the Base64 decoder of
      Android are the methods of [AndroidPlatform].  A
      native method that fills an output buffer is a
      function from the buffer passed in to the success flag and the
      buffer's new contents. *)

From Stdlib Require Import ZArith List String Ascii Bool Lia.
From Stdlib Require Import DecimalString DecimalZ.
From Stdlib.Strings Require Byte.
Import ListNotations.

Open Scope Z_scope.

(* ------------------------------------------------------------------ *)
(** ** Exceptions and the error monad *)

Inductive exn : Type :=
| InvalidMnemonicException
| EncryptionException (message : string)
| DecryptionException (message : string)
| NegativeArraySizeException
| IndexOutOfBoundsException
| IllegalArgumentException.

Inductive Result (A : Type) : Type :=
| Ok (a : A)
| Throw (e : exn).

Arguments Ok {A} a.
Arguments Throw {A} e.

Definition bind {A B : Type} (r : Result A) (k : A -> Result B) : Result B :=
  match r with
  | Ok a => k a
  | Throw e => Throw e
  end.

Definition fmap {A B : Type} (f : A -> B) (r : Result A) : Result B :=
  bind r (fun a => Ok (f a)).

Declare Scope result_scope.
Delimit Scope result_scope with result.
Notation "x <- c1 ;; c2" := (bind c1 (fun x => c2))
  (at level 61, c1 at next level, right associativity) : result_scope.
Notation "' pat <- c1 ;; c2" := (bind c1 (fun x => match x with pat => c2 end))
  (at level 61, pat pattern, c1 at next level, right associativity) : result_scope.
Open Scope result_scope.

(* ------------------------------------------------------------------ *)
(** ** Machine integers and byte arrays *)

Definition bytes := list Byte.byte.

Definition wrap (w : Z) (z : Z) : Z :=
  (z + 2 ^ (w - 1)) mod 2 ^ w - 2 ^ (w - 1).

(** [Int] and [Long] results. *)
Definition int32 (z : Z) : Z := wrap 32 z.
Definition int64 (z : Z) : Z := wrap 64 z.

Module Int.
Definition MAX_VALUE : Z := 2147483647.
Definition MIN_VALUE : Z := - 2147483648.
End Int.

(** [a shl n] on [Int]: only the five low bits of the count are used. *)
Definition shl (a n : Z) : Z := int32 (Z.shiftl a (n mod 32)).

(** [Int.toByte()]: the low eight bits. *)
Definition toByte (i : Z) : Byte.byte :=
  match Byte.of_N (Z.to_N (i mod 256)) with
  | Some b => b
  | None => Byte.x00
  end.

(** [Byte.toInt()]: sign extension. *)
Definition toInt (b : Byte.byte) : Z :=
  let u := Z.of_N (Byte.to_N b) in
  if u <? 128 then u else u - 256.

(** [b.toInt() and 0xFF]. *)
Definition unsigned (b : Byte.byte) : Z := Z.land (toInt b) 255.

Definition size {A : Type} (l : list A) : Z := Z.of_nat (List.length l).

Definition zeros (n : Z) : bytes := repeat Byte.x00 (Z.to_nat n).

(** [ByteArray(n)]. *)
Definition ByteArray (n : Z) : Result bytes :=
  if n <? 0 then Throw NegativeArraySizeException else Ok (zeros n).

(** [System.arraycopy(src, srcPos, dest, destPos, length)], returning the
    new contents of [dest]. *)
Definition arraycopy (src : bytes) (srcPos : Z) (dest : bytes) (destPos : Z)
    (len : Z) : Result bytes :=
  if (srcPos <? 0) || (destPos <? 0) || (len <? 0)
     || (size src <? srcPos + len) || (size dest <? destPos + len)
  then Throw IndexOutOfBoundsException
  else Ok (firstn (Z.to_nat destPos) dest
           ++ firstn (Z.to_nat len) (skipn (Z.to_nat srcPos) src)
           ++ skipn (Z.to_nat (destPos + len)) dest).

(** [ByteArray.copyOf(newSize)]: truncate or pad with zeros. *)
Definition copyOf (a : bytes) (newSize : Z) : Result bytes :=
  if newSize <? 0 then Throw NegativeArraySizeException
  else Ok (firstn (Z.to_nat newSize) a ++ zeros (newSize - size a)).

(** [String.toByteArray(Charsets.UTF_8)]. *)
Definition toByteArray (s : string) : bytes := list_byte_of_string s.

(* ------------------------------------------------------------------ *)
(** ** The platform: text normalisation, JCA, Lazysodium *)

Class JavaText : Type := {
  (** [Normalizer.normalize(s, Normalizer.Form.NFKD)] *)
  normalizeNFKD : string -> string
}.

Class JCA : Type := {
  (** [MessageDigest.getInstance("SHA-256").digest(data)] *)
  sha256 : bytes -> bytes;
  (** [Mac.getInstance("HmacSHA256")] keyed with [key], run over [data] *)
  hmacSHA256 : forall (key data : bytes), bytes;
  (** [SecretKeyFactory.getInstance("PBKDF2WithHmacSHA512")] on
      [PBEKeySpec(password, salt, iterations, keyLengthBits)] *)
  pbkdf2WithHmacSHA512 :
    forall (password : string) (salt : bytes) (iterations keyLength : Z), bytes
}.

Class LazySodium : Type := {
  cryptoScalarmultBase : forall (publicKey privateKey : bytes), bool * bytes;
  (** returns the flag and the new contents of [publicKey] and [secretKey] *)
  cryptoSignSeedKeypair :
    forall (publicKey secretKey seed : bytes), bool * (bytes * bytes);
  cryptoBoxEasy :
    forall (cipherText message : bytes) (messageLen : Z)
           (nonce publicKey secretKey : bytes), bool * bytes;
  cryptoBoxOpenEasy :
    forall (message cipherText : bytes) (cipherTextLen : Z)
           (nonce publicKey secretKey : bytes), bool * bytes;
  cryptoSecretBoxEasy :
    forall (cipherText message : bytes) (messageLen : Z) (nonce key : bytes),
      bool * bytes;
  cryptoSecretBoxOpenEasy :
    forall (message cipherText : bytes) (cipherTextLen : Z) (nonce key : bytes),
      bool * bytes;
  cryptoSignDetached :
    forall (signature message : bytes) (messageLen : Z) (secretKey : bytes),
      bool * bytes;
  cryptoSignVerifyDetached :
    forall (signature message : bytes) (messageLen : Z) (publicKey : bytes),
      bool
}.

(** [SecretKeySpec(key, algorithm)] refuses an empty key. *)
Definition SecretKeySpec (key : bytes) : Result bytes :=
  match key with
  | [] => Throw IllegalArgumentException
  | _ => Ok key
  end.

(* ------------------------------------------------------------------ *)
(** ** Constants.kt *)

Module Constants.
Definition BIP39_SEED_LENGTH : Z := 64.
Definition BIP39_ITERATIONS : Z := 2048.
Definition BIP39_SALT : string := "mnemonic".
Definition HKDF_SALT : string := "whisper".
Definition ENCRYPTION_DOMAIN : string := "whisper/enc".
Definition SIGNING_DOMAIN : string := "whisper/sign".
Definition CONTACTS_DOMAIN : string := "whisper/contacts".
Definition NACL_NONCE_SIZE : Z := 24.
Definition NACL_KEY_SIZE : Z := 32.
Definition NACL_BOX_MAC_SIZE : Z := 16.
Definition TIMESTAMP_SKEW_MS : Z := 10 * 60 * 1000.
Definition KEYSTORE_ALIAS : string := "whisper2_wrapper_key".
Definition HEARTBEAT_INTERVAL_MS : Z := 30000.
Definition RECONNECT_BASE_DELAY_MS : Z := 1000.
Definition RECONNECT_MAX_DELAY_MS : Z := 30000.
Definition RECONNECT_MAX_ATTEMPTS : Z := 5.
End Constants.

(** Lazysodium's interface constants. *)
Module Box.
Definition PUBLICKEYBYTES : Z := 32.
Definition SECRETKEYBYTES : Z := 32.
Definition MACBYTES : Z := 16.
Definition NONCEBYTES : Z := 24.
End Box.

Module SecretBox.
Definition KEYBYTES : Z := 32.
Definition MACBYTES : Z := 16.
Definition NONCEBYTES : Z := 24.
End SecretBox.

Module Sign.
Definition PUBLICKEYBYTES : Z := 32.
Definition SECRETKEYBYTES : Z := 64.
Definition BYTES : Z := 64.
End Sign.

(* ------------------------------------------------------------------ *)
(** ** HKDF.kt *)

Module HKDF.
Section WithJCA.
Context `{JCA}.

Definition HASH_LEN : Z := 32.

Definition extract (salt ikm : bytes) : Result bytes :=
  _ <- SecretKeySpec salt ;;
  Ok (hmacSHA256 salt ikm).

(** The body of [for (i in 1..n)], run [count] more times from [i]. *)
Fixpoint expand_loop (prk info : bytes) (count : nat) (i : Z)
    (t okm : bytes) : Result bytes :=
  match count with
  | O => Ok okm
  | S count' =>
      let t' := hmacSHA256 prk (t ++ info ++ [toByte i]) in
      okm' <- arraycopy t' 0 okm (int32 ((i - 1) * HASH_LEN)) HASH_LEN ;;
      expand_loop prk info count' (i + 1) t' okm'
  end.

Definition expand (prk info : bytes) (length : Z) : Result bytes :=
  _ <- SecretKeySpec prk ;;
  (* ceil(length.toDouble() / HASH_LEN).toInt() *)
  let n := (length + (HASH_LEN - 1)) / HASH_LEN in
  okm <- ByteArray (int32 (n * HASH_LEN)) ;;
  okm' <- expand_loop prk info (Z.to_nat n) 1 [] okm ;;
  copyOf okm' length.

Definition deriveKey (ikm salt info : bytes) (length : Z) : Result bytes :=
  prk <- extract salt ikm ;;
  expand prk info length.
End WithJCA.
End HKDF.

(* ------------------------------------------------------------------ *)
(** ** Extensions.kt: text *)

Definition between (lo hi : N) (c : ascii) : bool :=
  (N.leb lo (N_of_ascii c) && N.leb (N_of_ascii c) hi)%bool.

(** [Char.isWhitespace()], which [String.trim()] uses, on the ASCII range:
    TAB to CR, the four separators FS to US, and the space.  The white
    space that Unicode has beyond ASCII is outside the embedding. *)
Definition isWhitespace (c : ascii) : bool :=
  between 9 13 c || between 28 32 c.

(** The class [\s] of [java.util.regex]: space, TAB, LF, VT, FF, CR. *)
Definition isRegexSpace (c : ascii) : bool :=
  between 9 13 c || between 32 32 c.

Fixpoint trimStart (s : string) : string :=
  match s with
  | EmptyString => EmptyString
  | String c s' => if isWhitespace c then trimStart s' else s
  end.

Fixpoint trimEnd (s : string) : string :=
  match s with
  | EmptyString => EmptyString
  | String c s' =>
      match trimEnd s' with
      | EmptyString => if isWhitespace c then EmptyString else String c EmptyString
      | r => String c r
      end
  end.

(** [String.trim()]. *)
Definition trim (s : string) : string := trimEnd (trimStart s).

(** [replace(Regex("\\s+"), " ")]: every maximal run of [\s] characters
    becomes one space; [inRun] says that the previous character was one. *)
Fixpoint replaceRuns (inRun : bool) (s : string) : string :=
  match s with
  | EmptyString => EmptyString
  | String c s' =>
      if isRegexSpace c
      then if inRun then replaceRuns true s' else String " " (replaceRuns true s')
      else String c (replaceRuns false s')
  end.

Definition lowercaseChar (c : ascii) : ascii :=
  if between 65 90 c then ascii_of_N (N_of_ascii c + 32) else c.

(** [String.lowercase()]. *)
Fixpoint lowercase (s : string) : string :=
  match s with
  | EmptyString => EmptyString
  | String c s' => String (lowercaseChar c) (lowercase s')
  end.

(** [String.split(" ")] for a one-character delimiter: empty pieces are
    kept, and the empty string splits into one empty piece. *)
Fixpoint split (sep : ascii) (s : string) : list string :=
  match s with
  | EmptyString => [EmptyString]
  | String c s' =>
      if Ascii.eqb c sep then EmptyString :: split sep s'
      else match split sep s' with
           | w :: ws => String c w :: ws
           | [] => [String c EmptyString]
           end
  end.

(** [joinToString(sep)]. *)
Fixpoint joinToString (sep : string) (ws : list string) : string :=
  match ws with
  | [] => EmptyString
  | [w] => w
  | w :: ws' => (w ++ sep ++ joinToString sep ws')%string
  end.

Section Text.
Context `{JavaText}.

(** [normalizeNFKD().trim().replace(Regex("\\s+"), " ").lowercase()] *)
Definition normalizeMnemonic (s : string) : string :=
  lowercase (replaceRuns false (trim (normalizeNFKD s))).
End Text.

(* ------------------------------------------------------------------ *)
(** ** BIP39WordList.kt *)

Module BIP39WordList.
(** The list literal of the source: 200 words, a comment where the rest
    would be, and the last three words. *)
Definition words : list string := [
  "abandon"; "ability"; "able"; "about"; "above"; "absent"; "absorb"; "abstract"; "absurd"; "abuse";
  "access"; "accident"; "account"; "accuse"; "achieve"; "acid"; "acoustic"; "acquire"; "across"; "act";
  "action"; "actor"; "actress"; "actual"; "adapt"; "add"; "addict"; "address"; "adjust"; "admit";
  "adult"; "advance"; "advice"; "aerobic"; "affair"; "afford"; "afraid"; "again"; "age"; "agent";
  "agree"; "ahead"; "aim"; "air"; "airport"; "aisle"; "alarm"; "album"; "alcohol"; "alert";
  "alien"; "all"; "alley"; "allow"; "almost"; "alone"; "alpha"; "already"; "also"; "alter";
  "always"; "amateur"; "amazing"; "among"; "amount"; "amused"; "analyst"; "anchor"; "ancient"; "anger";
  "angle"; "angry"; "animal"; "ankle"; "announce"; "annual"; "another"; "answer"; "antenna"; "antique";
  "anxiety"; "any"; "apart"; "apology"; "appear"; "apple"; "approve"; "april"; "arch"; "arctic";
  "area"; "arena"; "argue"; "arm"; "armed"; "armor"; "army"; "around"; "arrange"; "arrest";
  "arrive"; "arrow"; "art"; "artefact"; "artist"; "artwork"; "ask"; "aspect"; "assault"; "asset";
  "assist"; "assume"; "asthma"; "athlete"; "atom"; "attack"; "attend"; "attitude"; "attract"; "auction";
  "audit"; "august"; "aunt"; "author"; "auto"; "autumn"; "average"; "avocado"; "avoid"; "awake";
  "aware"; "away"; "awesome"; "awful"; "awkward"; "axis"; "baby"; "bachelor"; "bacon"; "badge";
  "bag"; "balance"; "balcony"; "ball"; "bamboo"; "banana"; "banner"; "bar"; "barely"; "bargain";
  "barrel"; "base"; "basic"; "basket"; "battle"; "beach"; "bean"; "beauty"; "because"; "become";
  "beef"; "before"; "begin"; "behave"; "behind"; "believe"; "below"; "belt"; "bench"; "benefit";
  "best"; "betray"; "better"; "between"; "beyond"; "bicycle"; "bid"; "bike"; "bind"; "biology";
  "bird"; "birth"; "bitter"; "black"; "blade"; "blame"; "blanket"; "blast"; "bleak"; "bless";
  "blind"; "blood"; "blossom"; "blouse"; "blue"; "blur"; "blush"; "board"; "boat"; "body";
  "zero"; "zone"; "zoo"  ]%string.

Definition isValidWord (word : string) : bool :=
  existsb (String.eqb (lowercase word)) words.

(** [words[index]]. *)
Definition getWord (index : Z) : Result string :=
  if (index <? 0) || (size words <=? index) then Throw IndexOutOfBoundsException
  else match nth_error words (Z.to_nat index) with
       | Some w => Ok w
       | None => Throw IndexOutOfBoundsException
       end.
End BIP39WordList.

(* ------------------------------------------------------------------ *)
(** ** BIP39.kt *)

(** [java.security.SecureRandom]: a tape of random bytes and the position
    reached on it. *)
Record SecureRandom : Type := {
  tape : nat -> Byte.byte;
  position : nat
}.

(** [secureRandom.nextBytes(buffer)]: the buffer's new contents and the
    generator afterwards. *)
Definition nextBytes (r : SecureRandom) (buffer : bytes) : bytes * SecureRandom :=
  (map (tape r) (seq (position r) (List.length buffer)),
   {| tape := tape r; position := (position r + List.length buffer)%nat |}).

(** [a[i]] on a [ByteArray]. *)
Definition get (a : bytes) (i : Z) : Result Byte.byte :=
  if i <? 0 then Throw IndexOutOfBoundsException
  else match nth_error a (Z.to_nat i) with
       | Some b => Ok b
       | None => Throw IndexOutOfBoundsException
       end.

Fixpoint binaryDigits (p : positive) : string :=
  match p with
  | xH => "1"%string
  | xO p' => (binaryDigits p' ++ "0")%string
  | xI p' => (binaryDigits p' ++ "1")%string
  end.

(** [Integer.toBinaryString(z)] for [0 <= z]. *)
Definition toBinaryString (z : Z) : string :=
  match z with
  | Zpos p => binaryDigits p
  | _ => "0"%string
  end.

Fixpoint spaces (n : nat) : string :=
  match n with
  | O => EmptyString
  | S n' => String " " (spaces n')
  end.

(** [String.format("%8s", s)]: right-justified in eight columns. *)
Definition format8s (s : string) : string :=
  (spaces (8 - String.length s) ++ s)%string.

(** [replace(' ', '0')]. *)
Fixpoint replaceSpaceByZero (s : string) : string :=
  match s with
  | EmptyString => EmptyString
  | String c s' => String (if Ascii.eqb c " " then "0"%char else c) (replaceSpaceByZero s')
  end.

(** [s.toInt(2)] on a string of binary digits, most significant first. *)
Fixpoint toInt2 (acc : Z) (s : string) : Z :=
  match s with
  | EmptyString => acc
  | String c s' => toInt2 (2 * acc + (if Ascii.eqb c "1" then 1 else 0)) s'
  end.

Module BIP39.
Section WithPlatform.
Context `{JavaText} `{JCA}.

(** The loop [for (i in 0 until checksumBits)], from [i], [count] times. *)
Fixpoint checksumLoop (hash : bytes) (count : nat) (i : Z) (bits : string)
    : Result string :=
  match count with
  | O => Ok bits
  | S count' =>
      h0 <- get hash 0 ;;
      let bit := if Z.land (toInt h0) (shl 1 (7 - i)) =? 0 then "0"%string else "1"%string in
      checksumLoop hash count' (i + 1) (bits ++ bit)%string
  end.

(** The loop [for (i in 0 until bits.length / 11)]. *)
Fixpoint wordLoop (bits : string) (count : nat) (i : Z) (words : list string)
    : Result (list string) :=
  match count with
  | O => Ok words
  | S count' =>
      let index := toInt2 0 (substring (Z.to_nat (i * 11)) 11 bits) in
      w <- BIP39WordList.getWord index ;;
      wordLoop bits count' (i + 1) (words ++ [w])
  end.

Definition entropyToMnemonic (entropy : bytes) : Result string :=
  let hash := sha256 entropy in
  let checksumBits := size entropy / 4 in
  let bits :=
    fold_left
      (fun acc b => (acc ++ replaceSpaceByZero (format8s (toBinaryString (unsigned b))))%string)
      entropy EmptyString in
  bits <- checksumLoop hash (Z.to_nat checksumBits) 0 bits ;;
  words <- wordLoop bits (String.length bits / 11)%nat 0 [] ;;
  Ok (joinToString " " words).

Definition generateMnemonic (secureRandom : SecureRandom)
    : Result string * SecureRandom :=
  let '(entropy, secureRandom') := nextBytes secureRandom (zeros 16) in
  (entropyToMnemonic entropy, secureRandom').

Definition generateMnemonic24 (secureRandom : SecureRandom)
    : Result string * SecureRandom :=
  let '(entropy, secureRandom') := nextBytes secureRandom (zeros 32) in
  (entropyToMnemonic entropy, secureRandom').

Definition validateMnemonic (mnemonic : string) : bool :=
  let words := split " " (normalizeMnemonic mnemonic) in
  if negb (size words =? 12) && negb (size words =? 24) then false
  else forallb BIP39WordList.isValidWord words.

Definition seedFromMnemonic (mnemonic : string) : Result bytes :=
  if negb (validateMnemonic mnemonic) then Throw InvalidMnemonicException
  else
    let normalized := normalizeMnemonic mnemonic in
    let salt := toByteArray Constants.BIP39_SALT in
    Ok (pbkdf2WithHmacSHA512 normalized salt Constants.BIP39_ITERATIONS
          (Constants.BIP39_SEED_LENGTH * 8)).
End WithPlatform.
End BIP39.

(* ------------------------------------------------------------------ *)
(** ** KeyDerivation.kt *)

Module KeyDerivation.
Record DerivedKeys : Type := {
  encPublicKey : bytes;
  encPrivateKey : bytes;
  signPublicKey : bytes;
  signPrivateKey : bytes;
  contactsKey : bytes
}.

Section WithPlatform.
Context `{JavaText} `{JCA} `{LazySodium}.

Definition generateEncryptionKeyPair (seed : bytes) : Result (bytes * bytes) :=
  publicKey <- ByteArray Box.PUBLICKEYBYTES ;;
  privateKey <- ByteArray Box.SECRETKEYBYTES ;;
  privateKey <- arraycopy seed 0 privateKey 0 32 ;;
  let '(_, publicKey) := cryptoScalarmultBase publicKey privateKey in
  Ok (publicKey, privateKey).

Definition generateSigningKeyPair (seed : bytes) : Result (bytes * bytes) :=
  publicKey <- ByteArray Sign.PUBLICKEYBYTES ;;
  privateKey <- ByteArray Sign.SECRETKEYBYTES ;;
  let '(_, keys) := cryptoSignSeedKeypair publicKey privateKey seed in
  Ok keys.

Definition deriveAllKeys (mnemonic : string) : Result DerivedKeys :=
  seed <- BIP39.seedFromMnemonic mnemonic ;;
  let salt := toByteArray Constants.HKDF_SALT in
  encSeed <- HKDF.deriveKey seed salt (toByteArray Constants.ENCRYPTION_DOMAIN) 32 ;;
  signSeed <- HKDF.deriveKey seed salt (toByteArray Constants.SIGNING_DOMAIN) 32 ;;
  contactsKey <- HKDF.deriveKey seed salt (toByteArray Constants.CONTACTS_DOMAIN) 32 ;;
  encKeyPair <- generateEncryptionKeyPair encSeed ;;
  signKeyPair <- generateSigningKeyPair signSeed ;;
  Ok {| encPublicKey := fst encKeyPair;
        encPrivateKey := snd encKeyPair;
        signPublicKey := fst signKeyPair;
        signPrivateKey := snd signKeyPair;
        contactsKey := contactsKey |}.
End WithPlatform.
End KeyDerivation.

(* ------------------------------------------------------------------ *)
(** ** NaClBox.kt, NaClSecretBox.kt *)

Module NaClBox.
Section WithSodium.
Context `{LazySodium}.

Definition seal (message nonce recipientPublicKey senderPrivateKey : bytes)
    : Result bytes :=
  ciphertext <- ByteArray (int32 (size message + Box.MACBYTES)) ;;
  let '(success, ciphertext) :=
    cryptoBoxEasy ciphertext message (size message) nonce
      recipientPublicKey senderPrivateKey in
  if negb success then Throw (EncryptionException "NaCl box seal failed")
  else Ok ciphertext.

Definition open (ciphertext nonce senderPublicKey recipientPrivateKey : bytes)
    : Result bytes :=
  message <- ByteArray (int32 (size ciphertext - Box.MACBYTES)) ;;
  let '(success, message) :=
    cryptoBoxOpenEasy message ciphertext (size ciphertext) nonce
      senderPublicKey recipientPrivateKey in
  if negb success then Throw (DecryptionException "NaCl box open failed")
  else Ok message.
End WithSodium.
End NaClBox.

Module NaClSecretBox.
Section WithSodium.
Context `{LazySodium}.

Definition seal (message nonce key : bytes) : Result bytes :=
  ciphertext <- ByteArray (int32 (size message + SecretBox.MACBYTES)) ;;
  let '(success, ciphertext) :=
    cryptoSecretBoxEasy ciphertext message (size message) nonce key in
  if negb success then Throw (EncryptionException "SecretBox seal failed")
  else Ok ciphertext.

Definition open (ciphertext nonce key : bytes) : Result bytes :=
  message <- ByteArray (int32 (size ciphertext - SecretBox.MACBYTES)) ;;
  let '(success, message) :=
    cryptoSecretBoxOpenEasy message ciphertext (size ciphertext) nonce key in
  if negb success then Throw (DecryptionException "SecretBox open failed")
  else Ok message.
End WithSodium.
End NaClSecretBox.

(* ------------------------------------------------------------------ *)
(** ** Signatures.kt *)

Module Signatures.
Section WithPlatform.
Context `{JCA} `{LazySodium}.

Definition sign (message privateKey : bytes) : Result bytes :=
  signature <- ByteArray Sign.BYTES ;;
  let '(_, signature) :=
    cryptoSignDetached signature message (size message) privateKey in
  Ok signature.

Definition verify (message signature publicKey : bytes) : bool :=
  cryptoSignVerifyDetached signature message (size message) publicKey.

Definition signChallenge (challenge privateKey : bytes) : Result bytes :=
  let hash := sha256 challenge in
  sign hash privateKey.

Definition verifyChallenge (challenge signature publicKey : bytes) : bool :=
  let hash := sha256 challenge in
  verify hash signature publicKey.
End WithPlatform.
End Signatures.

(* ------------------------------------------------------------------ *)
(** ** Extensions.kt: Base64, and the decimal form of a [Long] *)

Module Base64.
Definition alphabet : string :=
  "ABCDEFGHIJKLMNOPQRSTUVWXYZabcdefghijklmnopqrstuvwxyz0123456789+/".

(** The character of a six-bit value. *)
Definition digit (i : Z) : ascii :=
  match String.get (Z.to_nat i) alphabet with
  | Some c => c
  | None => "="%char
  end.

Definition u (b : Byte.byte) : Z := Z.of_N (Byte.to_N b).

(** [Base64.encodeToString(input, Base64.NO_WRAP)]: three bytes give four
    characters, the last group is padded with [=], no line breaks. *)
Fixpoint encodeToString (input : bytes) : string :=
  match input with
  | [] => EmptyString
  | [a] =>
      String (digit (u a / 4))
        (String (digit (u a mod 4 * 16)) "==")
  | [a; b] =>
      String (digit (u a / 4))
        (String (digit (u a mod 4 * 16 + u b / 16))
           (String (digit (u b mod 16 * 4)) "="))
  | a :: b :: c :: rest =>
      String (digit (u a / 4))
        (String (digit (u a mod 4 * 16 + u b / 16))
           (String (digit (u b mod 16 * 4 + u c / 64))
              (String (digit (u c mod 64)) (encodeToString rest))))
  end.
End Base64.

Definition encodeBase64 (b : bytes) : string := Base64.encodeToString b.

(** The string template ["$timestamp"]: [Long.toString()]. *)
Definition longToString (z : Z) : string := NilZero.string_of_int (Z.to_int z).

(* ------------------------------------------------------------------ *)
(** ** CanonicalSigning.kt *)

Module CanonicalSigning.
Definition LF : string := String (ascii_of_N 10) EmptyString.

(** The [buildString { ... }] block that [signMessage] and
    [verifyMessage] both contain. *)
Definition canonical (messageType messageId from toOrGroupId : string)
    (timestamp : Z) (nonce ciphertext : bytes) : string :=
  ("v1" ++ LF
   ++ messageType ++ LF
   ++ messageId ++ LF
   ++ from ++ LF
   ++ toOrGroupId ++ LF
   ++ longToString timestamp ++ LF
   ++ encodeBase64 nonce ++ LF
   ++ encodeBase64 ciphertext ++ LF)%string.

Section WithPlatform.
Context `{JCA} `{LazySodium}.

Definition signMessage (messageType messageId from toOrGroupId : string)
    (timestamp : Z) (nonce ciphertext privateKey : bytes) : Result bytes :=
  let canonical :=
    canonical messageType messageId from toOrGroupId timestamp nonce ciphertext in
  let hash := sha256 (toByteArray canonical) in
  Signatures.sign hash privateKey.

Definition verifyMessage (messageType messageId from toOrGroupId : string)
    (timestamp : Z) (nonce ciphertext signature publicKey : bytes) : bool :=
  let canonical :=
    canonical messageType messageId from toOrGroupId timestamp nonce ciphertext in
  let hash := sha256 (toByteArray canonical) in
  Signatures.verify hash signature publicKey.
End WithPlatform.
End CanonicalSigning.

(* ------------------------------------------------------------------ *)
(** ** WsConnectionState.kt, WsReconnectPolicy.kt *)

Inductive WsConnectionState : Type :=
| DISCONNECTED
| CONNECTING
| CONNECTED
| RECONNECTING
| AUTH_EXPIRED.

Module WsReconnectPolicy.
Record t : Type := {
  attemptCount : Z;
  isAuthExpired : bool;
  isNetworkAvailable : bool
}.

(** The field initialisers of the class. *)
Definition new : t :=
  {| attemptCount := 0; isAuthExpired := false; isNetworkAvailable := true |}.

Definition shouldRetry (p : t) : bool :=
  if isAuthExpired p then false
  else if negb (isNetworkAvailable p) then false
  else attemptCount p <? Constants.RECONNECT_MAX_ATTEMPTS.

(** Returns the delay and the policy with its counter advanced. *)
Definition getDelayMs (p : t) : Z * t :=
  let delay := int64 (Constants.RECONNECT_BASE_DELAY_MS * shl 1 (attemptCount p)) in
  let p' := {| attemptCount := int32 (attemptCount p + 1);
               isAuthExpired := isAuthExpired p;
               isNetworkAvailable := isNetworkAvailable p |} in
  (Z.min delay Constants.RECONNECT_MAX_DELAY_MS, p').

Definition reset (p : t) : t :=
  {| attemptCount := 0;
     isAuthExpired := false;
     isNetworkAvailable := isNetworkAvailable p |}.

Definition markAuthExpired (p : t) : t :=
  {| attemptCount := attemptCount p;
     isAuthExpired := true;
     isNetworkAvailable := isNetworkAvailable p |}.

Definition setNetworkAvailable (p : t) (available : bool) : t :=
  {| attemptCount :=
       if available && negb (isAuthExpired p) then 0 else attemptCount p;
     isAuthExpired := isAuthExpired p;
     isNetworkAvailable := available |}.

Definition isAuthenticationRequired (p : t) : bool := isAuthExpired p.
End WsReconnectPolicy.

(* ------------------------------------------------------------------ *)
(** ** WsClient.kt *)

Module WsClientImpl.
(** What the client asks of its collaborators, in the order asked. *)
Inductive Action : Type :=
| NewWebSocket                (* okHttpClient.newWebSocket(request, listener) *)
| Close                       (* webSocket?.close(1000, ...) on a socket held *)
| StartHeartbeat              (* the coroutine of startHeartbeat() *)
| Delay (ms : Z).             (* delay(reconnectPolicy.getDelayMs()) *)

(** The fields of the object; the reconnect coroutines that
    [attemptReconnect] has launched on the application scope
    ([Dispatchers.Default]) and that have not started to run; those that
    have started and are suspended in their [delay], oldest first; and
    the actions taken so far.  A method body, a listener callback and
    each of the two stretches of the coroutine (up to its [delay], and
    after it) are taken as one step. *)
Record t : Type := {
  webSocket : option nat;
  connectionState : WsConnectionState;
  reconnectPolicy : WsReconnectPolicy.t;
  launched : nat;
  suspended : list Z;
  actions : list Action
}.

Definition new : t :=
  {| webSocket := None;
     connectionState := DISCONNECTED;
     reconnectPolicy := WsReconnectPolicy.new;
     launched := 0%nat;
     suspended := [];
     actions := [] |}.

Definition isConnected (s : WsConnectionState) : bool :=
  match s with CONNECTED => true | _ => false end.

(** Sockets created so far. *)
Definition created (c : t) : nat :=
  List.length (filter (fun a => match a with NewWebSocket => true | _ => false end)
                 (actions c)).

Definition connect (c : t) : t :=
  if isConnected (connectionState c) then c
  else
    {| webSocket := Some (created c);
       connectionState := CONNECTING;
       reconnectPolicy := reconnectPolicy c;
       launched := launched c;
       suspended := suspended c;
       actions := actions c ++ [NewWebSocket] |}.

(** [attemptReconnect()]: the check, the state, and [scope.launch];
    the body of the coroutine does not run here. *)
Definition attemptReconnect (c : t) : t :=
  if WsReconnectPolicy.shouldRetry (reconnectPolicy c) then
    {| webSocket := webSocket c;
       connectionState := RECONNECTING;
       reconnectPolicy := reconnectPolicy c;
       launched := S (launched c);
       suspended := suspended c;
       actions := actions c |}
  else c.

(** A launched coroutine starts to run: it evaluates
    [reconnectPolicy.getDelayMs()], which advances the policy's counter,
    and suspends in [delay]. *)
Definition start (c : t) : t :=
  match launched c with
  | O => c
  | S n =>
      let '(ms, policy) := WsReconnectPolicy.getDelayMs (reconnectPolicy c) in
      {| webSocket := webSocket c;
         connectionState := connectionState c;
         reconnectPolicy := policy;
         launched := n;
         suspended := suspended c ++ [ms];
         actions := actions c ++ [Delay ms] |}
  end.

(** The listener's callbacks. *)
Definition onOpen (c : t) : t :=
  {| webSocket := webSocket c;
     connectionState := CONNECTED;
     reconnectPolicy := WsReconnectPolicy.reset (reconnectPolicy c);
     launched := launched c;
     suspended := suspended c;
     actions := actions c ++ [StartHeartbeat] |}.

Definition onFailure (c : t) : t :=
  attemptReconnect
    {| webSocket := webSocket c;
       connectionState := DISCONNECTED;
       reconnectPolicy := reconnectPolicy c;
       launched := launched c;
       suspended := suspended c;
       actions := actions c |}.

Definition onClosed (c : t) : t :=
  {| webSocket := webSocket c;
     connectionState := DISCONNECTED;
     reconnectPolicy := reconnectPolicy c;
     launched := launched c;
     suspended := suspended c;
     actions := actions c |}.

Definition disconnect (c : t) : t :=
  {| webSocket := None;
     connectionState := DISCONNECTED;
     reconnectPolicy := reconnectPolicy c;
     launched := launched c;
     suspended := suspended c;
     actions := match webSocket c with
                | Some _ => actions c ++ [Close]
                | None => actions c
                end |}.

Definition markAuthExpired (c : t) : t :=
  {| webSocket := webSocket c;
     connectionState := AUTH_EXPIRED;
     reconnectPolicy := WsReconnectPolicy.markAuthExpired (reconnectPolicy c);
     launched := launched c;
     suspended := suspended c;
     actions := actions c |}.

(** The oldest suspended reconnect coroutine resumes after its [delay]
    and calls [connect()]. *)
Definition resume (c : t) : t :=
  match suspended c with
  | [] => c
  | _ :: rest =>
      connect
        {| webSocket := webSocket c;
           connectionState := connectionState c;
           reconnectPolicy := reconnectPolicy c;
           launched := launched c;
           suspended := rest;
           actions := actions c |}
  end.

(** What can happen to the client: the calls of its public interface,
    and what the transport and the scheduler do on their own. *)
Inductive Event : Type :=
| Connect | Disconnect | MarkAuthExpired     (* calls from outside *)
| OnOpen | OnFailure | OnClosed              (* listener callbacks *)
| Start                                      (* a launched coroutine starts *)
| Resume.                                    (* a reconnect delay elapsed *)


Definition step (c : t) (e : Event) : t :=
  match e with
  | Connect => connect c
  | Disconnect => disconnect c
  | MarkAuthExpired => markAuthExpired c
  | OnOpen => onOpen c
  | OnFailure => onFailure c
  | OnClosed => onClosed c
  | Start => start c
  | Resume => resume c
  end.

Definition run (c : t) (es : list Event) : t := fold_left step es c.

(** The reconnect coroutines under way: launched, or suspended in
    their [delay]. *)
Definition pending (c : t) : nat := (launched c + List.length (suspended c))%nat.

(** The delays issued so far. *)
Definition delays (c : t) : list Z :=
  flat_map (fun a => match a with Delay ms => [ms] | _ => [] end) (actions c).

(** [n] consecutive connection failures: each attempt fails, and the
    reconnect coroutine, when one was launched, starts, sleeps and makes
    the next attempt before the next failure arrives. *)
Fixpoint failures (n : nat) (c : t) : t :=
  match n with
  | O => c
  | S n' =>
      failures n'
        (if WsReconnectPolicy.shouldRetry (reconnectPolicy c)
         then resume (start (onFailure c))
         else resume (onFailure c))
  end.
End WsClientImpl.

(* ------------------------------------------------------------------ *)
(** ** What the proofs assume of the platform *)

Definition isAscii (s : string) : bool :=
  forallb (fun c => N.ltb (N_of_ascii c) 128) (list_ascii_of_string s).

(** Compatibility decomposition leaves ASCII text as it is. *)
Class JavaTextSpec `{JavaText} : Prop := {
  normalizeNFKD_ascii : forall s, isAscii s = true -> normalizeNFKD s = s
}.

(** Output sizes of the digests and of the key factory. *)
Class JCASpec `{JCA} : Prop := {
  sha256_size : forall data, size (sha256 data) = 32;
  hmacSHA256_size : forall key data, size (hmacSHA256 key data) = 32;
  pbkdf2_size : forall password salt iterations keyLength,
    0 <= keyLength ->
    size (pbkdf2WithHmacSHA512 password salt iterations keyLength) = keyLength / 8
}.

(** An X25519 key pair as [generateEncryptionKeyPair] makes it. *)
Definition isBoxKeyPair `{LazySodium} (publicKey privateKey : bytes) : Prop :=
  size privateKey = Box.SECRETKEYBYTES /\
  snd (cryptoScalarmultBase (zeros Box.PUBLICKEYBYTES) privateKey) = publicKey.

(** A Java array keeps its size when a native method fills it, and
    [crypto_box_open_easy] opens what [crypto_box_easy] sealed between the
    same two key pairs under the same nonce. *)
Class LazySodiumSpec `{LazySodium} : Prop := {
  cryptoScalarmultBase_size : forall publicKey privateKey,
    size (snd (cryptoScalarmultBase publicKey privateKey)) = size publicKey;
  cryptoSignSeedKeypair_size : forall publicKey secretKey seed,
    size (fst (snd (cryptoSignSeedKeypair publicKey secretKey seed))) = size publicKey /\
    size (snd (snd (cryptoSignSeedKeypair publicKey secretKey seed))) = size secretKey;
  cryptoBoxEasy_size : forall cipherText message messageLen nonce publicKey secretKey,
    size (snd (cryptoBoxEasy cipherText message messageLen nonce publicKey secretKey))
    = size cipherText;
  cryptoBoxOpenEasy_size : forall message cipherText cipherTextLen nonce publicKey secretKey,
    size (snd (cryptoBoxOpenEasy message cipherText cipherTextLen nonce publicKey secretKey))
    = size message;
  cryptoBox_open_seal : forall message nonce pkS skS pkR skR,
    size nonce = Box.NONCEBYTES ->
    isBoxKeyPair pkS skS -> isBoxKeyPair pkR skR ->
    fst (cryptoBoxEasy (zeros (size message + Box.MACBYTES)) message (size message)
           nonce pkR skS) = true /\
    cryptoBoxOpenEasy (zeros (size message))
      (snd (cryptoBoxEasy (zeros (size message + Box.MACBYTES)) message (size message)
              nonce pkR skS))
      (size message + Box.MACBYTES) nonce pkS skR
    = (true, message)
}.

(* ------------------------------------------------------------------ *)
(** ** A small platform to run the definitions on

    ASCII text, additive checksums in the place of the digests, and a box
    whose tag is the sum of the two keys.  It has the sizes and the
    seal/open law assumed above, and nothing of their security. *)

Module Model.
(** [l] cut or zero-padded to [n] bytes. *)
Definition fit (n : Z) (l : bytes) : bytes :=
  firstn (Z.to_nat n) (l ++ zeros n).

Fixpoint addBytes (a b : bytes) : bytes :=
  match a, b with
  | x :: a', y :: b' => toByte (Base64.u x + Base64.u y) :: addBytes a' b'
  | _, _ => []
  end.

(** The 32-byte blocks of [data], added up. *)
Fixpoint checksum (blocks : nat) (data acc : bytes) : bytes :=
  match blocks with
  | O => acc
  | S blocks' => checksum blocks' (skipn 32 data) (addBytes acc (fit 32 data))
  end.

Definition digest (data : bytes) : bytes :=
  checksum (S (List.length data / 32)) data (zeros 32).

Definition eqbBytes (a b : bytes) : bool :=
  if list_eq_dec Byte.byte_eq_dec a b then true else false.

#[export] Instance text : JavaText := {| normalizeNFKD := fun s => s |}.

#[export] Instance jca : JCA := {|
  sha256 := digest;
  hmacSHA256 := fun key data => digest (key ++ data);
  pbkdf2WithHmacSHA512 := fun password salt _ keyLength =>
    fit (keyLength / 8) (toByteArray password ++ salt)
|}.

Definition tag (publicKey secretKey : bytes) : bytes :=
  fit 16 (addBytes publicKey secretKey).

#[export] Instance sodium : LazySodium := {|
  cryptoScalarmultBase := fun publicKey privateKey =>
    (true, fit (size publicKey) privateKey);
  cryptoSignSeedKeypair := fun publicKey secretKey seed =>
    (true, (fit (size publicKey) seed, fit (size secretKey) (seed ++ seed)));
  cryptoBoxEasy := fun cipherText message _ _ publicKey secretKey =>
    (true, fit (size cipherText) (tag publicKey secretKey ++ message));
  cryptoBoxOpenEasy := fun message cipherText _ _ publicKey secretKey =>
    if eqbBytes (firstn 16 cipherText) (tag publicKey secretKey)
    then (true, fit (size message) (skipn 16 cipherText))
    else (false, message);
  cryptoSecretBoxEasy := fun cipherText message _ _ key =>
    (true, fit (size cipherText) (fit 16 key ++ message));
  cryptoSecretBoxOpenEasy := fun message cipherText _ _ key =>
    if eqbBytes (firstn 16 cipherText) (fit 16 key)
    then (true, fit (size message) (skipn 16 cipherText))
    else (false, message);
  cryptoSignDetached := fun signature message _ secretKey =>
    (true, fit (size signature) (fit 32 message ++ fit 32 secretKey));
  cryptoSignVerifyDetached := fun signature message _ publicKey =>
    eqbBytes signature (fit 32 message ++ fit 32 publicKey)
|}.
End Model.

(* ------------------------------------------------------------------ *)
(** ** Reference definitions the theorems compare the code with *)

Module RFC5869.
Section WithJCA.
Context `{JCA}.

(** [T(i) | T(i+1) | ... ] of RFC 5869, [count] blocks, where [t] is
    [T(i-1)]: [T(i) = HMAC(prk, T(i-1) | info | i)]. *)
Fixpoint T (prk info : bytes) (count : nat) (i : Z) (t : bytes) : bytes :=
  match count with
  | O => []
  | S count' =>
      let t' := hmacSHA256 prk (t ++ info ++ [toByte i]) in
      t' ++ T prk info count' (i + 1) t'
  end.
End WithJCA.
End RFC5869.

(** Word substitution in a phrase: the phrase's normalised words with the
    [i]-th replaced by [w], joined again. *)
Fixpoint replaceNth {A : Type} (i : nat) (x : A) (l : list A) : list A :=
  match l, i with
  | [], _ => []
  | _ :: t, O => x :: t
  | h :: t, S i' => h :: replaceNth i' x t
  end.

Definition substituteWord `{JavaText} (phrase : string) (i : nat) (w : string)
    : string :=
  joinToString " " (replaceNth i w (split " " (normalizeMnemonic phrase))).

(** Every phrase obtained from [phrase] by putting another word of the
    list in the place of one of its words. *)
Definition substitutions `{JavaText} (phrase : string) : list string :=
  let ws := split " " (normalizeMnemonic phrase) in
  flat_map
    (fun i =>
       map (substituteWord phrase i)
         (filter (fun w => negb (String.eqb w (nth i ws EmptyString)))
            BIP39WordList.words))
    (seq 0 (List.length ws)).

(** The substitutions that validation rejects. *)
Definition rejected `{JavaText} (phrase : string) : list string :=
  filter (fun p => negb (BIP39.validateMnemonic p)) (substitutions phrase).

(** The twelve-word test phrase of BIP39 for all-zero entropy; its
    checksum is right. *)
Definition zeroEntropyPhrase : string :=
  "abandon abandon abandon abandon abandon abandon abandon abandon abandon abandon abandon about".

Definition isLower (c : ascii) : bool := between 97 122 c.

Fixpoint allLower (s : string) : bool :=
  match s with
  | EmptyString => true
  | String c s' => isLower c && allLower s'
  end.

(** A non-empty string of the letters [a] to [z]. *)
Definition isWord (s : string) : bool :=
  match s with
  | EmptyString => false
  | String _ _ => allLower s
  end.

(** A phrase of words: at least one, each of the letters [a] to [z]. *)
Definition isPhrase (ws : list string) : Prop :=
  ws <> [] /\ Forall (fun w => isWord w = true) ws.

(** The seven fields that [signMessage] and [verifyMessage] put into the
    canonical string. *)
Record Fields : Type := {
  messageType : string;
  messageId : string;
  from : string;
  toOrGroupId : string;
  timestamp : Z;
  nonce : bytes;
  ciphertext : bytes
}.

Definition canonicalOf (f : Fields) : string :=
  CanonicalSigning.canonical (messageType f) (messageId f) (from f) (toOrGroupId f)
    (timestamp f) (nonce f) (ciphertext f).

Definition signFields `{JCA} `{LazySodium} (f : Fields) (privateKey : bytes)
    : Result bytes :=
  CanonicalSigning.signMessage (messageType f) (messageId f) (from f) (toOrGroupId f)
    (timestamp f) (nonce f) (ciphertext f) privateKey.

Definition verifyFields `{JCA} `{LazySodium} (f : Fields) (signature publicKey : bytes)
    : bool :=
  CanonicalSigning.verifyMessage (messageType f) (messageId f) (from f) (toOrGroupId f)
    (timestamp f) (nonce f) (ciphertext f) signature publicKey.

(** No line feed in the string. *)
Fixpoint oneLine (s : string) : bool :=
  match s with
  | EmptyString => true
  | String c s' => negb (Ascii.eqb c (ascii_of_N 10)) && oneLine s'
  end.

(** The four text fields hold no line feed. *)
Definition oneLineFields (f : Fields) : bool :=
  oneLine (messageType f) && oneLine (messageId f)
  && oneLine (from f) && oneLine (toOrGroupId f).

(** The value of a Base64 character: its place in the alphabet. *)
Fixpoint indexOf (c : ascii) (s : string) (i : Z) : Z :=
  match s with
  | EmptyString => i
  | String c' s' => if Ascii.eqb c c' then i else indexOf c s' (i + 1)
  end.

Definition base64Value (c : ascii) : Z := indexOf c Base64.alphabet 0.

(** Two messages whose fields differ by where a line feed stands. *)
Definition shiftedLeft : Fields :=
  {| messageType := "text" ++ CanonicalSigning.LF ++ "m1";
     messageId := "alice";
     from := "bob"; toOrGroupId := "carol"; timestamp := 1700000000000;
     nonce := zeros 24; ciphertext := zeros 17 |}.

Definition shiftedRight : Fields :=
  {| messageType := "text";
     messageId := "m1" ++ CanonicalSigning.LF ++ "alice";
     from := "bob"; toOrGroupId := "carol"; timestamp := 1700000000000;
     nonce := zeros 24; ciphertext := zeros 17 |}.

(** A message, and the same message one millisecond later. *)
Definition sampleFields : Fields :=
  {| messageType := "text"; messageId := "m1";
     from := "alice"; toOrGroupId := "bob"; timestamp := 1700000000000;
     nonce := zeros 24; ciphertext := zeros 17 |}.

Definition sampleFieldsLater : Fields :=
  {| messageType := "text"; messageId := "m1";
     from := "alice"; toOrGroupId := "bob"; timestamp := 1700000000001;
     nonce := zeros 24; ciphertext := zeros 17 |}.

(** What is signed: the SHA-256 digest of the canonical string. *)
Definition digestOf `{JCA} (f : Fields) : bytes :=
  sha256 (toByteArray (canonicalOf f)).

(** A signing key pair of the small platform, from the seed [05 00 ... 00]. *)
Definition sampleSignPublicKey : bytes :=
  fst (snd (@cryptoSignSeedKeypair Model.sodium (zeros 32) (zeros 64)
              (Model.fit 32 [Byte.x05]))).

Definition sampleSignPrivateKey : bytes :=
  snd (snd (@cryptoSignSeedKeypair Model.sodium (zeros 32) (zeros 64)
              (Model.fit 32 [Byte.x05]))).

(** The delay the policy issues for attempt [n], counted from zero. *)
Definition backoff (n : nat) : Z :=
  Z.min (Constants.RECONNECT_BASE_DELAY_MS * 2 ^ Z.of_nat n)
        Constants.RECONNECT_MAX_DELAY_MS.

(* ------------------------------------------------------------------ *)
(** ** Extensions.kt: hexadecimal text, comparison, timestamps; Logger.kt *)

Module Long.
Definition MIN_VALUE : Z := - 2 ^ 63.
Definition MAX_VALUE : Z := 2 ^ 63 - 1.
End Long.

Definition hexDigits : string := "0123456789abcdef".

Definition hexDigit (i : Z) : ascii :=
  match String.get (Z.to_nat i) hexDigits with
  | Some c => c
  | None => "0"%char
  end.

Fixpoint hexOfPositive (p : positive) (fuel : nat) (acc : string) : string :=
  match fuel with
  | O => acc
  | S fuel' =>
      let acc' := String (hexDigit (Zpos p mod 16)) acc in
      match Zpos p / 16 with
      | Zpos q => hexOfPositive q fuel' acc'
      | _ => acc'
      end
  end.

(** The digits of [z >= 0] in base 16, without leading zeros. *)
Definition toHexString (z : Z) : string :=
  match z with
  | Zpos p => hexOfPositive p (Pos.to_nat p) EmptyString
  | _ => "0"%string
  end.

Fixpoint zerosText (n : nat) : string :=
  match n with
  | O => EmptyString
  | S n' => String "0" (zerosText n')
  end.

(** ["%02x".format(b)] for a [Byte]: a negative byte is printed as its
    value plus 256, and the digits are padded with zeros to two columns. *)
Definition format02x (b : Byte.byte) : string :=
  let v := if toInt b <? 0 then toInt b + 256 else toInt b in
  let digits := toHexString v in
  (zerosText (2 - String.length digits) ++ digits)%string.

(** [joinToString("") { "%02x".format(it) }] *)
Definition toHex (a : bytes) : string :=
  joinToString EmptyString (map format02x a).

(** [chunked(2)]: pieces of two characters, the last of one when the
    length is odd. *)
Fixpoint chunked2 (s : string) : list string :=
  match s with
  | EmptyString => []
  | String a EmptyString => [String a EmptyString]
  | String a (String b rest) => String a (String b EmptyString) :: chunked2 rest
  end.

(** The value of a digit in radix 16, for ASCII text. *)
Definition digit16 (c : ascii) : option Z :=
  let n := Z.of_N (N_of_ascii c) in
  if between 48 57 c then Some (n - 48)
  else if between 97 102 c then Some (n - 87)
  else if between 65 70 c then Some (n - 55)
  else None.

Fixpoint digits16 (acc : Z) (s : string) : option Z :=
  match s with
  | EmptyString => Some acc
  | String c s' =>
      match digit16 c with
      | Some d => digits16 (16 * acc + d) s'
      | None => None
      end
  end.

(** [s.toInt(16)] on a string of at most two characters (so there is no
    overflow): an optional sign, then at least one digit; [None] stands for
    [NumberFormatException]. *)
Definition toInt16 (s : string) : option Z :=
  match s with
  | EmptyString => None
  | String c s' =>
      if N.ltb (N_of_ascii c) 48 then
        match s' with
        | EmptyString => None
        | _ =>
            if Ascii.eqb c "-" then option_map Z.opp (digits16 0 s')
            else if Ascii.eqb c "+" then digits16 0 s'
            else None
        end
      else digits16 0 s
  end.

Fixpoint mapParse (chunks : list string) : option bytes :=
  match chunks with
  | [] => Some []
  | chunk :: chunks' =>
      match toInt16 chunk with
      | Some v =>
          match mapParse chunks' with
          | Some rest => Some (toByte v :: rest)
          | None => None
          end
      | None => None
      end
  end.

(** [chunked(2).map { it.toInt(16).toByte() }.toByteArray()]; [None] when a
    chunk does not parse. *)
Definition fromHex (s : string) : option bytes := mapParse (chunked2 s).

(** The loop of [secureEquals]: [result = result or (x xor y)] over the
    indices of the two arrays. *)
Fixpoint secureEqualsLoop (a b : bytes) (result : Z) : Z :=
  match a, b with
  | x :: a', y :: b' => secureEqualsLoop a' b' (Z.lor result (Z.lxor (toInt x) (toInt y)))
  | _, _ => result
  end.

Definition secureEquals (a other : bytes) : bool :=
  if negb (size a =? size other) then false
  else secureEqualsLoop a other 0 =? 0.

(** [ByteArray.wipe()]: [fill(0)]. *)
Definition wipe (a : bytes) : bytes := map (fun _ => Byte.x00) a.

(** [kotlin.math.abs] on [Long]. *)
Definition absLong (n : Z) : Z := if n <? 0 then int64 (- n) else n.

(** [Long.isValidTimestamp()], with the clock's reading [now] for
    [currentTimeMillis()]. *)
Definition isValidTimestamp (now timestamp : Z) : bool :=
  absLong (int64 (now - timestamp)) <=? Constants.TIMESTAMP_SKEW_MS.

(** [take(n)] and [takeLast(n)] on a string. *)
Definition take (n : nat) (s : string) : string := substring 0 n s.

Definition takeLast (n : nat) (s : string) : string :=
  substring (String.length s - n) n s.

Module Logger.
(** [Logger.redact] of generate_all.py. *)
Definition redact (v : string) : string :=
  if (String.length v <=? 8)%nat then "***"%string
  else (take 4 v ++ "..." ++ takeLast 4 v)%string.

(** [Logger.redact] of generate_project.py, by [BuildConfig.DEBUG]. *)
Definition redactByBuild (isDebug : bool) (value : string) : string :=
  if (String.length value <=? 8)%nat then "[REDACTED]"%string
  else if isDebug then (take 4 value ++ "..." ++ takeLast 4 value)%string
  else "[REDACTED]"%string.
End Logger.

(* ------------------------------------------------------------------ *)
(** ** More of what the proofs assume of Lazysodium *)

(** [crypto_secretbox_open_easy] opens what [crypto_secretbox_easy] sealed
    under the same 32-byte key and 24-byte nonce; arrays keep their size. *)
Class SecretBoxSpec `{LazySodium} : Prop := {
  cryptoSecretBoxEasy_size : forall cipherText message messageLen nonce key,
    size (snd (cryptoSecretBoxEasy cipherText message messageLen nonce key))
    = size cipherText;
  cryptoSecretBox_open_seal : forall message nonce key,
    size nonce = SecretBox.NONCEBYTES -> size key = SecretBox.KEYBYTES ->
    fst (cryptoSecretBoxEasy (zeros (size message + SecretBox.MACBYTES)) message
           (size message) nonce key) = true /\
    cryptoSecretBoxOpenEasy (zeros (size message))
      (snd (cryptoSecretBoxEasy (zeros (size message + SecretBox.MACBYTES)) message
              (size message) nonce key))
      (size message + SecretBox.MACBYTES) nonce key
    = (true, message)
}.

(** An Ed25519 key pair as [generateSigningKeyPair] makes it from a
    32-byte seed. *)
Definition isSignKeyPair `{LazySodium} (publicKey privateKey : bytes) : Prop :=
  exists seed,
    size seed = 32 /\
    snd (cryptoSignSeedKeypair (zeros Sign.PUBLICKEYBYTES) (zeros Sign.SECRETKEYBYTES) seed)
    = (publicKey, privateKey).

(** The signature buffer keeps its size, and a detached signature made
    with the private key of a pair verifies with its public key. *)
Class SignSpec `{LazySodium} : Prop := {
  cryptoSignDetached_size : forall signature message messageLen secretKey,
    size (snd (cryptoSignDetached signature message messageLen secretKey))
    = size signature;
  cryptoSign_verify_sign : forall message publicKey privateKey,
    isSignKeyPair publicKey privateKey ->
    cryptoSignVerifyDetached
      (snd (cryptoSignDetached (zeros Sign.BYTES) message (size message) privateKey))
      message (size message) publicKey
    = true
}.

(** The eight binary digits that [entropyToMnemonic] appends for a byte. *)
Definition byteBits (b : Byte.byte) : string :=
  replaceSpaceByZero (format8s (toBinaryString (unsigned b))).

(** The calls a holder of a [WsReconnectPolicy] can make, and the policy
    after a sequence of them. *)
Module PolicyCalls.
Inductive Call : Type :=
| ShouldRetry
| GetDelayMs
| Reset
| MarkAuthExpired
| SetNetworkAvailable (available : bool)
| IsAuthenticationRequired.

Definition isReset (c : Call) : bool :=
  match c with Reset => true | _ => false end.

Definition call (p : WsReconnectPolicy.t) (c : Call) : WsReconnectPolicy.t :=
  match c with
  | ShouldRetry => p
  | GetDelayMs => snd (WsReconnectPolicy.getDelayMs p)
  | Reset => WsReconnectPolicy.reset p
  | MarkAuthExpired => WsReconnectPolicy.markAuthExpired p
  | SetNetworkAvailable available => WsReconnectPolicy.setNetworkAvailable p available
  | IsAuthenticationRequired => p
  end.

Definition calls (p : WsReconnectPolicy.t) (cs : list Call) : WsReconnectPolicy.t :=
  fold_left call cs p.
End PolicyCalls.

(** A schedule in which every reconnect coroutine starts as soon as it is
    launched: each failure is followed by a start. *)
Definition promptly (es : list WsClientImpl.Event) : list WsClientImpl.Event :=
  flat_map (fun e => match e with
                     | WsClientImpl.OnFailure => [WsClientImpl.OnFailure; WsClientImpl.Start]
                     | _ => [e]
                     end) es.

(** A schedule in which [n] sockets are opened and all of them fail before
    any of the reconnect coroutines launched for them starts. *)
Definition racing (n : nat) : list WsClientImpl.Event :=
  repeat WsClientImpl.Connect n ++ repeat WsClientImpl.OnFailure n
  ++ repeat WsClientImpl.Start n.

(** What holds of the client in every state it reaches when coroutines
    start promptly. *)
Definition clientInvariant (c : WsClientImpl.t) : Prop :=
  (exists n : nat,
     WsReconnectPolicy.attemptCount (WsClientImpl.reconnectPolicy c) = Z.of_nat n
     /\ (n <= 5)%nat) /\
  WsReconnectPolicy.isNetworkAvailable (WsClientImpl.reconnectPolicy c) = true /\
  Forall (fun ms => In ms [1000; 2000; 4000; 8000; 16000]) (WsClientImpl.delays c) /\
  WsClientImpl.launched c = 0%nat.

(* ------------------------------------------------------------------ *)
(** ** KeystoreManager.kt *)

(** What the storage code can throw. *)
Inductive Throwable : Type :=
| AEADBadTagException            (* [Cipher.doFinal] on a tag that does not verify *)
| Thrown (e : exn)               (* [IndexOutOfBoundsException] of [copyOfRange],
                                    [IllegalArgumentException] of [Base64.decode] *).

Inductive Try (A : Type) : Type :=
| Success (a : A)
| Failure (e : Throwable).

Arguments Success {A} a.
Arguments Failure {A} e.

(** The cipher [AES/GCM/NoPadding] of the Android Keystore provider, and
    the Base64 decoder. *)
Class AndroidPlatform : Type := {
  gcmEncrypt : forall (key iv plaintext : bytes), bytes;
  (** [None]: the tag does not verify *)
  gcmDecrypt : forall (key iv ciphertext : bytes), option bytes;
  (** [Base64.decode(text, Base64.NO_WRAP)]; [None]: bad input *)
  base64Decode : string -> option bytes
}.

(** Decryption under the same key and IV undoes encryption, and decoding
    undoes [encodeToString]. *)
Class AndroidPlatformSpec `{AndroidPlatform} : Prop := {
  gcmDecrypt_gcmEncrypt : forall key iv plaintext,
    gcmDecrypt key iv (gcmEncrypt key iv plaintext) = Some plaintext;
  base64Decode_encode : forall input,
    base64Decode (Base64.encodeToString input) = Some input
}.

(** [String.decodeBase64()]. *)
Definition decodeBase64 `{AndroidPlatform} (s : string) : Try bytes :=
  match base64Decode s with
  | Some b => Success b
  | None => Failure (Thrown IllegalArgumentException)
  end.

(** [ByteArray.copyOfRange(fromIndex, toIndex)]: Kotlin checks [toIndex]
    against the size, then [java.util.Arrays.copyOfRange] the order of the
    two indices and the start. *)
Definition copyOfRange (a : bytes) (fromIndex toIndex : Z) : Try bytes :=
  if size a <? toIndex then Failure (Thrown IndexOutOfBoundsException)
  else if toIndex <? fromIndex then Failure (Thrown IllegalArgumentException)
  else if fromIndex <? 0 then Failure (Thrown IndexOutOfBoundsException)
  else Success (firstn (Z.to_nat (toIndex - fromIndex)) (skipn (Z.to_nat fromIndex) a)).

Module KeystoreManager.
(** The entry of the Android Keystore under [KEYSTORE_ALIAS], if any,
    and the generator that keys and IVs are drawn from. *)
Record t : Type := {
  entry : option bytes;
  random : SecureRandom
}.

Section WithPlatform.
Context `{AndroidPlatform}.

(** [getOrCreateKey()]: a generated key is stored under the alias. *)
Definition getOrCreateKey (k : t) : bytes * t :=
  match entry k with
  | Some key => (key, k)
  | None =>
      let '(key, random') := nextBytes (random k) (zeros 32) in
      (key, {| entry := Some key; random := random' |})
  end.

Definition wrapKey (keyToWrap : bytes) (k : t) : bytes * t :=
  let '(key, k1) := getOrCreateKey k in
  let '(iv, random') := nextBytes (random k1) (zeros 12) in
  let ciphertext := gcmEncrypt key iv keyToWrap in
  (iv ++ ciphertext, {| entry := entry k1; random := random' |}).

Definition unwrapKey (wrappedKey : bytes) (k : t) : Try bytes * t :=
  match copyOfRange wrappedKey 0 12 with
  | Failure e => (Failure e, k)
  | Success iv =>
      match copyOfRange wrappedKey 12 (size wrappedKey) with
      | Failure e => (Failure e, k)
      | Success ciphertext =>
          let '(key, k1) := getOrCreateKey k in
          match gcmDecrypt key iv ciphertext with
          | Some plaintext => (Success plaintext, k1)
          | None => (Failure AEADBadTagException, k1)
          end
      end
  end.

Definition deleteKey (k : t) : t :=
  match entry k with
  | Some _ => {| entry := None; random := random k |}
  | None => k
  end.
End WithPlatform.
End KeystoreManager.

(* ------------------------------------------------------------------ *)
(** ** SecureStorage.kt *)

(** [java.util.UUID], as its sixteen bytes. *)
Module UUID.
Fixpoint updateAt (i : nat) (f : Byte.byte -> Byte.byte) (a : bytes) : bytes :=
  match a, i with
  | [], _ => []
  | x :: a', O => f x :: a'
  | x :: a', S i' => x :: updateAt i' f a'
  end.

(** [randomUUID()]: sixteen bytes of the generator;
    [randomBytes[6] &= 0x0f; randomBytes[6] |= 0x40] sets the version,
    [randomBytes[8] &= 0x3f; randomBytes[8] |= 0x80] the variant. *)
Definition randomUUID (r : SecureRandom) : bytes * SecureRandom :=
  let '(randomBytes, r') := nextBytes r (zeros 16) in
  (updateAt 8 (fun x => toByte (Z.lor (Z.land (toInt x) 63) 128))
     (updateAt 6 (fun x => toByte (Z.lor (Z.land (toInt x) 15) 64)) randomBytes),
   r').

(** [toString()]: the bytes in hexadecimal, in groups of 4, 2, 2, 2 and
    6 separated by hyphens. *)
Definition toString (u : bytes) : string :=
  (toHex (firstn 4 u) ++ "-" ++ toHex (firstn 2 (skipn 4 u)) ++ "-"
   ++ toHex (firstn 2 (skipn 6 u)) ++ "-" ++ toHex (firstn 2 (skipn 8 u)) ++ "-"
   ++ toHex (firstn 6 (skipn 10 u)))%string.
End UUID.

(** [EncryptedSharedPreferences] with string values: the pairs stored, the
    newest first.  [putString] stores a null value as the text [__NULL__],
    and [getString] reads a stored text equal to it as null. *)
Module SharedPreferences.
Definition t : Type := list (string * string).

Definition NULL_VALUE : string := "__NULL__".

(** The text stored under a key. *)
Fixpoint stored (p : t) (key : string) : option string :=
  match p with
  | [] => None
  | (k, v) :: p' => if String.eqb k key then Some v else stored p' key
  end.

(** [getString(key, null)]. *)
Definition getString (p : t) (key : string) : option string :=
  match stored p key with
  | Some v => if String.eqb v NULL_VALUE then None else Some v
  | None => None
  end.

Fixpoint remove (p : t) (key : string) : t :=
  match p with
  | [] => []
  | (k, v) :: p' => if String.eqb k key then remove p' key else (k, v) :: remove p' key
  end.

(** [edit().putString(key, value).apply()]. *)
Definition putString (p : t) (key : string) (value : option string) : t :=
  (key, match value with Some v => v | None => NULL_VALUE end) :: remove p key.

(** [edit().clear().apply()]. *)
Definition clear (p : t) : t := [].
End SharedPreferences.

Module SecureStorage.
Record t : Type := {
  prefs : SharedPreferences.t;
  keystoreManager : KeystoreManager.t;
  uuids : SecureRandom
}.

Section WithPlatform.
Context `{AndroidPlatform}.

Definition withPrefs (s : t) (p : SharedPreferences.t) : t :=
  {| prefs := p; keystoreManager := keystoreManager s; uuids := uuids s |}.

Definition withKeystore (s : t) (k : KeystoreManager.t) : t :=
  {| prefs := prefs s; keystoreManager := k; uuids := uuids s |}.

(** A getter of the shape
    [prefs.getString(key, null)?.decodeBase64()?.let { unwrapKey(it) }]. *)
Definition getWrapped (key : string) (s : t) : Try (option bytes) * t :=
  match SharedPreferences.getString (prefs s) key with
  | None => (Success None, s)
  | Some text =>
      match decodeBase64 text with
      | Failure e => (Failure e, s)
      | Success wrapped =>
          match KeystoreManager.unwrapKey wrapped (keystoreManager s) with
          | (Success plain, k) => (Success (Some plain), withKeystore s k)
          | (Failure e, k) => (Failure e, withKeystore s k)
          end
      end
  end.

(** A setter of the shape
    [putString(key, value?.let { wrapKey(it).encodeBase64() })]. *)
Definition setWrapped (key : string) (value : option bytes) (s : t) : t :=
  match value with
  | None => withPrefs s (SharedPreferences.putString (prefs s) key None)
  | Some v =>
      let '(wrapped, k) := KeystoreManager.wrapKey v (keystoreManager s) in
      {| prefs := SharedPreferences.putString (prefs s) key (Some (encodeBase64 wrapped));
         keystoreManager := k;
         uuids := uuids s |}
  end.

(** A getter of the shape [prefs.getString(key, null)?.decodeBase64()]. *)
Definition getEncoded (key : string) (s : t) : Try (option bytes) :=
  match SharedPreferences.getString (prefs s) key with
  | None => Success None
  | Some text =>
      match decodeBase64 text with
      | Failure e => Failure e
      | Success b => Success (Some b)
      end
  end.

(** A setter of the shape [putString(key, value?.encodeBase64())]. *)
Definition setEncoded (key : string) (value : option bytes) (s : t) : t :=
  withPrefs s (SharedPreferences.putString (prefs s) key (option_map encodeBase64 value)).

Definition encPrivateKey : t -> Try (option bytes) * t := getWrapped "enc_priv".
Definition set_encPrivateKey : option bytes -> t -> t := setWrapped "enc_priv".
Definition encPublicKey : t -> Try (option bytes) := getEncoded "enc_pub".
Definition set_encPublicKey : option bytes -> t -> t := setEncoded "enc_pub".
Definition signPrivateKey : t -> Try (option bytes) * t := getWrapped "sign_priv".
Definition set_signPrivateKey : option bytes -> t -> t := setWrapped "sign_priv".
Definition signPublicKey : t -> Try (option bytes) := getEncoded "sign_pub".
Definition set_signPublicKey : option bytes -> t -> t := setEncoded "sign_pub".
Definition contactsKey : t -> Try (option bytes) * t := getWrapped "contacts_key".
Definition set_contactsKey : option bytes -> t -> t := setWrapped "contacts_key".

(** [String(bytes, Charsets.UTF_8)] on the bytes unwrapped. *)
Definition mnemonic (s : t) : Try (option string) * t :=
  match getWrapped "mnemonic" s with
  | (Success (Some b), s') => (Success (Some (string_of_list_byte b)), s')
  | (Success None, s') => (Success None, s')
  | (Failure e, s') => (Failure e, s')
  end.

Definition set_mnemonic (value : option string) (s : t) : t :=
  setWrapped "mnemonic" (option_map toByteArray value) s.

Definition sessionToken (s : t) : option string :=
  SharedPreferences.getString (prefs s) "session_token".

Definition set_sessionToken (value : option string) (s : t) : t :=
  withPrefs s (SharedPreferences.putString (prefs s) "session_token" value).

Definition whisperId (s : t) : option string :=
  SharedPreferences.getString (prefs s) "whisper_id".

Definition set_whisperId (value : option string) (s : t) : t :=
  withPrefs s (SharedPreferences.putString (prefs s) "whisper_id" value).

(** [prefs.getString("device_id", null) ?: UUID.randomUUID().toString()
    .also { prefs.edit().putString("device_id", it).apply() }] *)
Definition deviceId (s : t) : string * t :=
  match SharedPreferences.getString (prefs s) "device_id" with
  | Some id => (id, s)
  | None =>
      let '(uuid, uuids') := UUID.randomUUID (uuids s) in
      let id := UUID.toString uuid in
      (id, {| prefs := SharedPreferences.putString (prefs s) "device_id" (Some id);
              keystoreManager := keystoreManager s;
              uuids := uuids' |})
  end.

Definition clearAll (s : t) : t :=
  {| prefs := SharedPreferences.clear (prefs s);
     keystoreManager := KeystoreManager.deleteKey (keystoreManager s);
     uuids := uuids s |}.

Definition isLoggedIn (s : t) : bool :=
  match sessionToken s, whisperId s with
  | Some _, Some _ => true
  | _, _ => false
  end.
End WithPlatform.
End SecureStorage.

(* ------------------------------------------------------------------ *)
(** ** AuthService.kt *)

Inductive AuthState : Type :=
| Unauthenticated
| Authenticating
| Authenticated (whisperId : string)
| AuthError (message : string).

Module AuthService.
(** The collaborators the service is constructed on, and its state flow. *)
Record t : Type := {
  wsClient : WsClientImpl.t;
  secureStorage : SecureStorage.t;
  authState : AuthState
}.

(** The constructor: the initial value of [_authState]. *)
Definition create (ws : WsClientImpl.t) (storage : SecureStorage.t) : t :=
  {| wsClient := ws;
     secureStorage := storage;
     authState :=
       if SecureStorage.isLoggedIn storage then
         match SecureStorage.whisperId storage with
         | Some id => Authenticated id
         | None => Unauthenticated   (* [whisperId!!] cannot be null here *)
         end
       else Unauthenticated |}.

Definition logout (a : t) : t :=
  {| wsClient := WsClientImpl.disconnect (wsClient a);
     secureStorage := SecureStorage.clearAll (secureStorage a);
     authState := Unauthenticated |}.
End AuthService.

(* ------------------------------------------------------------------ *)
(** ** A Base64 decoder and an XOR cipher for the small platform *)

Module ModelAndroid.
Definition sextet (c : ascii) : Z := base64Value c.

Fixpoint decode (s : string) : option bytes :=
  match s with
  | EmptyString => Some []
  | String a (String b (String c (String d rest))) =>
      if Ascii.eqb c "=" then
        match rest with
        | EmptyString =>
            if Ascii.eqb d "=" then Some [toByte (sextet a * 4 + sextet b / 16)]
            else None
        | _ => None
        end
      else if Ascii.eqb d "=" then
        match rest with
        | EmptyString =>
            Some [toByte (sextet a * 4 + sextet b / 16);
                  toByte (sextet b mod 16 * 16 + sextet c / 4)]
        | _ => None
        end
      else
        match decode rest with
        | Some bs =>
            Some (toByte (sextet a * 4 + sextet b / 16)
                  :: toByte (sextet b mod 16 * 16 + sextet c / 4)
                  :: toByte (sextet c mod 4 * 64 + sextet d)
                  :: bs)
        | None => None
        end
  | _ => None
  end.

(** The plaintext behind a 16-byte tag made of the key and the IV. *)
Definition seal (key iv plaintext : bytes) : bytes :=
  Model.fit 16 (Model.addBytes (Model.fit 16 key) (Model.fit 16 iv)) ++ plaintext.

Definition unseal (key iv ciphertext : bytes) : option bytes :=
  if Model.eqbBytes (firstn 16 ciphertext)
       (Model.fit 16 (Model.addBytes (Model.fit 16 key) (Model.fit 16 iv)))
  then Some (skipn 16 ciphertext)
  else None.

#[export] Instance android : AndroidPlatform := {|
  gcmEncrypt := seal;
  gcmDecrypt := unseal;
  base64Decode := decode
|}.
End ModelAndroid.

(* ------------------------------------------------------------------ *)
(** ** A storage to run the code on *)

(** Nothing stored, no key in the keystore. *)
Definition sampleStorage : SecureStorage.t :=
  {| SecureStorage.prefs := [];
     SecureStorage.keystoreManager :=
       {| KeystoreManager.entry := None;
          KeystoreManager.random := {| tape := fun _ => Byte.x07; position := 0 |} |};
     SecureStorage.uuids := {| tape := fun _ => Byte.x2a; position := 0 |} |}.

(* ================================================================== *)
(** * Proofs *)

(* ------------------------------------------------------------------ *)
(** ** Arrays and machine integers *)

Lemma size_nonneg {A : Type} (l : list A) : 0 <= size l.
Proof. unfold size. lia. Qed.

Lemma size_app {A : Type} (l1 l2 : list A) : size (l1 ++ l2) = size l1 + size l2.
Proof. unfold size. rewrite length_app. lia. Qed.

Lemma size_zeros (n : Z) : 0 <= n -> size (zeros n) = n.
Proof. intros Hn. unfold size, zeros. rewrite repeat_length. lia. Qed.

Lemma zeros_nonpos (n : Z) : n <= 0 -> zeros n = [].
Proof. intros Hn. unfold zeros. replace (Z.to_nat n) with O by lia. reflexivity. Qed.

Lemma zeros_add (a b : Z) : 0 <= a -> 0 <= b -> zeros (a + b) = zeros a ++ zeros b.
Proof.
  intros Ha Hb. unfold zeros. rewrite Z2Nat.inj_add by lia. apply repeat_app.
Qed.

Lemma size_firstn {A : Type} (n : Z) (l : list A) :
  0 <= n <= size l -> size (firstn (Z.to_nat n) l) = n.
Proof. unfold size. intros Hn. rewrite length_firstn. lia. Qed.

Lemma int32_small (z : Z) : - 2 ^ 31 <= z < 2 ^ 31 -> int32 z = z.
Proof.
  intros Hz. unfold int32, wrap. change (32 - 1) with 31.
  rewrite Z.mod_small; [lia|]. change (2 ^ 32) with (2 * 2 ^ 31). lia.
Qed.

Lemma int64_small (z : Z) : - 2 ^ 63 <= z < 2 ^ 63 -> int64 z = z.
Proof.
  intros Hz. unfold int64, wrap. change (64 - 1) with 63.
  rewrite Z.mod_small; [lia|]. change (2 ^ 64) with (2 * 2 ^ 63). lia.
Qed.

Lemma ByteArray_ok (n : Z) : 0 <= n -> ByteArray n = Ok (zeros n).
Proof. intros Hn. unfold ByteArray. destruct (Z.ltb_spec n 0); [lia|reflexivity]. Qed.

Lemma ByteArray_negative (n : Z) : n < 0 -> ByteArray n = Throw NegativeArraySizeException.
Proof. intros Hn. unfold ByteArray. destruct (Z.ltb_spec n 0); [reflexivity|lia]. Qed.

Lemma copyOf_prefix (a : bytes) (n : Z) :
  0 <= n <= size a -> copyOf a n = Ok (firstn (Z.to_nat n) a).
Proof.
  intros Hn. unfold copyOf. destruct (Z.ltb_spec n 0); [lia|].
  rewrite zeros_nonpos by lia. now rewrite app_nil_r.
Qed.

(** Writing one whole block [t] behind the [pre] bytes already written. *)
Lemma arraycopy_block (t pre : bytes) (len rest : Z) :
  size t = len -> 0 <= rest ->
  arraycopy t 0 (pre ++ zeros (len + rest)) (size pre) len
  = Ok (pre ++ t ++ zeros rest).
Proof.
  intros Ht Hrest. pose proof (size_nonneg t). pose proof (size_nonneg pre).
  unfold arraycopy. rewrite size_app, size_zeros by lia.
  destruct (Z.ltb_spec 0 0); [lia|].
  destruct (Z.ltb_spec (size pre) 0); [lia|].
  destruct (Z.ltb_spec len 0); [lia|].
  destruct (Z.ltb_spec (size t) (0 + len)); [lia|].
  destruct (Z.ltb_spec (size pre + (len + rest)) (size pre + len)); [lia|].
  cbn [orb]. f_equal.
  unfold size in *.
  rewrite Nat2Z.id, firstn_app, firstn_all, Nat.sub_diag, firstn_O, app_nil_r.
  change (Z.to_nat 0) with O. rewrite skipn_O, firstn_all2 by lia.
  rewrite skipn_app, skipn_all2 by lia. cbn [app].
  replace (Z.to_nat (Z.of_nat (List.length pre) + len) - List.length pre)%nat
    with (Z.to_nat len) by lia.
  rewrite zeros_add by lia. rewrite skipn_app.
  unfold zeros at 1. rewrite skipn_all2 by (rewrite repeat_length; lia).
  unfold zeros at 1. rewrite repeat_length, Nat.sub_diag, skipn_O. reflexivity.
Qed.

(* ------------------------------------------------------------------ *)
(** ** HKDF *)

Section HKDFProofs.
Context `{JCA} `{!JCASpec}.

Lemma size_T (prk info : bytes) (count : nat) (i : Z) (t : bytes) :
  size (RFC5869.T prk info count i t) = HKDF.HASH_LEN * Z.of_nat count.
Proof.
  revert i t. induction count as [|count IH]; intros i t.
  - reflexivity.
  - cbn [RFC5869.T]. rewrite size_app, IH, hmacSHA256_size.
    unfold HKDF.HASH_LEN. lia.
Qed.

(** A longer chain starts with the shorter one. *)
Lemma T_prefix (prk info : bytes) (a b : nat) (i : Z) (t : bytes) :
  (a <= b)%nat ->
  exists rest, RFC5869.T prk info b i t = RFC5869.T prk info a i t ++ rest.
Proof.
  revert b i t. induction a as [|a IH]; intros b i t Hab.
  - now exists (RFC5869.T prk info b i t).
  - destruct b as [|b]; [lia|]. cbn [RFC5869.T].
    destruct (IH b (i + 1) (hmacSHA256 prk (t ++ info ++ [toByte i]))) as [rest Hrest];
      [lia|].
    exists rest. now rewrite Hrest, app_assoc.
Qed.

(** The loop fills the buffer with the chain, block after block. *)
Lemma expand_loop_T (prk info : bytes) (count : nat) (i : Z) (t pre : bytes) :
  size pre = (i - 1) * HKDF.HASH_LEN ->
  size pre + HKDF.HASH_LEN * Z.of_nat count <= 2 ^ 31 ->
  HKDF.expand_loop prk info count i t (pre ++ zeros (HKDF.HASH_LEN * Z.of_nat count))
  = Ok (pre ++ RFC5869.T prk info count i t).
Proof.
  revert i t pre. induction count as [|count IH]; intros i t pre Hpre Hfit.
  - cbn [HKDF.expand_loop RFC5869.T]. now rewrite zeros_nonpos by lia.
  - cbn [HKDF.expand_loop RFC5869.T].
    set (t' := hmacSHA256 prk (t ++ info ++ [toByte i])).
    pose proof (size_nonneg pre) as Hp.
    assert (Ht' : size t' = HKDF.HASH_LEN) by apply hmacSHA256_size.
    unfold HKDF.HASH_LEN in *.
    rewrite int32_small by lia. rewrite <- Hpre.
    replace (32 * Z.of_nat (S count)) with (32 + 32 * Z.of_nat count) by lia.
    rewrite arraycopy_block by lia. cbn [bind].
    rewrite (app_assoc pre t'), IH.
    + now rewrite <- app_assoc.
    + rewrite size_app. lia.
    + rewrite size_app. lia.
Qed.

(** [expand] returns the first [length] bytes of [T(1) | ... | T(n)]. *)
Lemma expand_T (prk info : bytes) (length : Z) :
  prk <> [] -> 0 <= length <= 2 ^ 31 - HKDF.HASH_LEN ->
  HKDF.expand prk info length
  = Ok (firstn (Z.to_nat length)
          (RFC5869.T prk info (Z.to_nat ((length + 31) / 32)) 1 [])).
Proof.
  intros Hprk Hlen. unfold HKDF.expand, HKDF.HASH_LEN in *.
  destruct prk as [|k prk]; [congruence|]. cbn [SecretKeySpec bind].
  change (32 - 1) with 31.
  set (n := (length + 31) / 32).
  assert (Hn : 0 <= n /\ length <= 32 * n /\ 32 * n <= length + 31).
  { subst n. pose proof (Z.div_mod (length + 31) 32 ltac:(lia)).
    pose proof (Z.mod_pos_bound (length + 31) 32 ltac:(lia)). lia. }
  rewrite int32_small by lia. rewrite ByteArray_ok by lia. cbn [bind].
  replace (zeros (n * 32))
    with ([] ++ zeros (HKDF.HASH_LEN * Z.of_nat (Z.to_nat n)))
    by (unfold HKDF.HASH_LEN; cbn [app]; f_equal; lia).
  rewrite (expand_loop_T (k :: prk) info (Z.to_nat n) 1 [] [])
    by (unfold HKDF.HASH_LEN, size; cbn [List.length]; lia).
  cbn [bind app]. apply copyOf_prefix.
  rewrite size_T. unfold HKDF.HASH_LEN. lia.
Qed.
End HKDFProofs.

(** C10. HKDF expand is prefix-monotone in the requested length: for a
    non-empty pseudorandom key, any info and lengths
    [0 <= l1 <= l2 <= 255 * 32], the longer expansion succeeds with [l2]
    bytes and the shorter one returns its first [l1] bytes. *)
Theorem expand_prefix_monotone `{JCA} `{!JCASpec} (prk info : bytes) (l1 l2 : Z) :
  prk <> [] -> 0 <= l1 <= l2 -> l2 <= 255 * HKDF.HASH_LEN ->
  exists okm2,
    HKDF.expand prk info l2 = Ok okm2 /\
    size okm2 = l2 /\
    HKDF.expand prk info l1 = Ok (firstn (Z.to_nat l1) okm2).
Proof.
  intros Hprk Hl Hmax. unfold HKDF.HASH_LEN in Hmax.
  rewrite !expand_T
    by (try assumption; unfold HKDF.HASH_LEN; change (2 ^ 31) with 2147483648; lia).
  set (n1 := Z.to_nat ((l1 + 31) / 32)). set (n2 := Z.to_nat ((l2 + 31) / 32)).
  assert (H1 : l1 <= 32 * Z.of_nat n1).
  { subst n1. pose proof (Z.div_mod (l1 + 31) 32 ltac:(lia)).
    pose proof (Z.mod_pos_bound (l1 + 31) 32 ltac:(lia)). lia. }
  assert (H2 : l2 <= 32 * Z.of_nat n2).
  { subst n2. pose proof (Z.div_mod (l2 + 31) 32 ltac:(lia)).
    pose proof (Z.mod_pos_bound (l2 + 31) 32 ltac:(lia)). lia. }
  assert (Hn : (n1 <= n2)%nat).
  { subst n1 n2. apply Z2Nat.inj_le; try (apply Z.div_pos; lia).
    apply Z.div_le_mono; lia. }
  eexists. split; [reflexivity|]. split.
  - apply size_firstn. rewrite size_T. unfold HKDF.HASH_LEN. lia.
  - f_equal. rewrite firstn_firstn. replace (Nat.min (Z.to_nat l1) (Z.to_nat l2))
      with (Z.to_nat l1) by lia.
    destruct (T_prefix prk info n1 n2 1 [] Hn) as [rest ->].
    rewrite firstn_app.
    pose proof (size_T prk info n1 1 []) as Hs. unfold size, HKDF.HASH_LEN in Hs.
    replace (Z.to_nat l1 - List.length (RFC5869.T prk info n1 1 []))%nat with O by lia.
    now rewrite firstn_O, app_nil_r.
Qed.

(* ------------------------------------------------------------------ *)
(** ** The small platform has the assumed properties *)

Lemma size_fit (n : Z) (l : bytes) : 0 <= n -> size (Model.fit n l) = n.
Proof.
  intros Hn. unfold Model.fit. apply size_firstn.
  rewrite size_app, size_zeros by lia. pose proof (size_nonneg l). lia.
Qed.

Lemma fit_exact (n : Z) (l : bytes) : size l = n -> Model.fit n l = l.
Proof.
  intros Hl. unfold Model.fit, size in *. rewrite firstn_app.
  replace (Z.to_nat n - List.length l)%nat with O by lia.
  rewrite firstn_O, app_nil_r. apply firstn_all2. lia.
Qed.

Lemma length_addBytes (a b : bytes) :
  List.length (Model.addBytes a b) = Nat.min (List.length a) (List.length b).
Proof.
  revert b. induction a as [|x a IH]; intros [|y b]; cbn; try reflexivity.
  now rewrite IH.
Qed.

Lemma addBytes_comm (a b : bytes) : Model.addBytes a b = Model.addBytes b a.
Proof.
  revert b. induction a as [|x a IH]; intros [|y b]; cbn; try reflexivity.
  now rewrite IH, Z.add_comm.
Qed.

Lemma size_checksum (blocks : nat) (data acc : bytes) :
  size acc = 32 -> size (Model.checksum blocks data acc) = 32.
Proof.
  revert data acc. induction blocks as [|blocks IH]; intros data acc Hacc.
  - assumption.
  - cbn [Model.checksum]. apply IH.
    pose proof (size_fit 32 data ltac:(lia)) as Hf.
    unfold size in *. rewrite length_addBytes. lia.
Qed.

Lemma size_digest (data : bytes) : size (Model.digest data) = 32.
Proof. unfold Model.digest. apply size_checksum. now rewrite size_zeros. Qed.

Lemma eqbBytes_refl (a : bytes) : Model.eqbBytes a a = true.
Proof. unfold Model.eqbBytes. destruct (list_eq_dec _ a a); congruence. Qed.

Lemma model_text_spec : @JavaTextSpec Model.text.
Proof. constructor. reflexivity. Qed.

Lemma model_jca_spec : @JCASpec Model.jca.
Proof.
  constructor; cbn [sha256 hmacSHA256 pbkdf2WithHmacSHA512 Model.jca].
  - apply size_digest.
  - intros. apply size_digest.
  - intros password salt _ keyLength Hk. apply size_fit. apply Z.div_pos; lia.
Qed.

Lemma model_sodium_spec : @LazySodiumSpec Model.sodium.
Proof.
  constructor; unfold isBoxKeyPair;
    cbn [cryptoScalarmultBase cryptoSignSeedKeypair cryptoBoxEasy
         cryptoBoxOpenEasy Model.sodium fst snd].
  - intros. apply size_fit, size_nonneg.
  - intros. split; apply size_fit, size_nonneg.
  - intros. apply size_fit, size_nonneg.
  - intros. destruct (Model.eqbBytes _ _); cbn; [apply size_fit, size_nonneg|reflexivity].
  - intros message nonce pkS skS pkR skR _ [HskS HpkS] [HskR HpkR].
    unfold Box.NONCEBYTES, Box.SECRETKEYBYTES, Box.PUBLICKEYBYTES, Box.MACBYTES in *.
    rewrite size_zeros in HpkS, HpkR by lia.
    rewrite fit_exact in HpkS, HpkR by assumption. subst pkS pkR.
    split; [reflexivity|].
    pose proof (size_nonneg message) as Hm.
    assert (Htag : size (Model.tag skR skS) = 16) by (apply size_fit; lia).
    rewrite !size_zeros by lia.
    rewrite fit_exact by (rewrite size_app; lia).
    assert (Hlen : List.length (Model.tag skR skS) = 16%nat) by (unfold size in Htag; lia).
    rewrite firstn_app, Hlen, firstn_all2 by lia.
    cbn [Nat.sub firstn]. rewrite app_nil_r.
    unfold Model.tag at 2. rewrite (addBytes_comm skS skR). fold (Model.tag skR skS).
    rewrite eqbBytes_refl.
    rewrite skipn_app, Hlen, skipn_all2 by lia. cbn [Nat.sub skipn app].
    now rewrite fit_exact.
Qed.

Lemma expand_prefix_monotone_witness :
  exists okm2,
    @HKDF.expand Model.jca [Byte.x01] [Byte.x02] 40 = Ok okm2 /\
    size okm2 = 40 /\
    @HKDF.expand Model.jca [Byte.x01] [Byte.x02] 32 = Ok (firstn 32 okm2).
Proof.
  apply (@expand_prefix_monotone Model.jca model_jca_spec [Byte.x01] [Byte.x02] 32 40).
  - discriminate.
  - lia.
  - unfold HKDF.HASH_LEN. lia.
Defined.

(* ------------------------------------------------------------------ *)
(** ** NaClBox and NaClSecretBox *)

Section NaClProofs.
Context `{LazySodium}.

Lemma NaClBox_open_unfold (ciphertext nonce publicKey privateKey : bytes) :
  size ciphertext <= Int.MAX_VALUE ->
  NaClBox.open ciphertext nonce publicKey privateKey
  = if size ciphertext <? Box.MACBYTES then Throw NegativeArraySizeException
    else
      let r := cryptoBoxOpenEasy (zeros (size ciphertext - Box.MACBYTES)) ciphertext
                 (size ciphertext) nonce publicKey privateKey in
      if fst r then Ok (snd r)
      else Throw (DecryptionException "NaCl box open failed").
Proof.
  intros Hmax. pose proof (size_nonneg ciphertext) as Hs.
  unfold NaClBox.open, Int.MAX_VALUE, Box.MACBYTES in *.
  rewrite int32_small by (change (2 ^ 31) with 2147483648; lia).
  destruct (Z.ltb_spec (size ciphertext) 16).
  - now rewrite ByteArray_negative by lia.
  - rewrite ByteArray_ok by lia. cbn [bind]; cbv zeta.
    destruct (cryptoBoxOpenEasy _ _ _ _ _ _) as [[|] message]; reflexivity.
Qed.

Lemma NaClSecretBox_open_unfold (ciphertext nonce key : bytes) :
  size ciphertext <= Int.MAX_VALUE ->
  NaClSecretBox.open ciphertext nonce key
  = if size ciphertext <? SecretBox.MACBYTES then Throw NegativeArraySizeException
    else
      let r := cryptoSecretBoxOpenEasy (zeros (size ciphertext - SecretBox.MACBYTES))
                 ciphertext (size ciphertext) nonce key in
      if fst r then Ok (snd r)
      else Throw (DecryptionException "SecretBox open failed").
Proof.
  intros Hmax. pose proof (size_nonneg ciphertext) as Hs.
  unfold NaClSecretBox.open, Int.MAX_VALUE, SecretBox.MACBYTES in *.
  rewrite int32_small by (change (2 ^ 31) with 2147483648; lia).
  destruct (Z.ltb_spec (size ciphertext) 16).
  - now rewrite ByteArray_negative by lia.
  - rewrite ByteArray_ok by lia. cbn [bind]; cbv zeta.
    destruct (cryptoSecretBoxOpenEasy _ _ _ _ _) as [[|] message]; reflexivity.
Qed.

Lemma NaClBox_seal_unfold (message nonce publicKey privateKey : bytes) :
  size message + Box.MACBYTES <= Int.MAX_VALUE ->
  NaClBox.seal message nonce publicKey privateKey
  = let r := cryptoBoxEasy (zeros (size message + Box.MACBYTES)) message
               (size message) nonce publicKey privateKey in
    if fst r then Ok (snd r)
    else Throw (EncryptionException "NaCl box seal failed").
Proof.
  intros Hmax. pose proof (size_nonneg message) as Hs.
  unfold NaClBox.seal, Int.MAX_VALUE, Box.MACBYTES in *.
  rewrite int32_small by (change (2 ^ 31) with 2147483648; lia).
  rewrite ByteArray_ok by lia. cbn [bind]; cbv zeta.
  destruct (cryptoBoxEasy _ _ _ _ _ _) as [[|] ciphertext]; reflexivity.
Qed.
End NaClProofs.

(** C9. A ciphertext shorter than the 16-byte tag makes [open], of the box
    and of the secret box, fail with [NegativeArraySizeException] at the
    allocation of the plaintext buffer, whatever the primitive would answer;
    from 16 bytes on the buffer is allocated and [open] fails exactly when
    the primitive reports a failed authentication, with
    [DecryptionException]. *)
Theorem open_requires_tag_length `{LazySodium}
    (ciphertext nonce publicKey privateKey key : bytes) :
  size ciphertext <= Int.MAX_VALUE ->
  NaClBox.open ciphertext nonce publicKey privateKey
  = (if size ciphertext <? 16 then Throw NegativeArraySizeException
     else
       let r := cryptoBoxOpenEasy (zeros (size ciphertext - 16)) ciphertext
                  (size ciphertext) nonce publicKey privateKey in
       if fst r then Ok (snd r)
       else Throw (DecryptionException "NaCl box open failed"))
  /\
  NaClSecretBox.open ciphertext nonce key
  = (if size ciphertext <? 16 then Throw NegativeArraySizeException
     else
       let r := cryptoSecretBoxOpenEasy (zeros (size ciphertext - 16)) ciphertext
                  (size ciphertext) nonce key in
       if fst r then Ok (snd r)
       else Throw (DecryptionException "SecretBox open failed"))
  /\
  (16 <= size ciphertext ->
   ByteArray (int32 (size ciphertext - 16)) = Ok (zeros (size ciphertext - 16))).
Proof.
  intros Hmax. split; [|split].
  - now apply NaClBox_open_unfold.
  - now apply NaClSecretBox_open_unfold.
  - intros Hlen. unfold Int.MAX_VALUE in Hmax.
    rewrite int32_small by (change (2 ^ 31) with 2147483648; lia).
    apply ByteArray_ok. lia.
Qed.

Lemma open_requires_tag_length_witness :
  @NaClBox.open Model.sodium (zeros 15) (zeros 24) (zeros 32) (zeros 32)
  = Throw NegativeArraySizeException
  /\ @NaClSecretBox.open Model.sodium (zeros 15) (zeros 24) (zeros 32)
     = Throw NegativeArraySizeException.
Proof.
  destruct (@open_requires_tag_length Model.sodium
              (zeros 15) (zeros 24) (zeros 32) (zeros 32) (zeros 32))
    as [Hbox [Hsecret _]].
  - vm_compute. discriminate.
  - split; [exact Hbox | exact Hsecret].
Defined.

(** C5. Between two X25519 key pairs and under a 24-byte nonce, [seal]
    returns a ciphertext of [len(m) + 16] bytes that [open] turns back into
    [m], also for the empty message; and when the primitive reports that
    the tag does not authenticate, [open] throws [DecryptionException] and
    so returns no byte of plaintext. *)
Theorem box_open_seal `{LazySodium} `{!LazySodiumSpec}
    (m n pkS skS pkR skR : bytes) :
  size n = 24 ->
  isBoxKeyPair pkS skS -> isBoxKeyPair pkR skR ->
  size m + 16 <= Int.MAX_VALUE ->
  (exists c,
     NaClBox.seal m n pkR skS = Ok c /\
     size c = size m + 16 /\
     NaClBox.open c n pkS skR = Ok m) /\
  (forall c' n' pk sk,
     16 <= size c' <= Int.MAX_VALUE ->
     fst (cryptoBoxOpenEasy (zeros (size c' - 16)) c' (size c') n' pk sk) = false ->
     NaClBox.open c' n' pk sk = Throw (DecryptionException "NaCl box open failed")).
Proof.
  intros Hn HS HR Hmax. pose proof (size_nonneg m) as Hm. split.
  - destruct (cryptoBox_open_seal m n pkS skS pkR skR Hn HS HR) as [Hok Hopen].
    unfold Box.MACBYTES in *.
    exists (snd (cryptoBoxEasy (zeros (size m + 16)) m (size m) n pkR skS)).
    assert (Hsize : size (snd (cryptoBoxEasy (zeros (size m + 16)) m (size m) n pkR skS))
                    = size m + 16).
    { rewrite cryptoBoxEasy_size. apply size_zeros. lia. }
    split; [|split].
    + rewrite NaClBox_seal_unfold by assumption. unfold Box.MACBYTES.
      cbv zeta. now rewrite Hok.
    + exact Hsize.
    + rewrite NaClBox_open_unfold by lia. unfold Box.MACBYTES. rewrite Hsize.
      destruct (Z.ltb_spec (size m + 16) 16); [lia|].
      replace (size m + 16 - 16) with (size m) by lia.
      cbv zeta. now rewrite Hopen.
  - intros c' n' pk sk Hc Hfail.
    rewrite NaClBox_open_unfold by lia. unfold Box.MACBYTES.
    destruct (Z.ltb_spec (size c') 16); [lia|].
    cbv zeta. now rewrite Hfail.
Qed.

Lemma box_open_seal_witness :
  (exists c,
     @NaClBox.seal Model.sodium [] (zeros 24) (Model.fit 32 [Byte.x07]) (Model.fit 32 [Byte.x05])
     = Ok c /\
     size c = 16 /\
     @NaClBox.open Model.sodium c (zeros 24) (Model.fit 32 [Byte.x05]) (Model.fit 32 [Byte.x07])
     = Ok []) /\
  (forall c' n' pk sk,
     16 <= size c' <= Int.MAX_VALUE ->
     fst (@cryptoBoxOpenEasy Model.sodium (zeros (size c' - 16)) c' (size c') n' pk sk) = false ->
     @NaClBox.open Model.sodium c' n' pk sk
     = Throw (DecryptionException "NaCl box open failed")).
Proof.
  apply (@box_open_seal Model.sodium model_sodium_spec
           [] (zeros 24)
           (Model.fit 32 [Byte.x05]) (Model.fit 32 [Byte.x05])
           (Model.fit 32 [Byte.x07]) (Model.fit 32 [Byte.x07])).
  - reflexivity.
  - split; reflexivity.
  - split; reflexivity.
  - vm_compute. discriminate.
Defined.

(* ------------------------------------------------------------------ *)
(** ** BIP39: the word list *)

Lemma words_size : size BIP39WordList.words = 203.
Proof. reflexivity. Qed.

Lemma getWord_out_of_range (index : Z) :
  203 <= index -> BIP39WordList.getWord index = Throw IndexOutOfBoundsException.
Proof.
  intros Hi. unfold BIP39WordList.getWord. rewrite words_size.
  destruct (Z.leb_spec 203 index); [|lia]. now rewrite orb_true_r.
Qed.

(** C2 (the code departs from it). The list literal holds 203 words, not
    2048, so [getWord] throws on every index from 203 on; for the 16 bytes
    of entropy [0xFF] the first 11-bit group is 2047 and
    [entropyToMnemonic], hence [generateMnemonic] on a generator that
    draws them, throws [IndexOutOfBoundsException] instead of returning
    twelve words, whatever the digest. *)
Theorem entropyToMnemonic_truncated_list `{JavaText} `{JCA} (r : SecureRandom) :
  size BIP39WordList.words = 203 /\
  BIP39WordList.getWord 2047 = Throw IndexOutOfBoundsException /\
  BIP39.entropyToMnemonic (repeat Byte.xff 16) = Throw IndexOutOfBoundsException /\
  fst (BIP39.generateMnemonic {| tape := fun _ => Byte.xff; position := position r |})
  = Throw IndexOutOfBoundsException.
Proof.
  assert (Hent : BIP39.entropyToMnemonic (repeat Byte.xff 16)
                 = Throw IndexOutOfBoundsException).
  { unfold BIP39.entropyToMnemonic.
    change (Z.to_nat (size (repeat Byte.xff 16) / 4)) with 4%nat.
    match goal with
    | |- context [fold_left ?f ?l ?a] =>
        let v := eval vm_compute in (fold_left f l a) in
        change (fold_left f l a) with v
    end.
    cbn [BIP39.checksumLoop].
    destruct (sha256 (repeat Byte.xff 16)) as [|h0 rest]; [reflexivity|].
    change (get (h0 :: rest) 0) with (Ok h0). cbn [bind].
    destruct (Z.land (toInt h0) (shl 1 (7 - 0)) =? 0);
      destruct (Z.land (toInt h0) (shl 1 (7 - (0 + 1))) =? 0);
      destruct (Z.land (toInt h0) (shl 1 (7 - (0 + 1 + 1))) =? 0);
      destruct (Z.land (toInt h0) (shl 1 (7 - (0 + 1 + 1 + 1))) =? 0);
      vm_compute; reflexivity. }
  split; [reflexivity|]. split; [reflexivity|]. split; [exact Hent|].
  unfold BIP39.generateMnemonic, nextBytes. cbn [tape position fst].
  replace (map (fun _ : nat => Byte.xff) (seq (position r) (List.length (zeros 16))))
    with (repeat Byte.xff 16); [exact Hent|].
  change (List.length (zeros 16)) with 16%nat.
  generalize (position r). intros p. cbn. reflexivity.
Qed.

(* ------------------------------------------------------------------ *)
(** ** BIP39: the seed *)

Lemma seedFromMnemonic_eq `{JavaText} `{JCA} (mnemonic : string) :
  BIP39.seedFromMnemonic mnemonic
  = if BIP39.validateMnemonic mnemonic
    then Ok (pbkdf2WithHmacSHA512 (normalizeMnemonic mnemonic)
               (toByteArray "mnemonic") 2048 512)
    else Throw InvalidMnemonicException.
Proof.
  unfold BIP39.seedFromMnemonic.
  now destruct (BIP39.validateMnemonic mnemonic).
Qed.

(** C4. [seedFromMnemonic] throws [InvalidMnemonicException] exactly when
    [validateMnemonic] rejects the phrase, and otherwise returns the 64
    bytes that PBKDF2-HMAC-SHA512 gives for the normalised phrase, the salt
    ["mnemonic"], 2048 iterations and 512 bits. *)
Theorem seedFromMnemonic_spec `{JavaText} `{JCA} `{!JCASpec} (mnemonic : string) :
  (BIP39.seedFromMnemonic mnemonic = Throw InvalidMnemonicException
   <-> BIP39.validateMnemonic mnemonic = false) /\
  BIP39.seedFromMnemonic mnemonic
  = (if BIP39.validateMnemonic mnemonic
     then Ok (pbkdf2WithHmacSHA512 (normalizeMnemonic mnemonic)
                (toByteArray "mnemonic") 2048 512)
     else Throw InvalidMnemonicException) /\
  size (pbkdf2WithHmacSHA512 (normalizeMnemonic mnemonic)
          (toByteArray "mnemonic") 2048 512) = 64.
Proof.
  split; [|split].
  - rewrite seedFromMnemonic_eq.
    destruct (BIP39.validateMnemonic mnemonic); split; congruence.
  - apply seedFromMnemonic_eq.
  - rewrite pbkdf2_size by lia. reflexivity.
Qed.

Lemma seedFromMnemonic_spec_witness :
  @BIP39.seedFromMnemonic Model.text Model.jca zeroEntropyPhrase
  = Ok (@pbkdf2WithHmacSHA512 Model.jca zeroEntropyPhrase (toByteArray "mnemonic") 2048 512)
  /\ @BIP39.seedFromMnemonic Model.text Model.jca "abandon" = Throw InvalidMnemonicException.
Proof.
  split.
  - destruct (@seedFromMnemonic_spec Model.text Model.jca model_jca_spec zeroEntropyPhrase)
      as [_ [Heq _]].
    exact Heq.
  - destruct (@seedFromMnemonic_spec Model.text Model.jca model_jca_spec "abandon")
      as [[_ Hthrow] _].
    apply Hthrow. reflexivity.
Defined.

(* ------------------------------------------------------------------ *)
(** ** BIP39: validation *)

(** *** Characters *)

Lemma lowercaseChar_space (c : ascii) :
  Ascii.eqb (lowercaseChar c) " " = Ascii.eqb c " ".
Proof. destruct c as [[] [] [] [] [] [] [] []]; reflexivity. Qed.

Lemma lowercaseChar_idempotent (c : ascii) :
  lowercaseChar (lowercaseChar c) = lowercaseChar c.
Proof. destruct c as [[] [] [] [] [] [] [] []]; reflexivity. Qed.

Lemma isLower_facts (c : ascii) :
  isLower c = true ->
  lowercaseChar c = c /\ isWhitespace c = false /\ isRegexSpace c = false /\
  Ascii.eqb c " " = false /\ N.ltb (N_of_ascii c) 128 = true.
Proof.
  destruct c as [[] [] [] [] [] [] [] []]; intros Hc;
    solve [discriminate Hc | repeat split; reflexivity].
Qed.

(** *** Text functions on words and on phrases of words *)

Lemma append_nil_r (s : string) : (s ++ "")%string = s.
Proof. induction s as [|c s IH]; cbn; [reflexivity|now rewrite IH]. Qed.

Lemma append_assoc (a b c : string) : (a ++ (b ++ c))%string = ((a ++ b) ++ c)%string.
Proof. induction a as [|x a IH]; cbn; [reflexivity|now rewrite IH]. Qed.

Lemma lowercase_idempotent (s : string) : lowercase (lowercase s) = lowercase s.
Proof.
  induction s as [|c s IH]; [reflexivity|].
  cbn [lowercase]. now rewrite lowercaseChar_idempotent, IH.
Qed.

Lemma lowercase_app (a b : string) :
  lowercase (a ++ b) = (lowercase a ++ lowercase b)%string.
Proof. induction a as [|c a IH]; cbn; [reflexivity|now rewrite IH]. Qed.

Lemma lowercase_allLower (w : string) : allLower w = true -> lowercase w = w.
Proof.
  induction w as [|c w IH]; [reflexivity|]. cbn [allLower lowercase].
  intros Hw. apply andb_prop in Hw as [Hc Hw].
  destruct (isLower_facts c Hc) as [-> _]. now rewrite IH.
Qed.

(** Splitting commutes with lower-casing. *)
Lemma split_lowercase (s : string) :
  split " " (lowercase s) = map lowercase (split " " s).
Proof.
  induction s as [|c s IH]; [reflexivity|].
  cbn [lowercase split]. rewrite lowercaseChar_space, IH.
  destruct (Ascii.eqb c " ") eqn:Hc.
  - cbn [map lowercase]. reflexivity.
  - destruct (split " " s) as [|w ws]; reflexivity.
Qed.

Lemma split_nonempty (sep : ascii) (s : string) : split sep s <> [].
Proof.
  induction s as [|c s IH]; cbn [split]; [discriminate|].
  destruct (Ascii.eqb c sep); [discriminate|].
  destruct (split sep s); discriminate.
Qed.

Lemma joinToString_cons (sep w : string) (ws : list string) :
  ws <> [] ->
  joinToString sep (w :: ws) = (w ++ sep ++ joinToString sep ws)%string.
Proof. destruct ws; [congruence|reflexivity]. Qed.

Lemma isWord_allLower (w : string) : isWord w = true -> allLower w = true.
Proof. destruct w; [discriminate|auto]. Qed.

Lemma isPhrase_inv (w : string) (ws : list string) :
  isPhrase (w :: ws) -> isWord w = true /\ (ws = [] \/ isPhrase ws).
Proof.
  intros [_ Hall]. inversion Hall as [|? ? Hw Hws]; subst. split; [assumption|].
  destruct ws as [|w' ws]; [now left|right]. split; [discriminate|assumption].
Qed.

(** The join of a phrase starts with a letter. *)
Lemma joinToString_head (ws : list string) :
  isPhrase ws ->
  exists c r, joinToString " " ws = String c r /\ isLower c = true.
Proof.
  destruct ws as [|w ws]; intros Hp; [now destruct Hp|].
  apply isPhrase_inv in Hp as [Hw _].
  destruct w as [|c w]; [discriminate|]. cbn [isWord allLower] in Hw.
  apply andb_prop in Hw as [Hc _].
  destruct ws; cbn; eauto.
Qed.

Lemma isAscii_app (a b : string) :
  isAscii (a ++ b) = isAscii a && isAscii b.
Proof. induction a as [|c a IH]; cbn; [reflexivity|]. unfold isAscii in IH. cbn in IH. now rewrite IH, andb_assoc. Qed.

Lemma isAscii_allLower (w : string) : allLower w = true -> isAscii w = true.
Proof.
  induction w as [|c w IH]; [reflexivity|]. cbn [allLower]. intros Hw.
  apply andb_prop in Hw as [Hc Hw]. unfold isAscii in *. cbn.
  destruct (isLower_facts c Hc) as (_ & _ & _ & _ & ->). now apply IH.
Qed.

Lemma isAscii_join (ws : list string) : isPhrase ws -> isAscii (joinToString " " ws) = true.
Proof.
  induction ws as [|w ws IH]; intros Hp; [reflexivity|].
  apply isPhrase_inv in Hp as [Hw [-> | Hws]].
  - apply isAscii_allLower, isWord_allLower, Hw.
  - rewrite joinToString_cons by apply Hws. rewrite !isAscii_app, IH by assumption.
    rewrite isAscii_allLower by now apply isWord_allLower. reflexivity.
Qed.

Lemma lowercase_join (ws : list string) :
  isPhrase ws -> lowercase (joinToString " " ws) = joinToString " " ws.
Proof.
  induction ws as [|w ws IH]; intros Hp; [reflexivity|].
  apply isPhrase_inv in Hp as [Hw [-> | Hws]].
  - apply lowercase_allLower, isWord_allLower, Hw.
  - rewrite joinToString_cons by apply Hws. rewrite !lowercase_app, IH by assumption.
    rewrite lowercase_allLower by now apply isWord_allLower. reflexivity.
Qed.

Lemma trimEnd_app (a b : string) :
  b <> EmptyString -> trimEnd b = b -> trimEnd (a ++ b) = (a ++ b)%string.
Proof.
  intros Hne Hb. induction a as [|c a IH]; [exact Hb|].
  cbn [append trimEnd]. rewrite IH.
  destruct (a ++ b)%string eqn:Hab; [|reflexivity].
  destruct a; cbn in Hab; [congruence|discriminate].
Qed.

Lemma trimEnd_word (w : string) : allLower w = true -> trimEnd w = w.
Proof.
  induction w as [|c w IH]; [reflexivity|]. cbn [allLower trimEnd]. intros Hw.
  apply andb_prop in Hw as [Hc Hw]. rewrite IH by assumption.
  destruct (isLower_facts c Hc) as (_ & -> & _). now destruct w.
Qed.

Lemma trim_join (ws : list string) :
  isPhrase ws -> trim (joinToString " " ws) = joinToString " " ws.
Proof.
  intros Hp. unfold trim.
  destruct (joinToString_head ws Hp) as (c & r & Hj & Hc).
  assert (Hstart : trimStart (joinToString " " ws) = joinToString " " ws).
  { rewrite Hj. cbn [trimStart]. now destruct (isLower_facts c Hc) as (_ & -> & _). }
  rewrite Hstart. clear c r Hj Hc Hstart.
  induction ws as [|w ws IH]; [reflexivity|].
  apply isPhrase_inv in Hp as [Hw [-> | Hws]].
  - apply trimEnd_word, isWord_allLower, Hw.
  - rewrite joinToString_cons by apply Hws.
    destruct (joinToString_head ws Hws) as (c & r & Hj & _).
    apply trimEnd_app; [cbn; discriminate|].
    apply trimEnd_app; [rewrite Hj; discriminate|now apply IH].
Qed.

Lemma replaceRuns_word (w r : string) (inRun : bool) :
  allLower w = true -> w <> EmptyString ->
  replaceRuns inRun (w ++ r) = (w ++ replaceRuns false r)%string.
Proof.
  revert inRun. induction w as [|c w IH]; intros inRun Hw Hne; [congruence|].
  cbn [allLower] in Hw. apply andb_prop in Hw as [Hc Hw].
  cbn [append replaceRuns]. destruct (isLower_facts c Hc) as (_ & _ & -> & _).
  f_equal. destruct w as [|c' w]; [reflexivity|].
  apply IH; [assumption|discriminate].
Qed.

Lemma replaceRuns_join (ws : list string) (inRun : bool) :
  isPhrase ws -> replaceRuns inRun (joinToString " " ws) = joinToString " " ws.
Proof.
  revert inRun. induction ws as [|w ws IH]; intros inRun Hp; [now destruct Hp|].
  apply isPhrase_inv in Hp as [Hw [-> | Hws]].
  - cbn [joinToString]. rewrite <- (append_nil_r w) at 1.
    rewrite replaceRuns_word; [apply append_nil_r|now apply isWord_allLower|].
    destruct w; discriminate.
  - rewrite joinToString_cons by apply Hws.
    rewrite replaceRuns_word; [|now apply isWord_allLower|destruct w; discriminate].
    cbn [append replaceRuns]. change (isRegexSpace " ") with true. cbn iota.
    now rewrite IH.
Qed.

Lemma split_word (w r : string) :
  allLower w = true ->
  split " " (w ++ String " " r) = w :: split " " r.
Proof.
  induction w as [|c w IH]; intros Hw; [reflexivity|].
  cbn [allLower] in Hw. apply andb_prop in Hw as [Hc Hw].
  cbn [append split]. destruct (isLower_facts c Hc) as (_ & _ & _ & -> & _).
  now rewrite IH.
Qed.

Lemma split_single (w : string) : allLower w = true -> split " " w = [w].
Proof.
  induction w as [|c w IH]; intros Hw; [reflexivity|].
  cbn [allLower] in Hw. apply andb_prop in Hw as [Hc Hw].
  cbn [split]. destruct (isLower_facts c Hc) as (_ & _ & _ & -> & _).
  now rewrite IH.
Qed.

Lemma split_join (ws : list string) :
  isPhrase ws -> split " " (joinToString " " ws) = ws.
Proof.
  induction ws as [|w ws IH]; intros Hp; [now destruct Hp|].
  apply isPhrase_inv in Hp as [Hw [-> | Hws]].
  - apply split_single, isWord_allLower, Hw.
  - rewrite joinToString_cons by apply Hws.
    change (" " ++ joinToString " " ws)%string with (String " " (joinToString " " ws)).
    rewrite split_word by now apply isWord_allLower. now rewrite IH.
Qed.

(** A phrase of words is its own normal form. *)
Lemma normalizeMnemonic_join `{JavaText} `{!JavaTextSpec} (ws : list string) :
  isPhrase ws -> normalizeMnemonic (joinToString " " ws) = joinToString " " ws.
Proof.
  intros Hp. unfold normalizeMnemonic.
  rewrite normalizeNFKD_ascii by now apply isAscii_join.
  now rewrite trim_join, replaceRuns_join, lowercase_join.
Qed.

(** *** What validation checks *)

Lemma words_are_words : Forall (fun w => isWord w = true) BIP39WordList.words.
Proof. apply Forall_forall, forallb_forall. vm_compute. reflexivity. Qed.

Lemma isValidWord_listed (w : string) :
  In w BIP39WordList.words -> BIP39WordList.isValidWord w = true.
Proof.
  intros Hin. unfold BIP39WordList.isValidWord. apply existsb_exists.
  exists w. split; [assumption|].
  pose proof (proj1 (Forall_forall _ _) words_are_words w Hin) as Hw.
  rewrite lowercase_allLower by now apply isWord_allLower.
  apply String.eqb_refl.
Qed.

(** The words of a phrase that validates are words of the list. *)
Lemma validateMnemonic_listed `{JavaText} (phrase : string) :
  BIP39.validateMnemonic phrase = true ->
  (size (split " " (normalizeMnemonic phrase)) = 12
   \/ size (split " " (normalizeMnemonic phrase)) = 24) /\
  Forall (fun w => In w BIP39WordList.words) (split " " (normalizeMnemonic phrase)).
Proof.
  unfold BIP39.validateMnemonic. cbv zeta.
  set (ws := split " " (normalizeMnemonic phrase)).
  intros Hv. split.
  - destruct (Z.eqb_spec (size ws) 12); [now left|].
    destruct (Z.eqb_spec (size ws) 24); [now right|discriminate Hv].
  - destruct (negb (size ws =? 12) && negb (size ws =? 24)); [discriminate|].
    apply Forall_forall. intros x Hx.
    pose proof (proj1 (forallb_forall _ _) Hv x Hx) as Hvalid.
    unfold BIP39WordList.isValidWord in Hvalid.
    apply existsb_exists in Hvalid as (y & Hy & Heq).
    apply String.eqb_eq in Heq.
    subst ws. unfold normalizeMnemonic in Hx. rewrite split_lowercase in Hx.
    apply in_map_iff in Hx as (z & <- & _).
    rewrite lowercase_idempotent in Heq. now rewrite Heq.
Qed.

Lemma replaceNth_length {A : Type} (i : nat) (x : A) (l : list A) :
  List.length (replaceNth i x l) = List.length l.
Proof.
  revert i. induction l as [|h t IH]; intros [|i]; cbn; try reflexivity.
  now rewrite IH.
Qed.

Lemma replaceNth_Forall {A : Type} (P : A -> Prop) (i : nat) (x : A) (l : list A) :
  P x -> Forall P l -> Forall P (replaceNth i x l).
Proof.
  intros Hx. revert i. induction l as [|h t IH]; intros [|i] Hl; cbn;
    try assumption; inversion Hl; subst; constructor; auto.
Qed.

(** C3 (amended). Validation looks at the number of words and at their
    membership in the list, and at nothing else: putting any word of the
    list in the place of any word of a phrase that validates gives a phrase
    that validates again; a phrase whose number of words is neither 12 nor
    24 gets [false], and no input makes [validateMnemonic] throw. *)
Theorem validateMnemonic_checks_words_only `{JavaText} `{!JavaTextSpec}
    (phrase w : string) (i : nat) :
  BIP39.validateMnemonic phrase = true ->
  In w BIP39WordList.words ->
  BIP39.validateMnemonic (substituteWord phrase i w) = true /\
  (forall malformed,
     size (split " " (normalizeMnemonic malformed)) <> 12 ->
     size (split " " (normalizeMnemonic malformed)) <> 24 ->
     BIP39.validateMnemonic malformed = false).
Proof.
  intros Hv Hw. split.
  - apply validateMnemonic_listed in Hv as [Hsize Hlisted].
    unfold substituteWord.
    set (ws := split " " (normalizeMnemonic phrase)) in *.
    set (ws' := replaceNth i w ws).
    assert (Hlisted' : Forall (fun x => In x BIP39WordList.words) ws')
      by now apply replaceNth_Forall.
    assert (Hsize' : size ws' = size ws)
      by (unfold size; subst ws'; now rewrite replaceNth_length).
    assert (Hp : isPhrase ws').
    { split.
      - intros Hnil. rewrite Hnil in Hsize'. cbn in Hsize'. lia.
      - eapply Forall_impl; [|exact Hlisted']. intros x Hx.
        exact (proj1 (Forall_forall _ _) words_are_words x Hx). }
    unfold BIP39.validateMnemonic. cbv zeta.
    rewrite normalizeMnemonic_join, split_join by assumption.
    rewrite Hsize'.
    replace (negb (size ws =? 12) && negb (size ws =? 24)) with false
      by (destruct Hsize as [-> | ->]; reflexivity).
    apply forallb_forall. intros x Hx. apply isValidWord_listed.
    exact (proj1 (Forall_forall _ _) Hlisted' x Hx).
  - intros malformed H12 H24. unfold BIP39.validateMnemonic. cbv zeta.
    destruct (Z.eqb_spec (size (split " " (normalizeMnemonic malformed))) 12); [contradiction|].
    destruct (Z.eqb_spec (size (split " " (normalizeMnemonic malformed))) 24); [contradiction|].
    reflexivity.
Qed.

Lemma validateMnemonic_checks_words_only_witness :
  @BIP39.validateMnemonic Model.text
    (@substituteWord Model.text zeroEntropyPhrase 11 "ability") = true.
Proof.
  apply (@validateMnemonic_checks_words_only Model.text model_text_spec
           zeroEntropyPhrase "ability" 11).
  - reflexivity.
  - right. left. reflexivity.
Defined.

(** C3, as stated, fails: the BIP39 test phrase for all-zero entropy
    validates, and so does every one of the 12 * 202 phrases that differ
    from it in one word; none is rejected, where the claim asks for fifteen
    in sixteen (the checksum has four bits). *)
Lemma validateMnemonic_ignores_checksum :
  @BIP39.validateMnemonic Model.text zeroEntropyPhrase = true /\
  List.length (@substitutions Model.text zeroEntropyPhrase) = 2424%nat /\
  @rejected Model.text zeroEntropyPhrase = [] /\
  (16 * List.length (@rejected Model.text zeroEntropyPhrase)
   < 15 * List.length (@substitutions Model.text zeroEntropyPhrase))%nat.
Proof.
  assert (Hs : List.length (@substitutions Model.text zeroEntropyPhrase) = 2424%nat)
    by (vm_compute; reflexivity).
  assert (Hr : @rejected Model.text zeroEntropyPhrase = [])
    by (vm_compute; reflexivity).
  split; [vm_compute; reflexivity|]. split; [exact Hs|]. split; [exact Hr|].
  rewrite Hr, Hs. cbn [List.length]. lia.
Qed.

(* ------------------------------------------------------------------ *)
(** ** KeyDerivation *)

Section KeyDerivationProofs.
Context `{JavaText} `{JCA} `{LazySodium} `{!JCASpec} `{!LazySodiumSpec}.

Lemma nonempty_of_size (l : bytes) (n : Z) : size l = n -> 0 < n -> l <> [].
Proof. intros Hl Hn ->. cbn in Hl. lia. Qed.

(** A 32-byte key is the first block of the chain. *)
Lemma deriveKey_32 (ikm salt info : bytes) :
  salt <> [] ->
  HKDF.deriveKey ikm salt info 32
  = Ok (hmacSHA256 (hmacSHA256 salt ikm) (info ++ [toByte 1])).
Proof.
  intros Hsalt. unfold HKDF.deriveKey, HKDF.extract.
  destruct salt as [|s salt]; [congruence|]. cbn [SecretKeySpec bind].
  set (prk := hmacSHA256 (s :: salt) ikm).
  assert (Hprk : prk <> [])
    by (apply (nonempty_of_size prk 32); [apply hmacSHA256_size|lia]).
  rewrite expand_T by (try assumption; unfold HKDF.HASH_LEN;
                       change (2 ^ 31) with 2147483648; lia).
  change (Z.to_nat ((32 + 31) / 32)) with 1%nat.
  cbn [RFC5869.T app]. rewrite app_nil_r. f_equal.
  apply firstn_all2. pose proof (hmacSHA256_size prk (info ++ [toByte 1])) as Hs.
  unfold size in Hs. lia.
Qed.

Lemma generateEncryptionKeyPair_eq (seed : bytes) :
  size seed = 32 ->
  KeyDerivation.generateEncryptionKeyPair seed
  = Ok (snd (cryptoScalarmultBase (zeros 32) seed), seed).
Proof.
  intros Hseed. unfold KeyDerivation.generateEncryptionKeyPair.
  unfold Box.PUBLICKEYBYTES, Box.SECRETKEYBYTES.
  rewrite !ByteArray_ok by lia. cbn [bind].
  pose proof (arraycopy_block seed [] 32 0 Hseed ltac:(lia)) as Hcopy.
  cbn [app size List.length Z.of_nat] in Hcopy. change (32 + 0) with 32 in Hcopy.
  rewrite Hcopy, (zeros_nonpos 0), app_nil_r by lia. cbn [bind].
  now destruct (cryptoScalarmultBase (zeros 32) seed).
Qed.

Lemma generateSigningKeyPair_eq (seed : bytes) :
  KeyDerivation.generateSigningKeyPair seed
  = Ok (snd (cryptoSignSeedKeypair (zeros 32) (zeros 64) seed)).
Proof.
  unfold KeyDerivation.generateSigningKeyPair.
  unfold Sign.PUBLICKEYBYTES, Sign.SECRETKEYBYTES.
  rewrite !ByteArray_ok by lia. cbn [bind].
  now destruct (cryptoSignSeedKeypair (zeros 32) (zeros 64) seed).
Qed.

(** Validation and the seed depend on the phrase through its normal
    form only. *)
Lemma validateMnemonic_normal (a b : string) :
  normalizeMnemonic a = normalizeMnemonic b ->
  BIP39.validateMnemonic a = BIP39.validateMnemonic b.
Proof. intros Hab. unfold BIP39.validateMnemonic. now rewrite Hab. Qed.

Lemma seedFromMnemonic_normal (a b : string) :
  normalizeMnemonic a = normalizeMnemonic b ->
  BIP39.seedFromMnemonic a = BIP39.seedFromMnemonic b.
Proof.
  intros Hab. unfold BIP39.seedFromMnemonic.
  now rewrite (validateMnemonic_normal a b Hab), Hab.
Qed.
End KeyDerivationProofs.

(** C1. The derivation is a function of the phrase: for a phrase that
    validates there are one 64-byte seed and one key set (32-byte X25519
    public and private keys, 32-byte Ed25519 public key and 64-byte private
    key, 32-byte contacts key) that every invocation of [seedFromMnemonic]
    and of [deriveAllKeys] on that phrase, or on any spelling of it with the
    same normal form, returns. *)
Theorem deriveAllKeys_deterministic
    `{JavaText} `{JCA} `{LazySodium} `{!JCASpec} `{!LazySodiumSpec}
    (mnemonic : string) :
  BIP39.validateMnemonic mnemonic = true ->
  exists seed keys,
    size seed = 64 /\
    size (KeyDerivation.encPublicKey keys) = 32 /\
    size (KeyDerivation.encPrivateKey keys) = 32 /\
    size (KeyDerivation.signPublicKey keys) = 32 /\
    size (KeyDerivation.signPrivateKey keys) = 64 /\
    size (KeyDerivation.contactsKey keys) = 32 /\
    forall again,
      normalizeMnemonic again = normalizeMnemonic mnemonic ->
      BIP39.seedFromMnemonic again = Ok seed /\
      KeyDerivation.deriveAllKeys again = Ok keys.
Proof.
  intros Hvalid.
  pose proof (seedFromMnemonic_eq mnemonic) as Hseed.
  assert (Hsize : size (pbkdf2WithHmacSHA512 (normalizeMnemonic mnemonic)
                          (toByteArray "mnemonic") 2048 512) = 64)
    by (rewrite pbkdf2_size by lia; reflexivity).
  rewrite Hvalid in Hseed.
  set (seed := pbkdf2WithHmacSHA512 (normalizeMnemonic mnemonic)
                 (toByteArray "mnemonic") 2048 512) in *.
  set (salt := toByteArray Constants.HKDF_SALT).
  set (sub := fun info => hmacSHA256 (hmacSHA256 salt seed) (toByteArray info ++ [toByte 1])).
  exists seed.
  exists {| KeyDerivation.encPublicKey :=
              snd (cryptoScalarmultBase (zeros 32) (sub Constants.ENCRYPTION_DOMAIN));
            KeyDerivation.encPrivateKey := sub Constants.ENCRYPTION_DOMAIN;
            KeyDerivation.signPublicKey :=
              fst (snd (cryptoSignSeedKeypair (zeros 32) (zeros 64)
                          (sub Constants.SIGNING_DOMAIN)));
            KeyDerivation.signPrivateKey :=
              snd (snd (cryptoSignSeedKeypair (zeros 32) (zeros 64)
                          (sub Constants.SIGNING_DOMAIN)));
            KeyDerivation.contactsKey := sub Constants.CONTACTS_DOMAIN |}.
  cbn [KeyDerivation.encPublicKey KeyDerivation.encPrivateKey
       KeyDerivation.signPublicKey KeyDerivation.signPrivateKey
       KeyDerivation.contactsKey].
  assert (Hsub : forall info, size (sub info) = 32)
    by (intros info; apply hmacSHA256_size).
  destruct (cryptoSignSeedKeypair_size (zeros 32) (zeros 64)
              (sub Constants.SIGNING_DOMAIN)) as [Hpk Hsk].
  rewrite size_zeros in Hpk, Hsk by lia.
  repeat split; try assumption; try apply Hsub.
  - rewrite cryptoScalarmultBase_size. apply size_zeros. lia.
  - now rewrite (seedFromMnemonic_normal again mnemonic).
  - unfold KeyDerivation.deriveAllKeys.
    rewrite (seedFromMnemonic_normal again mnemonic), Hseed by assumption.
    cbn [bind]. fold salt.
    rewrite !deriveKey_32 by (subst salt; discriminate).
    cbn [bind]. fold (sub Constants.ENCRYPTION_DOMAIN).
    fold (sub Constants.SIGNING_DOMAIN). fold (sub Constants.CONTACTS_DOMAIN).
    rewrite generateEncryptionKeyPair_eq by apply Hsub. cbn [bind].
    rewrite generateSigningKeyPair_eq. cbn [bind fst snd]. reflexivity.
Qed.

Lemma deriveAllKeys_deterministic_witness :
  exists seed keys,
    size seed = 64 /\
    size (KeyDerivation.encPublicKey keys) = 32 /\
    size (KeyDerivation.encPrivateKey keys) = 32 /\
    size (KeyDerivation.signPublicKey keys) = 32 /\
    size (KeyDerivation.signPrivateKey keys) = 64 /\
    size (KeyDerivation.contactsKey keys) = 32 /\
    forall again,
      @normalizeMnemonic Model.text again = @normalizeMnemonic Model.text zeroEntropyPhrase ->
      @BIP39.seedFromMnemonic Model.text Model.jca again = Ok seed /\
      @KeyDerivation.deriveAllKeys Model.text Model.jca Model.sodium again = Ok keys.
Proof.
  apply (@deriveAllKeys_deterministic Model.text Model.jca Model.sodium
           model_jca_spec model_sodium_spec zeroEntropyPhrase).
  reflexivity.
Defined.

(* ------------------------------------------------------------------ *)
(** ** Canonical signing *)

(** *** Base64 is injective and has no line feed *)

Lemma u_range (b : Byte.byte) : 0 <= Base64.u b < 256.
Proof. unfold Base64.u. pose proof (Byte.to_N_bounded b). lia. Qed.

Lemma u_inj (a b : Byte.byte) : Base64.u a = Base64.u b -> a = b.
Proof.
  unfold Base64.u. intros Hab. apply N2Z.inj in Hab.
  pose proof (Byte.of_to_N a) as Ha. rewrite Hab, Byte.of_to_N in Ha. congruence.
Qed.

Lemma base64Value_digit (i : Z) : 0 <= i < 64 -> base64Value (Base64.digit i) = i.
Proof.
  intros Hi.
  assert (Hall : forallb (fun k => base64Value (Base64.digit (Z.of_nat k)) =? Z.of_nat k)
                   (seq 0 64) = true) by (vm_compute; reflexivity).
  pose proof (proj1 (forallb_forall _ _) Hall (Z.to_nat i)) as Hk.
  cbv beta in Hk. rewrite Z2Nat.id in Hk by lia. apply Z.eqb_eq, Hk, in_seq. lia.
Qed.

Lemma digit_inj (i j : Z) :
  0 <= i < 64 -> 0 <= j < 64 -> Base64.digit i = Base64.digit j -> i = j.
Proof.
  intros Hi Hj Heq. rewrite <- (base64Value_digit i Hi), <- (base64Value_digit j Hj).
  now rewrite Heq.
Qed.

Lemma digit_not_pad (i : Z) : 0 <= i < 64 -> Base64.digit i <> "="%char.
Proof.
  intros Hi Heq. pose proof (base64Value_digit i Hi) as Hv.
  rewrite Heq in Hv. vm_compute in Hv. lia.
Qed.

Lemma digit_oneLine (i : Z) :
  0 <= i < 64 -> Ascii.eqb (Base64.digit i) (ascii_of_N 10) = false.
Proof.
  intros Hi. apply Ascii.eqb_neq. intros Heq.
  pose proof (base64Value_digit i Hi) as Hv.
  rewrite Heq in Hv. vm_compute in Hv. lia.
Qed.

(** The four six-bit values of three bytes determine the bytes. *)
Lemma sextets_inj (a b c a' b' c' : Z) :
  0 <= a < 256 -> 0 <= b < 256 -> 0 <= c < 256 ->
  0 <= a' < 256 -> 0 <= b' < 256 -> 0 <= c' < 256 ->
  a / 4 = a' / 4 ->
  a mod 4 * 16 + b / 16 = a' mod 4 * 16 + b' / 16 ->
  b mod 16 * 4 + c / 64 = b' mod 16 * 4 + c' / 64 ->
  c mod 64 = c' mod 64 ->
  a = a' /\ b = b' /\ c = c'.
Proof.
  intros Ha Hb Hc Ha' Hb' Hc' H1 H2 H3 H4.
  pose proof (Z.div_mod a 4 ltac:(lia)). pose proof (Z.div_mod a' 4 ltac:(lia)).
  pose proof (Z.div_mod b 16 ltac:(lia)). pose proof (Z.div_mod b' 16 ltac:(lia)).
  pose proof (Z.div_mod c 64 ltac:(lia)). pose proof (Z.div_mod c' 64 ltac:(lia)).
  pose proof (Z.mod_pos_bound a 4 ltac:(lia)). pose proof (Z.mod_pos_bound a' 4 ltac:(lia)).
  pose proof (Z.mod_pos_bound b 16 ltac:(lia)). pose proof (Z.mod_pos_bound b' 16 ltac:(lia)).
  pose proof (Z.mod_pos_bound c 64 ltac:(lia)). pose proof (Z.mod_pos_bound c' 64 ltac:(lia)).
  lia.
Qed.

Ltac sextet_range :=
  match goal with
  | |- 0 <= _ < 64 =>
      repeat match goal with
             | |- context [Base64.u ?x] =>
                 let H := fresh in
                 pose proof (u_range x) as H; generalize dependent (Base64.u x); intros
             end;
      repeat match goal with
             | |- context [?x / ?d] =>
                 let H := fresh in
                 pose proof (Z.div_mod x d ltac:(lia)) as H;
                 let H' := fresh in
                 pose proof (Z.mod_pos_bound x d ltac:(lia)) as H';
                 generalize dependent (x / d); intros
             | |- context [?x mod ?d] =>
                 let H' := fresh in
                 pose proof (Z.mod_pos_bound x d ltac:(lia)) as H';
                 generalize dependent (x mod d); intros
             end;
      lia
  end.

Lemma encodeToString_oneLine (input : bytes) :
  oneLine (Base64.encodeToString input) = true.
Proof.
  assert (Hgen : forall n input, (List.length input <= n)%nat ->
                   oneLine (Base64.encodeToString input) = true).
  { clear input. induction n as [|n IH]; intros input Hlen.
    - destruct input; [reflexivity|cbn in Hlen; lia].
    - destruct input as [|a [|b [|c rest]]]; [reflexivity| | |];
        cbn [Base64.encodeToString oneLine];
        rewrite ?digit_oneLine by sextet_range; cbn [negb andb];
        [reflexivity|reflexivity|].
      apply IH. cbn [List.length] in Hlen. lia. }
  now apply (Hgen (List.length input)).
Qed.

Lemma string4_inj (a b c d a' b' c' d' : ascii) (r r' : string) :
  String a (String b (String c (String d r)))
  = String a' (String b' (String c' (String d' r'))) ->
  a = a' /\ b = b' /\ c = c' /\ d = d' /\ r = r'.
Proof. intros Heq. inversion Heq. repeat split; reflexivity. Qed.

Lemma encodeToString_inj (x y : bytes) :
  Base64.encodeToString x = Base64.encodeToString y -> x = y.
Proof.
  assert (Hgen : forall n x y, (List.length x <= n)%nat ->
                   Base64.encodeToString x = Base64.encodeToString y -> x = y).
  { clear x y. induction n as [|n IH]; intros x y Hlen Heq.
    - destruct x; [|cbn in Hlen; lia].
      destruct y as [|a [|b [|c rest]]]; [reflexivity|discriminate..].
    - destruct x as [|a [|b [|c rest]]]; destruct y as [|a' [|b' [|c' rest']]];
        cbn [Base64.encodeToString] in Heq; try reflexivity; try discriminate Heq;
        apply string4_inj in Heq as (H1 & H2 & H3 & H4 & Hrest).
      + (* one byte *)
        apply digit_inj in H1; [|sextet_range..]. apply digit_inj in H2; [|sextet_range..].
        pose proof (u_range a). pose proof (u_range a').
        f_equal. apply u_inj.
        pose proof (Z.div_mod (Base64.u a) 4 ltac:(lia)).
        pose proof (Z.div_mod (Base64.u a') 4 ltac:(lia)). lia.
      + exfalso. symmetry in H3. revert H3. apply digit_not_pad. sextet_range.
      + exfalso. symmetry in H3. revert H3. apply digit_not_pad. sextet_range.
      + exfalso. revert H3. apply digit_not_pad. sextet_range.
      + (* two bytes *)
        apply digit_inj in H1; [|sextet_range..]. apply digit_inj in H2; [|sextet_range..].
        apply digit_inj in H3; [|sextet_range..].
        pose proof (u_range a). pose proof (u_range a').
        pose proof (u_range b). pose proof (u_range b').
        destruct (sextets_inj (Base64.u a) (Base64.u b) 0 (Base64.u a') (Base64.u b') 0)
          as (Ha & Hb & _); try lia.
        apply u_inj in Ha, Hb. now subst.
      + exfalso. symmetry in H4. revert H4. apply digit_not_pad. sextet_range.
      + exfalso. revert H3. apply digit_not_pad. sextet_range.
      + exfalso. revert H4. apply digit_not_pad. sextet_range.
      + (* three bytes and more *)
        apply digit_inj in H1; [|sextet_range..]. apply digit_inj in H2; [|sextet_range..].
        apply digit_inj in H3; [|sextet_range..]. apply digit_inj in H4; [|sextet_range..].
        pose proof (u_range a). pose proof (u_range a').
        pose proof (u_range b). pose proof (u_range b').
        pose proof (u_range c). pose proof (u_range c').
        destruct (sextets_inj (Base64.u a) (Base64.u b) (Base64.u c)
                    (Base64.u a') (Base64.u b') (Base64.u c'))
          as (Ha & Hb & Hc); try assumption.
        apply u_inj in Ha, Hb, Hc. subst.
        do 3 f_equal. apply IH; [cbn [List.length] in Hlen; lia|assumption]. }
  now apply (Hgen (List.length x)).
Qed.

(** *** The decimal form of a [Long] is injective and has no line feed *)

Lemma to_int_nonnil (z : Z) :
  Z.to_int z <> Decimal.Pos Decimal.Nil /\ Z.to_int z <> Decimal.Neg Decimal.Nil.
Proof.
  destruct z as [|p|p]; cbn; split; intros [= Hnil];
    exact (DecimalPos.Unsigned.to_uint_nonnil p Hnil).
Qed.

Lemma longToString_inj (a b : Z) : longToString a = longToString b -> a = b.
Proof.
  unfold longToString. intros Heq.
  apply (f_equal NilZero.int_of_string) in Heq.
  rewrite !NilZero.isi in Heq by apply to_int_nonnil.
  injection Heq as Heq. apply (f_equal Z.of_int) in Heq.
  now rewrite !DecimalZ.of_to in Heq.
Qed.

Lemma oneLine_uint (d : Decimal.uint) : oneLine (NilEmpty.string_of_uint d) = true.
Proof. induction d; cbn; auto. Qed.

Lemma longToString_oneLine (z : Z) : oneLine (longToString z) = true.
Proof.
  unfold longToString. destruct (Z.to_int z) as [d|d]; cbn [NilZero.string_of_int].
  - destruct d; try reflexivity; apply oneLine_uint.
  - cbn [oneLine]. destruct d; try reflexivity; apply oneLine_uint.
Qed.

(** *** The canonical string determines the fields *)

(** Two lines that end at a line feed and are followed by equal text are
    equal, and so is what follows them. *)
Lemma line_inj (a b r1 r2 : string) :
  oneLine a = true -> oneLine b = true ->
  (a ++ String (ascii_of_N 10) r1)%string = (b ++ String (ascii_of_N 10) r2)%string ->
  a = b /\ r1 = r2.
Proof.
  revert b. induction a as [|c a IH]; intros [|c' b] Ha Hb Heq; cbn [append] in Heq.
  - injection Heq as ->. now split.
  - injection Heq as <- _. cbn [oneLine] in Hb. rewrite Ascii.eqb_refl in Hb. discriminate.
  - injection Heq as -> _. cbn [oneLine] in Ha. rewrite Ascii.eqb_refl in Ha. discriminate.
  - injection Heq as -> Heq. cbn [oneLine] in Ha, Hb.
    apply andb_prop in Ha as [_ Ha]. apply andb_prop in Hb as [_ Hb].
    destruct (IH b Ha Hb Heq) as [-> ->]. now split.
Qed.

Lemma canonicalOf_inj (f g : Fields) :
  oneLineFields f = true -> oneLineFields g = true ->
  canonicalOf f = canonicalOf g -> f = g.
Proof.
  destruct f as [t1 i1 f1 o1 z1 n1 c1], g as [t2 i2 f2 o2 z2 n2 c2].
  unfold oneLineFields, canonicalOf, CanonicalSigning.canonical, CanonicalSigning.LF.
  cbn [messageType messageId from toOrGroupId timestamp nonce ciphertext].
  intros Hf Hg Heq.
  apply andb_prop in Hf as [Hf Ho1]. apply andb_prop in Hf as [Hf Hf1].
  apply andb_prop in Hf as [Ht1 Hi1].
  apply andb_prop in Hg as [Hg Ho2]. apply andb_prop in Hg as [Hg Hf2].
  apply andb_prop in Hg as [Ht2 Hi2].
  cbn [append] in Heq. injection Heq as Heq.
  apply line_inj in Heq as [-> Heq]; [|assumption..].
  apply line_inj in Heq as [-> Heq]; [|assumption..].
  apply line_inj in Heq as [-> Heq]; [|assumption..].
  apply line_inj in Heq as [-> Heq]; [|assumption..].
  apply line_inj in Heq as [Hz Heq]; [|apply longToString_oneLine..].
  apply line_inj in Heq as [Hn Heq]; [|apply encodeToString_oneLine..].
  apply line_inj in Heq as [Hc _]; [|apply encodeToString_oneLine..].
  apply longToString_inj in Hz. apply encodeToString_inj in Hn, Hc. now subst.
Qed.

(** C6 (amended). [verifyMessage] verifies the signature against the
    digest of the canonical string of the claimed fields.  When the four
    text fields of both messages hold no line feed, messages that differ in
    any of the seven fields have different canonical strings; so, unless
    SHA-256 collides on these two strings or the signature of one digest
    verifies for the other, a signature made by [signMessage] over one
    message does not verify against the other. *)
Theorem verifyMessage_binds_fields `{JCA} `{LazySodium}
    (signed claimed : Fields) (privateKey publicKey signature : bytes) :
  oneLineFields signed = true -> oneLineFields claimed = true ->
  signFields signed privateKey = Ok signature ->
  (canonicalOf signed <> canonicalOf claimed -> digestOf signed <> digestOf claimed) ->
  (digestOf signed <> digestOf claimed ->
   Signatures.verify (digestOf claimed) signature publicKey = false) ->
  signed <> claimed ->
  canonicalOf signed <> canonicalOf claimed /\
  verifyFields claimed signature publicKey = false.
Proof.
  intros Hs Hc _ Hcollision Hforgery Hdiff.
  assert (Hcanon : canonicalOf signed <> canonicalOf claimed)
    by (intros Heq; apply Hdiff; now apply canonicalOf_inj).
  split; [exact Hcanon|].
  unfold verifyFields, CanonicalSigning.verifyMessage. cbv zeta.
  apply Hforgery, Hcollision, Hcanon.
Qed.

Lemma verifyMessage_binds_fields_witness :
  exists signature,
    @signFields Model.jca Model.sodium sampleFields sampleSignPrivateKey = Ok signature /\
    canonicalOf sampleFields <> canonicalOf sampleFieldsLater /\
    @verifyFields Model.jca Model.sodium sampleFieldsLater signature sampleSignPublicKey
    = false.
Proof.
  eexists. split; [vm_compute; reflexivity|].
  apply (@verifyMessage_binds_fields Model.jca Model.sodium
           sampleFields sampleFieldsLater sampleSignPrivateKey sampleSignPublicKey).
  - reflexivity.
  - reflexivity.
  - vm_compute. reflexivity.
  - intros _. vm_compute. intros Heq. discriminate Heq.
  - intros _. vm_compute. reflexivity.
  - intros Heq. apply (f_equal timestamp) in Heq. discriminate Heq.
Defined.

(** C6, as stated, fails: the canonical string does not escape line
    feeds, so two messages that differ in their type and their id have the
    same canonical string; on every platform [verifyMessage] answers the
    same for both, and on the small platform the signature made over the
    first verifies against the second. *)
Lemma verifyMessage_line_feed_ambiguity :
  shiftedLeft <> shiftedRight /\
  canonicalOf shiftedLeft = canonicalOf shiftedRight /\
  (forall (J : JCA) (S : LazySodium) (signature publicKey : bytes),
     @verifyFields J S shiftedRight signature publicKey
     = @verifyFields J S shiftedLeft signature publicKey) /\
  exists signature,
    @signFields Model.jca Model.sodium shiftedLeft sampleSignPrivateKey = Ok signature /\
    @verifyFields Model.jca Model.sodium shiftedLeft signature sampleSignPublicKey = true /\
    @verifyFields Model.jca Model.sodium shiftedRight signature sampleSignPublicKey = true.
Proof.
  split; [|split; [|split]].
  - intros Heq. apply (f_equal messageType) in Heq. discriminate Heq.
  - reflexivity.
  - reflexivity.
  - eexists. split; [vm_compute; reflexivity|]. split; vm_compute; reflexivity.
Qed.

(* ------------------------------------------------------------------ *)
(** ** The reconnect policy and the client *)

Import WsClientImpl.

Lemma shl_one (n : Z) : 0 <= n <= 30 -> shl 1 n = 2 ^ n.
Proof.
  intros Hn. unfold shl. rewrite Z.mod_small by lia.
  rewrite Z.shiftl_1_l. apply int32_small.
  pose proof (Z.pow_pos_nonneg 2 n ltac:(lia) ltac:(lia)).
  pose proof (Z.pow_lt_mono_r 2 n 31 ltac:(lia) ltac:(lia) ltac:(lia)). lia.
Qed.

(** The policy's delay while the shift does not overflow. *)
Lemma getDelayMs_backoff (p : WsReconnectPolicy.t) (n : nat) :
  WsReconnectPolicy.attemptCount p = Z.of_nat n -> (n <= 30)%nat ->
  WsReconnectPolicy.getDelayMs p
  = (backoff n,
     {| WsReconnectPolicy.attemptCount := Z.of_nat (S n);
        WsReconnectPolicy.isAuthExpired := WsReconnectPolicy.isAuthExpired p;
        WsReconnectPolicy.isNetworkAvailable := WsReconnectPolicy.isNetworkAvailable p |}).
Proof.
  intros Hp Hn. unfold WsReconnectPolicy.getDelayMs, backoff. rewrite Hp.
  rewrite shl_one by lia.
  assert (Hpow : 0 < 2 ^ Z.of_nat n <= 2 ^ 30).
  { split; [apply Z.pow_pos_nonneg; lia|apply Z.pow_le_mono_r; lia]. }
  change (2 ^ 30) with 1073741824 in Hpow.
  unfold Constants.RECONNECT_BASE_DELAY_MS, Constants.RECONNECT_MAX_DELAY_MS.
  rewrite int64_small by (change (2 ^ 63) with 9223372036854775808; lia).
  rewrite int32_small by (change (2 ^ 31) with 2147483648; lia).
  do 3 f_equal. lia.
Qed.

Lemma delays_app (c : t) (a : Action) :
  flat_map (fun a => match a with Delay ms => [ms] | _ => [] end) (actions c ++ [a])
  = delays c ++ match a with Delay ms => [ms] | _ => [] end.
Proof. unfold delays. rewrite flat_map_app. cbn [flat_map]. now rewrite app_nil_r. Qed.

Lemma connect_policy (c : t) :
  reconnectPolicy (connect c) = reconnectPolicy c /\ delays (connect c) = delays c.
Proof.
  unfold connect. destruct (isConnected (connectionState c)); [now split|].
  split; [reflexivity|]. unfold delays at 1. cbn [actions].
  rewrite delays_app. apply app_nil_r.
Qed.

Lemma resume_policy (c : t) :
  reconnectPolicy (resume c) = reconnectPolicy c /\ delays (resume c) = delays c.
Proof.
  unfold resume. destruct (suspended c) as [|ms rest]; [now split|].
  match goal with
  | |- context [connect ?x] => destruct (connect_policy x) as [Hpol Hdel]
  end.
  split; [exact Hpol|exact Hdel].
Qed.

(** A failure when no retry is due changes the connection state only. *)
Lemma onFailure_no_retry (c : t) :
  WsReconnectPolicy.shouldRetry (reconnectPolicy c) = false ->
  onFailure c
  = {| webSocket := webSocket c;
       connectionState := DISCONNECTED;
       reconnectPolicy := reconnectPolicy c;
       launched := launched c;
       suspended := suspended c;
       actions := actions c |}.
Proof.
  intros Hno. unfold onFailure, attemptReconnect. cbn [reconnectPolicy]. now rewrite Hno.
Qed.

(** A failure when a retry is due launches a coroutine, and no more. *)
Lemma onFailure_retry (c : t) :
  WsReconnectPolicy.shouldRetry (reconnectPolicy c) = true ->
  onFailure c
  = {| webSocket := webSocket c;
       connectionState := RECONNECTING;
       reconnectPolicy := reconnectPolicy c;
       launched := S (launched c);
       suspended := suspended c;
       actions := actions c |}.
Proof.
  intros Hyes. unfold onFailure, attemptReconnect. cbn [reconnectPolicy]. now rewrite Hyes.
Qed.

Lemma shouldRetry_due (p : WsReconnectPolicy.t) (n : nat) :
  WsReconnectPolicy.attemptCount p = Z.of_nat n -> (n < 5)%nat ->
  WsReconnectPolicy.isAuthExpired p = false ->
  WsReconnectPolicy.isNetworkAvailable p = true ->
  WsReconnectPolicy.shouldRetry p = true.
Proof.
  intros Hn Hlt Hauth Hnet. unfold WsReconnectPolicy.shouldRetry.
  rewrite Hauth, Hnet, Hn. cbn [negb]. unfold Constants.RECONNECT_MAX_ATTEMPTS.
  apply Z.ltb_lt. lia.
Qed.

(** The coroutine that a failure launched, when it starts, issues the
    next delay. *)
Lemma start_onFailure (c : t) (n : nat) :
  WsReconnectPolicy.attemptCount (reconnectPolicy c) = Z.of_nat n -> (n < 5)%nat ->
  WsReconnectPolicy.isAuthExpired (reconnectPolicy c) = false ->
  WsReconnectPolicy.isNetworkAvailable (reconnectPolicy c) = true ->
  start (onFailure c)
  = {| webSocket := webSocket c;
       connectionState := RECONNECTING;
       reconnectPolicy :=
         {| WsReconnectPolicy.attemptCount := Z.of_nat (S n);
            WsReconnectPolicy.isAuthExpired := false;
            WsReconnectPolicy.isNetworkAvailable := true |};
       launched := launched c;
       suspended := suspended c ++ [backoff n];
       actions := actions c ++ [Delay (backoff n)] |}.
Proof.
  intros Hn Hlt Hauth Hnet.
  rewrite (onFailure_retry c (shouldRetry_due _ n Hn Hlt Hauth Hnet)).
  unfold start. cbn [launched reconnectPolicy webSocket connectionState suspended actions].
  rewrite (getDelayMs_backoff _ n) by (try assumption; lia).
  now rewrite Hauth, Hnet.
Qed.

(** One failed attempt and the resumption that follows it. *)
Lemma round_no_retry (c : t) :
  WsReconnectPolicy.shouldRetry (reconnectPolicy c) = false ->
  reconnectPolicy (resume (onFailure c)) = reconnectPolicy c /\
  delays (resume (onFailure c)) = delays c.
Proof.
  intros Hno. destruct (resume_policy (onFailure c)) as [Hpol Hdel].
  rewrite Hpol, Hdel, (onFailure_no_retry c Hno). now split.
Qed.

Lemma round_retry (c : t) (n : nat) :
  WsReconnectPolicy.attemptCount (reconnectPolicy c) = Z.of_nat n -> (n < 5)%nat ->
  WsReconnectPolicy.isAuthExpired (reconnectPolicy c) = false ->
  WsReconnectPolicy.isNetworkAvailable (reconnectPolicy c) = true ->
  reconnectPolicy (resume (start (onFailure c)))
  = {| WsReconnectPolicy.attemptCount := Z.of_nat (S n);
       WsReconnectPolicy.isAuthExpired := false;
       WsReconnectPolicy.isNetworkAvailable := true |} /\
  delays (resume (start (onFailure c))) = delays c ++ [backoff n].
Proof.
  intros Hn Hlt Hauth Hnet. destruct (resume_policy (start (onFailure c))) as [Hpol Hdel].
  rewrite Hpol, Hdel, (start_onFailure c n Hn Hlt Hauth Hnet).
  split; [reflexivity|]. unfold delays at 1. cbn [actions]. apply delays_app.
Qed.

(** The policy and the delays after [n] consecutive failures, from a
    counter at [k]. *)
Lemma failures_from (n k : nat) (c : t) :
  WsReconnectPolicy.attemptCount (reconnectPolicy c) = Z.of_nat k -> (k <= 5)%nat ->
  WsReconnectPolicy.isAuthExpired (reconnectPolicy c) = false ->
  WsReconnectPolicy.isNetworkAvailable (reconnectPolicy c) = true ->
  reconnectPolicy (failures n c)
  = {| WsReconnectPolicy.attemptCount := Z.of_nat (Nat.min (k + n) 5);
       WsReconnectPolicy.isAuthExpired := false;
       WsReconnectPolicy.isNetworkAvailable := true |} /\
  delays (failures n c) = delays c ++ map backoff (seq k (Nat.min (k + n) 5 - k)).
Proof.
  revert k c. induction n as [|n IH]; intros k c Hk Hle Hauth Hnet.
  - cbn [failures]. rewrite Nat.add_0_r, Nat.min_l, Nat.sub_diag by assumption.
    cbn [seq map]. rewrite app_nil_r. split; [|reflexivity].
    destruct (reconnectPolicy c); cbn in *; now subst.
  - cbn [failures].
    destruct (Nat.eq_dec k 5) as [->|Hne].
    + assert (Hno : WsReconnectPolicy.shouldRetry (reconnectPolicy c) = false).
      { unfold WsReconnectPolicy.shouldRetry. rewrite Hauth, Hnet, Hk. reflexivity. }
      rewrite Hno.
      destruct (round_no_retry c Hno) as [Hpol Hdel].
      destruct (IH 5%nat (resume (onFailure c))) as [IHp IHd];
        try (rewrite Hpol; assumption); [lia|].
      rewrite IHp, IHd, Hdel.
      replace (Nat.min (5 + S n) 5) with 5%nat by lia.
      replace (Nat.min (5 + n) 5) with 5%nat by lia.
      split; reflexivity.
    + assert (Hlt : (k < 5)%nat) by lia.
      rewrite (shouldRetry_due _ k Hk Hlt Hauth Hnet).
      destruct (round_retry c k Hk Hlt Hauth Hnet) as [Hpol Hdel].
      destruct (IH (S k) (resume (start (onFailure c)))) as [IHp IHd];
        try (rewrite Hpol; reflexivity); [lia|].
      rewrite IHp, IHd, Hdel.
      replace (S k + n)%nat with (k + S n)%nat by lia.
      split; [reflexivity|].
      rewrite <- app_assoc. f_equal.
      replace (Nat.min (k + S n) 5 - k)%nat with (S (Nat.min (k + S n) 5 - S k)) by lia.
      reflexivity.
Qed.

(** C7. From a fresh or reset policy, the delays issued over [n]
    consecutive connection failures are [min(1000 * 2^k, 30000)] for
    attempt [k = 0, 1, ...] (the policy stops issuing them after
    [RECONNECT_MAX_ATTEMPTS = 5]), the counter has gone up by one for each
    delay issued, and the next transport-opened callback, which moves the
    client to [CONNECTED], puts it back to zero. *)
Theorem reconnect_backoff (c : t) (n : nat) :
  WsReconnectPolicy.attemptCount (reconnectPolicy c) = 0 ->
  WsReconnectPolicy.isAuthExpired (reconnectPolicy c) = false ->
  WsReconnectPolicy.isNetworkAvailable (reconnectPolicy c) = true ->
  delays (failures n c)
  = delays c ++ map (fun k => Z.min (1000 * 2 ^ Z.of_nat k) 30000) (seq 0 (Nat.min n 5)) /\
  WsReconnectPolicy.attemptCount (reconnectPolicy (failures n c))
  = Z.of_nat (List.length (delays (failures n c)) - List.length (delays c)) /\
  connectionState (onOpen (failures n c)) = CONNECTED /\
  WsReconnectPolicy.attemptCount (reconnectPolicy (onOpen (failures n c))) = 0.
Proof.
  intros Hzero Hauth Hnet.
  destruct (failures_from n 0 c Hzero ltac:(lia) Hauth Hnet) as [Hpol Hdel].
  cbn [Nat.add] in Hpol, Hdel. rewrite Nat.sub_0_r in Hdel.
  split; [exact Hdel|]. split; [|split; reflexivity].
  rewrite Hpol, Hdel. cbn [WsReconnectPolicy.attemptCount].
  rewrite length_app, length_map, length_seq. f_equal. lia.
Qed.

Lemma reconnect_backoff_witness :
  delays (failures 7 (connect new)) = [1000; 2000; 4000; 8000; 16000] /\
  WsReconnectPolicy.attemptCount (reconnectPolicy (failures 7 (connect new))) = 5 /\
  connectionState (onOpen (failures 7 (connect new))) = CONNECTED /\
  WsReconnectPolicy.attemptCount (reconnectPolicy (onOpen (failures 7 (connect new)))) = 0.
Proof.
  apply (reconnect_backoff (connect new) 7); reflexivity.
Defined.
Lemma disconnect_delays (c : t) : delays (disconnect c) = delays c.
Proof.
  unfold disconnect, delays. cbn [actions].
  destruct (webSocket c); [|reflexivity].
  rewrite flat_map_app. cbn [flat_map]. now rewrite !app_nil_r.
Qed.

Lemma start_policy (c : t) :
  reconnectPolicy (start c)
  = match launched c with
    | O => reconnectPolicy c
    | S _ => snd (WsReconnectPolicy.getDelayMs (reconnectPolicy c))
    end /\
  delays (start c)
  = match launched c with
    | O => delays c
    | S _ => delays c ++ [fst (WsReconnectPolicy.getDelayMs (reconnectPolicy c))]
    end /\
  pending (start c) = pending c /\
  (launched (start c) <= launched c)%nat.
Proof.
  unfold start, pending. destruct (launched c) as [|n] eqn:Hlaunched.
  - rewrite Hlaunched. repeat split. lia.
  - destruct (WsReconnectPolicy.getDelayMs (reconnectPolicy c)) as [ms policy].
    cbn [reconnectPolicy launched suspended fst snd]. repeat split.
    + unfold delays at 1. cbn [actions]. apply delays_app.
    + rewrite length_app. cbn [List.length]. lia.
    + lia.
Qed.

Lemma connect_pending (c : t) :
  launched (connect c) = launched c /\ suspended (connect c) = suspended c.
Proof. unfold connect. now destruct (isConnected (connectionState c)). Qed.

Lemma resume_pending (c : t) :
  launched (resume c) = launched c /\ (pending (resume c) <= pending c)%nat.
Proof.
  unfold resume, pending. destruct (suspended c) as [|ms rest] eqn:Hsusp.
  - rewrite Hsusp. split; [reflexivity|lia].
  - match goal with
    | |- context [connect ?x] => destruct (connect_pending x) as [-> ->]
    end.
    cbn [launched suspended List.length]. split; [reflexivity|lia].
Qed.





(* ------------------------------------------------------------------ *)
(** ** Extensions: hexadecimal text *)

Lemma format02x_chunk (b : Byte.byte) (rest : string) :
  chunked2 (format02x b ++ rest) = format02x b :: chunked2 rest.
Proof. destruct b; reflexivity. Qed.

Lemma format02x_parse (b : Byte.byte) : toInt16 (format02x b) = Some (unsigned b).
Proof. destruct b; reflexivity. Qed.

Lemma toByte_unsigned (b : Byte.byte) : toByte (unsigned b) = b.
Proof. destruct b; reflexivity. Qed.

Lemma format02x_length (b : Byte.byte) : String.length (format02x b) = 2%nat.
Proof. destruct b; reflexivity. Qed.

Lemma length_append (a b : string) :
  String.length (a ++ b) = (String.length a + String.length b)%nat.
Proof. induction a as [|c a IH]; cbn; [reflexivity|now rewrite IH]. Qed.

Lemma toHex_cons (b : Byte.byte) (a : bytes) :
  toHex (b :: a) = (format02x b ++ toHex a)%string.
Proof.
  unfold toHex. cbn [map]. destruct a as [|b' a].
  - cbn [map joinToString]. now rewrite append_nil_r.
  - reflexivity.
Qed.

(** X1. [fromHex] reads back what [toHex] wrote, and [toHex] writes two
    characters for each byte. *)
Theorem fromHex_toHex (a : bytes) :
  fromHex (toHex a) = Some a /\
  String.length (toHex a) = (2 * List.length a)%nat.
Proof.
  induction a as [|b a [IHparse IHlen]]; [now split|].
  rewrite toHex_cons. split.
  - unfold fromHex in *. rewrite format02x_chunk. cbn [mapParse].
    now rewrite format02x_parse, IHparse, toByte_unsigned.
  - rewrite length_append, format02x_length, IHlen. cbn [List.length]. lia.
Qed.

(* ------------------------------------------------------------------ *)
(** ** Extensions: comparison in constant time *)

Lemma toInt_inj (a b : Byte.byte) : toInt a = toInt b -> a = b.
Proof.
  unfold toInt. intros Heq. apply u_inj. unfold Base64.u.
  pose proof (u_range a) as Ha. pose proof (u_range b) as Hb. unfold Base64.u in Ha, Hb.
  destruct (Z.ltb_spec (Z.of_N (Byte.to_N a)) 128);
    destruct (Z.ltb_spec (Z.of_N (Byte.to_N b)) 128); lia.
Qed.

Lemma secureEqualsLoop_zero (a b : bytes) (result : Z) :
  List.length a = List.length b ->
  (secureEqualsLoop a b result = 0 <-> result = 0 /\ a = b).
Proof.
  revert b result. induction a as [|x a IH]; intros [|y b] result Hlen;
    cbn [List.length] in Hlen; try discriminate; cbn [secureEqualsLoop].
  - intuition.
  - rewrite IH by lia. rewrite Z.lor_eq_0_iff. split.
    + intros [[Hr Hx] Hab]. apply Z.lxor_eq in Hx. apply toInt_inj in Hx.
      subst. now split.
    + intros [Hr Heq]. injection Heq as -> ->.
      now rewrite Z.lxor_nilpotent.
Qed.

(** X2. [secureEquals] answers [true] exactly for equal arrays. *)
Theorem secureEquals_iff (a other : bytes) :
  secureEquals a other = true <-> a = other.
Proof.
  unfold secureEquals. destruct (Z.eqb_spec (size a) (size other)) as [Hsize|Hsize];
    cbn [negb].
  - rewrite Z.eqb_eq, secureEqualsLoop_zero by (unfold size in Hsize; lia).
    intuition.
  - split; [discriminate|]. intros ->. contradiction.
Qed.

(* ------------------------------------------------------------------ *)
(** ** Extensions: the timestamp window *)

Lemma isValidTimestamp_wrapped (now timestamp : Z) :
  isValidTimestamp now timestamp = true
  <-> (Z.abs (int64 (now - timestamp)) <= Constants.TIMESTAMP_SKEW_MS
       \/ int64 (now - timestamp) = Long.MIN_VALUE).
Proof.
  unfold isValidTimestamp, absLong, Long.MIN_VALUE.
  change Constants.TIMESTAMP_SKEW_MS with 600000.
  set (d := int64 (now - timestamp)).
  assert (Hd : - 2 ^ 63 <= d < 2 ^ 63).
  { subst d. unfold int64, wrap. change (64 - 1) with 63.
    pose proof (Z.mod_pos_bound (now - timestamp + 2 ^ 63) (2 ^ 64) ltac:(lia)).
    change (2 ^ 64) with (2 * 2 ^ 63) in *. lia. }
  change (2 ^ 63) with 9223372036854775808 in *.
  rewrite Z.leb_le. destruct (Z.ltb_spec d 0).
  - destruct (Z.eq_dec d (-9223372036854775808)) as [->|Hne].
    + split; [now right|]. intros _. vm_compute. discriminate.
    + rewrite int64_small by (change (2 ^ 63) with 9223372036854775808; lia). lia.
  - lia.
Qed.

(** X3. When the subtraction does not overflow, a timestamp is valid
    exactly when it is at most ten minutes from the clock, the bounds
    included. *)
Theorem isValidTimestamp_window (now timestamp : Z) :
  Long.MIN_VALUE < now - timestamp <= Long.MAX_VALUE ->
  (isValidTimestamp now timestamp = true <-> Z.abs (now - timestamp) <= 600000).
Proof.
  unfold Long.MIN_VALUE, Long.MAX_VALUE. intros Hd.
  rewrite isValidTimestamp_wrapped. rewrite int64_small by lia.
  unfold Long.MIN_VALUE. change Constants.TIMESTAMP_SKEW_MS with 600000. lia.
Qed.

Lemma isValidTimestamp_window_witness :
  (isValidTimestamp 1700000000000 1699999400000 = true
   <-> Z.abs (1700000000000 - 1699999400000) <= 600000) /\
  (isValidTimestamp 1700000000000 1699999399999 = true
   <-> Z.abs (1700000000000 - 1699999399999) <= 600000).
Proof.
  split.
  - apply (isValidTimestamp_window 1700000000000 1699999400000). vm_compute.
    split; [reflexivity|discriminate].
  - apply (isValidTimestamp_window 1700000000000 1699999399999). vm_compute.
    split; [reflexivity|discriminate].
Defined.

(** X4. The subtraction wraps: for a clock at or after the epoch, the
    timestamp [2^63] milliseconds before it is a [Long], lies outside the
    window, and is accepted, because [abs(Long.MIN_VALUE)] is negative. *)
Theorem isValidTimestamp_wraps (now : Z) :
  0 <= now <= Long.MAX_VALUE ->
  Long.MIN_VALUE <= now - 2 ^ 63 <= Long.MAX_VALUE /\
  600000 < Z.abs (now - (now - 2 ^ 63)) /\
  isValidTimestamp now (now - 2 ^ 63) = true.
Proof.
  unfold Long.MIN_VALUE, Long.MAX_VALUE. intros Hnow.
  split; [lia|]. split; [change (2 ^ 63) with 9223372036854775808; lia|].
  apply isValidTimestamp_wrapped. right.
  replace (now - (now - 2 ^ 63)) with (2 ^ 63) by lia. reflexivity.
Qed.

Lemma isValidTimestamp_wraps_witness :
  isValidTimestamp 1700000000000 (1700000000000 - 2 ^ 63) = true.
Proof.
  apply (isValidTimestamp_wraps 1700000000000). vm_compute.
  split; discriminate.
Defined.

(* ------------------------------------------------------------------ *)
(** ** Logger *)

Lemma substring_all (s : string) : substring 0 (String.length s) s = s.
Proof. induction s as [|c s IH]; cbn; [reflexivity|now rewrite IH]. Qed.

Lemma substring_prefix (a r : string) :
  substring 0 (String.length a) (a ++ r) = a.
Proof.
  induction a as [|c a IH]; cbn.
  - now destruct r.
  - now rewrite IH.
Qed.

Lemma substring_skip (p b : string) (n : nat) :
  substring (String.length p) n (p ++ b) = substring 0 n b.
Proof. induction p as [|c p IH]; cbn; [reflexivity|exact IH]. Qed.

(** X5. [redact] shows the first four and the last four characters of a
    string of more than eight and nothing of what lies between them; a
    string of at most eight characters is replaced whole, by [***].  The
    variant of generate_project.py treats a string of more than eight in
    the same way in debug builds only; it replaces every string outside
    debug builds, and every string of at most eight characters in any
    build, by [[REDACTED]]. *)
Theorem redact_hides_middle (first middle last : string) :
  String.length first = 4%nat -> String.length last = 4%nat ->
  middle <> EmptyString ->
  Logger.redact (first ++ middle ++ last) = (first ++ "..." ++ last)%string /\
  Logger.redactByBuild true (first ++ middle ++ last) = (first ++ "..." ++ last)%string /\
  (forall value, Logger.redactByBuild false value = "[REDACTED]"%string) /\
  (forall short, (String.length short <= 8)%nat -> Logger.redact short = "***"%string) /\
  (forall isDebug short, (String.length short <= 8)%nat ->
     Logger.redactByBuild isDebug short = "[REDACTED]"%string).
Proof.
  intros Hfirst Hlast Hmiddle.
  assert (Hlen : String.length (first ++ middle ++ last)
                 = (8 + String.length middle)%nat)
    by (rewrite !length_append; lia).
  assert (Hpos : (0 < String.length middle)%nat)
    by (destruct middle; [congruence|cbn; lia]).
  assert (Htake : take 4 (first ++ middle ++ last) = first)
    by (unfold take; rewrite <- Hfirst; apply substring_prefix).
  assert (Hlast' : takeLast 4 (first ++ middle ++ last) = last).
  { unfold takeLast. rewrite Hlen.
    replace (8 + String.length middle - 4)%nat
      with (String.length (first ++ middle)) by (rewrite length_append; lia).
    rewrite append_assoc, substring_skip, <- Hlast. apply substring_all. }
  assert (Hlong : (String.length (first ++ middle ++ last) <=? 8)%nat = false)
    by (apply Nat.leb_gt; lia).
  unfold Logger.redact, Logger.redactByBuild. rewrite Hlong, Htake, Hlast'.
  repeat split.
  - intros value. now destruct (String.length value <=? 8)%nat.
  - intros short Hshort. apply Nat.leb_le in Hshort. now rewrite Hshort.
  - intros isDebug short Hshort. apply Nat.leb_le in Hshort. now rewrite Hshort.
Qed.

Lemma redact_hides_middle_witness :
  Logger.redact ("tok_" ++ "SECRETSECRET" ++ "_end") = "tok_..._end"%string.
Proof.
  apply (redact_hides_middle "tok_" "SECRETSECRET" "_end"); [reflexivity|reflexivity|discriminate].
Defined.

(* ------------------------------------------------------------------ *)
(** ** HKDF: every outcome of [expand] and [deriveKey] *)

Section HKDFOutcomes.
Context `{JCA} `{!JCASpec}.

Lemma expand_negative (prk info : bytes) (length : Z) :
  prk <> [] -> Int.MIN_VALUE <= length < 0 ->
  HKDF.expand prk info length = Throw NegativeArraySizeException.
Proof.
  unfold Int.MIN_VALUE. intros Hprk Hlen. unfold HKDF.expand, HKDF.HASH_LEN.
  destruct prk as [|k prk]; [congruence|]. cbn [SecretKeySpec bind].
  change (32 - 1) with 31. set (n := (length + 31) / 32).
  assert (Hn : 32 * n <= length + 31 < 32 * n + 32).
  { subst n. pose proof (Z.div_mod (length + 31) 32 ltac:(lia)).
    pose proof (Z.mod_pos_bound (length + 31) 32 ltac:(lia)). lia. }
  rewrite int32_small by (change (2 ^ 31) with 2147483648; lia).
  destruct (Z.eq_dec n 0) as [Hz|Hnz].
  - rewrite Hz. cbn [Z.mul]. rewrite ByteArray_ok by lia. cbn [bind].
    change (Z.to_nat 0) with O. cbn [HKDF.expand_loop bind].
    unfold copyOf. destruct (Z.ltb_spec length 0); [reflexivity|lia].
  - now rewrite ByteArray_negative by lia.
Qed.

Lemma expand_overflow (prk info : bytes) (length : Z) :
  prk <> [] -> 2 ^ 31 - 32 < length <= Int.MAX_VALUE ->
  HKDF.expand prk info length = Throw NegativeArraySizeException.
Proof.
  unfold Int.MAX_VALUE. change (2 ^ 31) with 2147483648.
  intros Hprk Hlen. unfold HKDF.expand, HKDF.HASH_LEN.
  destruct prk as [|k prk]; [congruence|]. cbn [SecretKeySpec bind].
  change (32 - 1) with 31.
  assert (Hn : (length + 31) / 32 = 67108864).
  { pose proof (Z.div_mod (length + 31) 32 ltac:(lia)).
    pose proof (Z.mod_pos_bound (length + 31) 32 ltac:(lia)). lia. }
  rewrite Hn. now vm_compute.
Qed.
End HKDFOutcomes.

(** X6. [expand] over the whole range of an [Int] length: an empty key is
    refused with [IllegalArgumentException]; a negative length, and a
    length within 32 of [Int.MAX_VALUE] (where the buffer size overflows),
    give [NegativeArraySizeException]; every other length gives exactly
    that many bytes of [T(1) | T(2) | ...], with no limit at 255 blocks. *)
Theorem expand_outcome `{JCA} `{!JCASpec} (prk info : bytes) (length : Z) :
  Int.MIN_VALUE <= length <= Int.MAX_VALUE ->
  HKDF.expand prk info length
  = match prk with
    | [] => Throw IllegalArgumentException
    | _ :: _ =>
        if (length <? 0) || (Int.MAX_VALUE - 31 <? length)
        then Throw NegativeArraySizeException
        else Ok (firstn (Z.to_nat length)
                   (RFC5869.T prk info (Z.to_nat ((length + 31) / 32)) 1 []))
    end /\
  (forall okm, HKDF.expand prk info length = Ok okm -> size okm = length).
Proof.
  unfold Int.MAX_VALUE. intros Hlen.
  assert (Heq : HKDF.expand prk info length
                = match prk with
                  | [] => Throw IllegalArgumentException
                  | _ :: _ =>
                      if (length <? 0) || (2147483647 - 31 <? length)
                      then Throw NegativeArraySizeException
                      else Ok (firstn (Z.to_nat length)
                                 (RFC5869.T prk info (Z.to_nat ((length + 31) / 32)) 1 []))
                  end).
  { destruct prk as [|k prk]; [reflexivity|].
    destruct (Z.ltb_spec length 0); cbn [orb].
    - apply expand_negative; [discriminate|lia].
    - destruct (Z.ltb_spec (2147483647 - 31) length).
      + apply expand_overflow; [discriminate|].
        unfold Int.MAX_VALUE. change (2 ^ 31) with 2147483648. lia.
      + apply expand_T; [discriminate|].
        unfold HKDF.HASH_LEN. change (2 ^ 31) with 2147483648. lia. }
  split; [exact Heq|].
  intros okm Hok. rewrite Heq in Hok. destruct prk as [|k prk]; [discriminate|].
  destruct ((length <? 0) || (2147483647 - 31 <? length)) eqn:Hbad; [discriminate|].
  apply orb_false_elim in Hbad as [Hneg Hbig].
  apply Z.ltb_ge in Hneg, Hbig. injection Hok as <-.
  apply size_firstn. rewrite size_T. unfold HKDF.HASH_LEN.
  pose proof (Z.div_mod (length + 31) 32 ltac:(lia)).
  pose proof (Z.mod_pos_bound (length + 31) 32 ltac:(lia)).
  assert (0 <= (length + 31) / 32) by (apply Z.div_pos; lia). lia.
Qed.

Lemma expand_outcome_witness :
  @HKDF.expand Model.jca [Byte.x01] [] (-1) = Throw NegativeArraySizeException /\
  (forall okm, @HKDF.expand Model.jca [Byte.x01] [] 8192 = Ok okm -> size okm = 8192).
Proof.
  split.
  - destruct (@expand_outcome Model.jca model_jca_spec [Byte.x01] [] (-1)) as [Heq _].
    + vm_compute. split; discriminate.
    + exact Heq.
  - apply (@expand_outcome Model.jca model_jca_spec [Byte.x01] [] 8192).
    vm_compute. split; discriminate.
Defined.

(** X7. [deriveKey] refuses an empty salt with
    [IllegalArgumentException]; with any other salt and a length from 0 to
    [Int.MAX_VALUE - 31] it returns exactly that many bytes, whose first 32
    are [HMAC(HMAC(salt, ikm), info | 0x01)]. *)
Theorem deriveKey_outcome `{JCA} `{!JCASpec} (ikm salt info : bytes) (length : Z) :
  salt <> [] -> 0 <= length <= Int.MAX_VALUE - 31 ->
  HKDF.deriveKey ikm [] info length = Throw IllegalArgumentException /\
  exists okm,
    HKDF.deriveKey ikm salt info length = Ok okm /\
    size okm = length /\
    firstn 32 okm
    = firstn (Z.to_nat length) (hmacSHA256 (hmacSHA256 salt ikm) (info ++ [toByte 1])).
Proof.
  unfold Int.MAX_VALUE. intros Hsalt Hlen. split; [reflexivity|].
  unfold HKDF.deriveKey, HKDF.extract.
  destruct salt as [|s salt]; [congruence|]. cbn [SecretKeySpec bind].
  set (prk := hmacSHA256 (s :: salt) ikm).
  assert (Hprk : prk <> [])
    by (apply (nonempty_of_size prk 32); [apply hmacSHA256_size|lia]).
  set (n := Z.to_nat ((length + 31) / 32)).
  assert (Hn : length <= 32 * Z.of_nat n).
  { subst n. pose proof (Z.div_mod (length + 31) 32 ltac:(lia)).
    pose proof (Z.mod_pos_bound (length + 31) 32 ltac:(lia)).
    assert (0 <= (length + 31) / 32) by (apply Z.div_pos; lia). lia. }
  exists (firstn (Z.to_nat length) (RFC5869.T prk info n 1 [])).
  split; [|split].
  - apply expand_T; [assumption|].
    unfold HKDF.HASH_LEN. change (2 ^ 31) with 2147483648. lia.
  - apply size_firstn. rewrite size_T. unfold HKDF.HASH_LEN. lia.
  - rewrite firstn_firstn.
    destruct n as [|n].
    + assert (length = 0) by lia. subst length. reflexivity.
    + cbn [RFC5869.T app]. rewrite firstn_app.
      pose proof (hmacSHA256_size prk (info ++ [toByte 1])) as Hs. unfold size in Hs.
      set (t1 := hmacSHA256 prk (info ++ [toByte 1])) in *.
      destruct (Z_le_gt_dec length 32).
      * replace (Nat.min 32 (Z.to_nat length)) with (Z.to_nat length) by lia.
        replace (Z.to_nat length - List.length t1)%nat with O by lia.
        now rewrite firstn_O, app_nil_r.
      * replace (Nat.min 32 (Z.to_nat length)) with 32%nat by lia.
        replace (32 - List.length t1)%nat with O by lia.
        rewrite firstn_O, app_nil_r.
        rewrite !firstn_all2 by lia. reflexivity.
Qed.

Lemma deriveKey_outcome_witness :
  @HKDF.deriveKey Model.jca [Byte.x09] [] [] 32 = Throw IllegalArgumentException /\
  exists okm,
    @HKDF.deriveKey Model.jca [Byte.x09] [Byte.x01] [] 33 = Ok okm /\
    size okm = 33 /\
    firstn 32 okm
    = firstn 33 (@hmacSHA256 Model.jca (@hmacSHA256 Model.jca [Byte.x01] [Byte.x09])
                   ([] ++ [toByte 1])).
Proof.
  apply (@deriveKey_outcome Model.jca model_jca_spec [Byte.x09] [Byte.x01] [] 33).
  - discriminate.
  - vm_compute. split; discriminate.
Defined.

(* ------------------------------------------------------------------ *)
(** ** The small platform has the further properties *)

Lemma model_secretbox_spec : @SecretBoxSpec Model.sodium.
Proof.
  constructor; cbn [cryptoSecretBoxEasy cryptoSecretBoxOpenEasy Model.sodium fst snd].
  - intros. apply size_fit, size_nonneg.
  - intros message nonce key _ Hkey. unfold SecretBox.KEYBYTES, SecretBox.MACBYTES in *.
    split; [reflexivity|].
    pose proof (size_nonneg message) as Hm.
    assert (Htag : size (Model.fit 16 key) = 16) by (apply size_fit; lia).
    assert (Hlen : List.length (Model.fit 16 key) = 16%nat) by (unfold size in Htag; lia).
    rewrite !size_zeros by lia.
    rewrite fit_exact by (rewrite size_app; lia).
    rewrite firstn_app, Hlen, firstn_all2 by lia.
    cbn [Nat.sub firstn]. rewrite app_nil_r, eqbBytes_refl.
    rewrite skipn_app, Hlen, skipn_all2 by lia. cbn [Nat.sub skipn app].
    now rewrite fit_exact.
Qed.

Lemma model_sign_spec : @SignSpec Model.sodium.
Proof.
  constructor; unfold isSignKeyPair;
    cbn [cryptoSignDetached cryptoSignVerifyDetached cryptoSignSeedKeypair
         Model.sodium fst snd].
  - intros. apply size_fit, size_nonneg.
  - intros message publicKey privateKey (seed & Hseed & Hpair).
    unfold Sign.PUBLICKEYBYTES, Sign.SECRETKEYBYTES, Sign.BYTES in *.
    rewrite !size_zeros in * by lia. injection Hpair as <- <-.
    rewrite (fit_exact 32 seed) by assumption.
    rewrite (fit_exact 64 (seed ++ seed)) by (rewrite size_app; lia).
    assert (Hfit : Model.fit 32 (seed ++ seed) = seed).
    { unfold Model.fit. rewrite <- app_assoc, firstn_app.
      unfold size in Hseed.
      replace (Z.to_nat 32 - List.length seed)%nat with O by lia.
      rewrite firstn_O, app_nil_r. apply firstn_all2. lia. }
    rewrite Hfit.
    rewrite (fit_exact 64) by (rewrite size_app, size_fit by lia; lia).
    rewrite ?(fit_exact 32 seed) by assumption.
    apply eqbBytes_refl.
Qed.

(* ------------------------------------------------------------------ *)
(** ** KeyDerivation: the chain in full *)

(** X8. [deriveAllKeys] throws [InvalidMnemonicException] when the
    phrase does not validate and nothing else; otherwise, with
    [prk = HMAC("whisper", seed)] for the PBKDF2 seed of the phrase, the
    X25519 private key is [HMAC(prk, "whisper/enc" | 0x01)] and the public
    key its [scalarmult_base], the Ed25519 pair is the seeded key pair of
    [HMAC(prk, "whisper/sign" | 0x01)], and the contacts key is
    [HMAC(prk, "whisper/contacts" | 0x01)]. *)
Theorem deriveAllKeys_chain `{JavaText} `{JCA} `{LazySodium} `{!JCASpec}
    (mnemonic : string) :
  let seed := pbkdf2WithHmacSHA512 (normalizeMnemonic mnemonic)
                (toByteArray "mnemonic") 2048 512 in
  let prk := hmacSHA256 (toByteArray "whisper") seed in
  let sub := fun info => hmacSHA256 prk (toByteArray info ++ [toByte 1]) in
  KeyDerivation.deriveAllKeys mnemonic
  = if BIP39.validateMnemonic mnemonic
    then Ok {| KeyDerivation.encPublicKey :=
                 snd (cryptoScalarmultBase (zeros 32) (sub "whisper/enc"%string));
               KeyDerivation.encPrivateKey := sub "whisper/enc"%string;
               KeyDerivation.signPublicKey :=
                 fst (snd (cryptoSignSeedKeypair (zeros 32) (zeros 64)
                             (sub "whisper/sign"%string)));
               KeyDerivation.signPrivateKey :=
                 snd (snd (cryptoSignSeedKeypair (zeros 32) (zeros 64)
                             (sub "whisper/sign"%string)));
               KeyDerivation.contactsKey := sub "whisper/contacts"%string |}
    else Throw InvalidMnemonicException.
Proof.
  intros seed prk sub. unfold KeyDerivation.deriveAllKeys.
  rewrite seedFromMnemonic_eq. fold seed.
  destruct (BIP39.validateMnemonic mnemonic); [|reflexivity].
  cbn [bind]. rewrite !deriveKey_32 by discriminate. cbn [bind].
  change (hmacSHA256 (toByteArray Constants.HKDF_SALT) seed) with prk.
  change (hmacSHA256 prk (toByteArray Constants.ENCRYPTION_DOMAIN ++ [toByte 1]))
    with (sub "whisper/enc"%string).
  change (hmacSHA256 prk (toByteArray Constants.SIGNING_DOMAIN ++ [toByte 1]))
    with (sub "whisper/sign"%string).
  change (hmacSHA256 prk (toByteArray Constants.CONTACTS_DOMAIN ++ [toByte 1]))
    with (sub "whisper/contacts"%string).
  rewrite generateEncryptionKeyPair_eq by apply hmacSHA256_size. cbn [bind].
  rewrite generateSigningKeyPair_eq. reflexivity.
Qed.

Lemma deriveAllKeys_chain_witness :
  @KeyDerivation.deriveAllKeys Model.text Model.jca Model.sodium "not a phrase"
  = Throw InvalidMnemonicException /\
  fmap KeyDerivation.contactsKey
    (@KeyDerivation.deriveAllKeys Model.text Model.jca Model.sodium zeroEntropyPhrase)
  = Ok (@hmacSHA256 Model.jca
          (@hmacSHA256 Model.jca (toByteArray "whisper")
             (@pbkdf2WithHmacSHA512 Model.jca zeroEntropyPhrase
                (toByteArray "mnemonic") 2048 512))
          (toByteArray "whisper/contacts" ++ [toByte 1])).
Proof.
  split.
  - exact (@deriveAllKeys_chain Model.text Model.jca Model.sodium model_jca_spec
             "not a phrase").
  - rewrite (@deriveAllKeys_chain Model.text Model.jca Model.sodium model_jca_spec
               zeroEntropyPhrase).
    reflexivity.
Defined.

Lemma arraycopy_into_zeros (src : bytes) (len : Z) :
  0 <= len ->
  arraycopy src 0 (zeros len) 0 len
  = if size src <? len then Throw IndexOutOfBoundsException
    else Ok (firstn (Z.to_nat len) src).
Proof.
  intros Hlen. unfold arraycopy. rewrite size_zeros by lia.
  destruct (Z.ltb_spec 0 0); [lia|]. destruct (Z.ltb_spec len 0); [lia|].
  destruct (Z.ltb_spec len (0 + len)); [lia|]. cbn [orb].
  rewrite Z.add_0_l, orb_false_r.
  destruct (Z.ltb_spec (size src) len); [reflexivity|]. f_equal.
  change (Z.to_nat 0) with O. rewrite firstn_O, skipn_O. cbn [app].
  rewrite skipn_all2 by (unfold zeros; rewrite repeat_length; lia).
  apply app_nil_r.
Qed.

(** X9. [generateEncryptionKeyPair] takes the first 32 bytes of its seed
    as the private key, unchanged (no clamping), and the public key is what
    [cryptoScalarmultBase] writes for it; a seed of fewer than 32 bytes
    makes it throw [IndexOutOfBoundsException]. *)
Theorem generateEncryptionKeyPair_outcome `{LazySodium} (seed : bytes) :
  KeyDerivation.generateEncryptionKeyPair seed
  = if size seed <? 32 then Throw IndexOutOfBoundsException
    else Ok (snd (cryptoScalarmultBase (zeros 32) (firstn 32 seed)), firstn 32 seed).
Proof.
  unfold KeyDerivation.generateEncryptionKeyPair.
  unfold Box.PUBLICKEYBYTES, Box.SECRETKEYBYTES.
  rewrite !ByteArray_ok by lia. cbn [bind].
  rewrite arraycopy_into_zeros by lia.
  destruct (size seed <? 32); [reflexivity|]. cbn [bind].
  change (Z.to_nat 32) with 32%nat.
  now destruct (cryptoScalarmultBase (zeros 32) (firstn 32 seed)).
Qed.

(* ------------------------------------------------------------------ *)
(** ** NaClSecretBox: seal and open *)

Lemma NaClSecretBox_seal_unfold `{LazySodium} (message nonce key : bytes) :
  size message + SecretBox.MACBYTES <= Int.MAX_VALUE ->
  NaClSecretBox.seal message nonce key
  = let r := cryptoSecretBoxEasy (zeros (size message + SecretBox.MACBYTES)) message
               (size message) nonce key in
    if fst r then Ok (snd r)
    else Throw (EncryptionException "SecretBox seal failed").
Proof.
  intros Hmax. pose proof (size_nonneg message) as Hs.
  unfold NaClSecretBox.seal, Int.MAX_VALUE, SecretBox.MACBYTES in *.
  rewrite int32_small by (change (2 ^ 31) with 2147483648; lia).
  rewrite ByteArray_ok by lia. cbn [bind]; cbv zeta.
  destruct (cryptoSecretBoxEasy _ _ _ _ _) as [[|] ciphertext]; reflexivity.
Qed.

(** X10. Under a 32-byte key and a 24-byte nonce, [NaClSecretBox.seal]
    returns a ciphertext of [len(m) + 16] bytes that [NaClSecretBox.open]
    with the same key and nonce turns back into [m], also for the empty
    message. *)
Theorem secretBox_open_seal `{LazySodium} `{!SecretBoxSpec} (m n key : bytes) :
  size n = 24 -> size key = 32 ->
  size m + 16 <= Int.MAX_VALUE ->
  exists c,
    NaClSecretBox.seal m n key = Ok c /\
    size c = size m + 16 /\
    NaClSecretBox.open c n key = Ok m.
Proof.
  intros Hn Hkey Hmax. pose proof (size_nonneg m) as Hm.
  destruct (cryptoSecretBox_open_seal m n key Hn Hkey) as [Hok Hopen].
  unfold SecretBox.MACBYTES in *.
  exists (snd (cryptoSecretBoxEasy (zeros (size m + 16)) m (size m) n key)).
  assert (Hsize : size (snd (cryptoSecretBoxEasy (zeros (size m + 16)) m (size m) n key))
                  = size m + 16).
  { rewrite cryptoSecretBoxEasy_size. apply size_zeros. lia. }
  split; [|split].
  - rewrite NaClSecretBox_seal_unfold by assumption. unfold SecretBox.MACBYTES.
    cbv zeta. now rewrite Hok.
  - exact Hsize.
  - rewrite NaClSecretBox_open_unfold by lia. unfold SecretBox.MACBYTES. rewrite Hsize.
    destruct (Z.ltb_spec (size m + 16) 16); [lia|].
    replace (size m + 16 - 16) with (size m) by lia.
    cbv zeta. now rewrite Hopen.
Qed.

Lemma secretBox_open_seal_witness :
  exists c,
    @NaClSecretBox.seal Model.sodium [Byte.x41; Byte.x42] (zeros 24) (zeros 32) = Ok c /\
    size c = 18 /\
    @NaClSecretBox.open Model.sodium c (zeros 24) (zeros 32) = Ok [Byte.x41; Byte.x42].
Proof.
  apply (@secretBox_open_seal Model.sodium model_secretbox_spec
           [Byte.x41; Byte.x42] (zeros 24) (zeros 32)).
  - reflexivity.
  - reflexivity.
  - vm_compute. discriminate.
Defined.

(* ------------------------------------------------------------------ *)
(** ** Signatures *)

(** X11. [sign] never throws and always returns 64 bytes: it does not
    look at the flag of [cryptoSignDetached], so a failed signing returns
    the buffer as the primitive left it. *)
Theorem sign_total `{JCA} `{LazySodium} `{!SignSpec} (message privateKey : bytes) :
  exists signature,
    Signatures.sign message privateKey = Ok signature /\
    size signature = 64 /\
    signature = snd (cryptoSignDetached (zeros 64) message (size message) privateKey).
Proof.
  unfold Signatures.sign, Sign.BYTES. rewrite ByteArray_ok by lia. cbn [bind].
  pose proof (cryptoSignDetached_size (zeros 64) message (size message) privateKey) as Hs.
  destruct (cryptoSignDetached (zeros 64) message (size message) privateKey)
    as [flag signature].
  exists signature. cbn [snd] in *. rewrite Hs, size_zeros by lia. now repeat split.
Qed.

Lemma sign_total_witness :
  exists signature,
    @Signatures.sign Model.sodium [Byte.x41] [] = Ok signature /\
    size signature = 64 /\
    signature = snd (@cryptoSignDetached Model.sodium (zeros 64) [Byte.x41] 1 []).
Proof.
  exact (@sign_total Model.jca Model.sodium model_sign_spec [Byte.x41] []).
Defined.

(** X12. A challenge signed by [signChallenge] with the private key of a
    pair verifies by [verifyChallenge] with its public key: both sides hash
    the challenge with SHA-256 first, and what is signed is the digest, not
    the challenge. *)
Theorem verifyChallenge_signChallenge `{JCA} `{LazySodium} `{!SignSpec}
    (challenge publicKey privateKey : bytes) :
  isSignKeyPair publicKey privateKey ->
  exists signature,
    Signatures.signChallenge challenge privateKey = Ok signature /\
    Signatures.signChallenge challenge privateKey
    = Signatures.sign (sha256 challenge) privateKey /\
    Signatures.verifyChallenge challenge signature publicKey = true.
Proof.
  intros Hpair. unfold Signatures.signChallenge, Signatures.verifyChallenge.
  cbv zeta. destruct (sign_total (sha256 challenge) privateKey)
    as (signature & Hsign & _ & Heq).
  exists signature. split; [exact Hsign|]. split; [reflexivity|].
  unfold Signatures.verify. rewrite Heq.
  now apply cryptoSign_verify_sign.
Qed.

Lemma sampleSignKeyPair : @isSignKeyPair Model.sodium sampleSignPublicKey sampleSignPrivateKey.
Proof. exists (Model.fit 32 [Byte.x05]). split; reflexivity. Qed.

Lemma verifyChallenge_signChallenge_witness :
  exists signature,
    @Signatures.signChallenge Model.jca Model.sodium [Byte.x41] sampleSignPrivateKey
    = Ok signature /\
    @Signatures.signChallenge Model.jca Model.sodium [Byte.x41] sampleSignPrivateKey
    = @Signatures.sign Model.sodium (@sha256 Model.jca [Byte.x41]) sampleSignPrivateKey /\
    @Signatures.verifyChallenge Model.jca Model.sodium [Byte.x41] signature
      sampleSignPublicKey = true.
Proof.
  exact (@verifyChallenge_signChallenge Model.jca Model.sodium model_sign_spec
           [Byte.x41] sampleSignPublicKey sampleSignPrivateKey sampleSignKeyPair).
Defined.

(** X13. A message signed by [signMessage] with the private key of a pair
    verifies by [verifyMessage] on the same seven fields with its public
    key, whatever the fields hold. *)
Theorem verifyMessage_signMessage `{JCA} `{LazySodium} `{!SignSpec}
    (f : Fields) (publicKey privateKey : bytes) :
  isSignKeyPair publicKey privateKey ->
  exists signature,
    signFields f privateKey = Ok signature /\
    size signature = 64 /\
    verifyFields f signature publicKey = true.
Proof.
  intros Hpair. unfold signFields, verifyFields.
  unfold CanonicalSigning.signMessage, CanonicalSigning.verifyMessage. cbv zeta.
  fold (canonicalOf f). fold (digestOf f).
  destruct (sign_total (digestOf f) privateKey) as (signature & Hsign & Hsize & Heq).
  exists signature. split; [exact Hsign|]. split; [exact Hsize|].
  unfold Signatures.verify. rewrite Heq.
  now apply cryptoSign_verify_sign.
Qed.

Lemma verifyMessage_signMessage_witness :
  exists signature,
    @signFields Model.jca Model.sodium sampleFields sampleSignPrivateKey = Ok signature /\
    size signature = 64 /\
    @verifyFields Model.jca Model.sodium sampleFields signature sampleSignPublicKey = true.
Proof.
  exact (@verifyMessage_signMessage Model.jca Model.sodium model_sign_spec
           sampleFields sampleSignPublicKey sampleSignPrivateKey sampleSignKeyPair).
Defined.

(* ------------------------------------------------------------------ *)
(** ** Canonical signing: the string read back *)

Lemma split_line (a r : string) :
  oneLine a = true ->
  split (ascii_of_N 10) (a ++ String (ascii_of_N 10) r) = a :: split (ascii_of_N 10) r.
Proof.
  induction a as [|c a IH]; intros Ha; [reflexivity|].
  cbn [oneLine] in Ha. apply andb_prop in Ha as [Hc Ha].
  cbn [append split]. apply negb_true_iff in Hc. rewrite Hc. now rewrite IH.
Qed.

(** X14. When the four text fields hold no line feed, splitting the
    canonical string at line feeds gives back, in order, the tag [v1], the
    four fields, the decimal timestamp, the two Base64 texts, and an empty
    last piece for the final line feed: nine pieces, however the fields are
    chosen. *)
Theorem canonical_lines (f : Fields) :
  oneLineFields f = true ->
  split (ascii_of_N 10) (canonicalOf f)
  = [ "v1"%string; messageType f; messageId f; from f; toOrGroupId f;
      longToString (timestamp f); encodeBase64 (nonce f);
      encodeBase64 (ciphertext f); EmptyString ].
Proof.
  destruct f as [t i fr o z n c].
  unfold oneLineFields, canonicalOf, CanonicalSigning.canonical, CanonicalSigning.LF.
  cbn [messageType messageId from toOrGroupId timestamp nonce ciphertext].
  intros Hf.
  apply andb_prop in Hf as [Hf Ho]. apply andb_prop in Hf as [Hf Hfr].
  apply andb_prop in Hf as [Ht Hi].
  change ("v1" ++ String (ascii_of_N 10) "" ++ ?x)%string
    with ("v1" ++ String (ascii_of_N 10) x)%string.
  repeat match goal with
         | |- context [(?a ++ String (ascii_of_N 10) "" ++ ?x)%string] =>
             change (a ++ String (ascii_of_N 10) "" ++ x)%string
               with (a ++ String (ascii_of_N 10) x)%string
         end.
  rewrite (split_line "v1") by reflexivity.
  rewrite !split_line
    by first [assumption | apply longToString_oneLine | apply encodeToString_oneLine].
  reflexivity.
Qed.

Lemma canonical_lines_witness :
  split (ascii_of_N 10) (canonicalOf sampleFields)
  = [ "v1"%string; "text"%string; "m1"%string; "alice"%string; "bob"%string;
      "1700000000000"%string; encodeBase64 (zeros 24); encodeBase64 (zeros 17);
      EmptyString ].
Proof.
  exact (canonical_lines sampleFields eq_refl).
Defined.

(* ------------------------------------------------------------------ *)
(** ** BIP39: what [entropyToMnemonic] returns *)

Lemma byteBits_length (b : Byte.byte) : String.length (byteBits b) = 8%nat.
Proof. destruct b; reflexivity. Qed.

Lemma entropy_bits (entropy : bytes) (acc : string) :
  fold_left
    (fun acc b => (acc ++ replaceSpaceByZero (format8s (toBinaryString (unsigned b))))%string)
    entropy acc
  = (acc ++ fold_right (fun b s => (byteBits b ++ s)%string) EmptyString entropy)%string.
Proof.
  revert acc. induction entropy as [|b entropy IH]; intros acc; cbn [fold_left fold_right].
  - now rewrite append_nil_r.
  - rewrite IH. fold (byteBits b). now rewrite append_assoc.
Qed.

Lemma entropy_bits_length (entropy : bytes) :
  String.length (fold_right (fun b s => (byteBits b ++ s)%string) EmptyString entropy)
  = (8 * List.length entropy)%nat.
Proof.
  induction entropy as [|b entropy IH]; [reflexivity|].
  cbn [fold_right List.length]. rewrite length_append, byteBits_length, IH. lia.
Qed.

Section EntropyProofs.
Context `{JavaText} `{JCA}.

Lemma checksumLoop_length (hash : bytes) (count : nat) (i : Z) (bits bits' : string) :
  BIP39.checksumLoop hash count i bits = Ok bits' ->
  String.length bits' = (String.length bits + count)%nat.
Proof.
  revert i bits. induction count as [|count IH]; intros i bits; cbn [BIP39.checksumLoop].
  - intros [= <-]. lia.
  - destruct (get hash 0) as [h0|e]; cbn [bind]; [|discriminate].
    intros Hloop. apply IH in Hloop. rewrite Hloop, length_append.
    destruct (Z.land (toInt h0) (shl 1 (7 - i)) =? 0); cbn; lia.
Qed.

(** The checksum loop throws nothing but an index error, and leaves
    what came before its digits in place. *)
Lemma checksumLoop_outcome (hash : bytes) (count : nat) (i : Z) (bits : string) :
  BIP39.checksumLoop hash count i bits = Throw IndexOutOfBoundsException \/
  exists tail, BIP39.checksumLoop hash count i bits = Ok (bits ++ tail)%string.
Proof.
  revert i bits. induction count as [|count IH]; intros i bits; cbn [BIP39.checksumLoop].
  - right. exists EmptyString. now rewrite append_nil_r.
  - destruct hash as [|h0 hash]; [now left|].
    change (get (h0 :: hash) 0) with (Ok h0). cbn [bind].
    match goal with
    | |- context [BIP39.checksumLoop _ count (i + 1) ?b] =>
        destruct (IH (i + 1) b) as [Hthrow | [tail Htail]]
    end; [now left|].
    right. eexists. rewrite Htail, <- append_assoc. reflexivity.
Qed.

Lemma getWord_listed (index : Z) (w : string) :
  BIP39WordList.getWord index = Ok w -> In w BIP39WordList.words.
Proof.
  unfold BIP39WordList.getWord.
  destruct ((index <? 0) || (size BIP39WordList.words <=? index)); [discriminate|].
  destruct (nth_error BIP39WordList.words (Z.to_nat index)) eqn:Hnth; [|discriminate].
  intros [= <-]. eapply nth_error_In, Hnth.
Qed.

Lemma wordLoop_listed (bits : string) (count : nat) (i : Z) (ws ws' : list string) :
  BIP39.wordLoop bits count i ws = Ok ws' ->
  exists new,
    ws' = ws ++ new /\ List.length new = count /\
    Forall (fun w => In w BIP39WordList.words) new.
Proof.
  revert i ws. induction count as [|count IH]; intros i ws; cbn [BIP39.wordLoop].
  - intros [= <-]. exists []. now rewrite app_nil_r.
  - destruct (BIP39WordList.getWord _) as [w|e] eqn:Hw; cbn [bind]; [|discriminate].
    intros Hloop. apply IH in Hloop as (new & -> & Hlen & Hall).
    exists (w :: new). rewrite <- app_assoc. cbn [app List.length].
    repeat split; [lia|]. constructor; [|assumption].
    now apply getWord_listed in Hw.
Qed.
End EntropyProofs.

(** A phrase made of 12 or 24 words of the list validates. *)
Lemma validateMnemonic_join `{JavaText} `{!JavaTextSpec} (ws : list string) :
  List.length ws = 12%nat \/ List.length ws = 24%nat ->
  Forall (fun w => In w BIP39WordList.words) ws ->
  normalizeMnemonic (joinToString " " ws) = joinToString " " ws /\
  split " " (joinToString " " ws) = ws /\
  BIP39.validateMnemonic (joinToString " " ws) = true.
Proof.
  intros Hlen Hall.
  assert (Hp : isPhrase ws).
  { split.
    - intros ->. cbn in Hlen. lia.
    - eapply Forall_impl; [|exact Hall]. intros x Hx.
      exact (proj1 (Forall_forall _ _) words_are_words x Hx). }
  split; [now apply normalizeMnemonic_join|]. split; [now apply split_join|].
  unfold BIP39.validateMnemonic. cbv zeta.
  rewrite normalizeMnemonic_join, split_join by assumption.
  replace (negb (size ws =? 12) && negb (size ws =? 24)) with false
    by (unfold size; destruct Hlen as [-> | ->]; reflexivity).
  apply forallb_forall. intros x Hx. apply isValidWord_listed.
  exact (proj1 (Forall_forall _ _) Hall x Hx).
Qed.

(** X15. Whatever [entropyToMnemonic] returns for 16 or 32 bytes of
    entropy is a phrase of 12 or 24 words of the list separated by single
    spaces, is its own normal form, and passes [validateMnemonic]. *)
Theorem entropyToMnemonic_validates `{JavaText} `{JCA} `{!JavaTextSpec}
    (entropy : bytes) (phrase : string) :
  size entropy = 16 \/ size entropy = 32 ->
  BIP39.entropyToMnemonic entropy = Ok phrase ->
  size (split " " phrase) = (if size entropy =? 16 then 12 else 24) /\
  Forall (fun w => In w BIP39WordList.words) (split " " phrase) /\
  normalizeMnemonic phrase = phrase /\
  BIP39.validateMnemonic phrase = true.
Proof.
  intros Hsize. unfold BIP39.entropyToMnemonic. cbv zeta.
  rewrite entropy_bits. cbn [append].
  destruct (BIP39.checksumLoop _ _ _ _) as [bits|e] eqn:Hbits; cbn [bind]; [|discriminate].
  apply checksumLoop_length in Hbits. rewrite entropy_bits_length in Hbits.
  destruct (BIP39.wordLoop _ _ _ _) as [ws|e] eqn:Hws; cbn [bind]; [|discriminate].
  apply wordLoop_listed in Hws as (new & -> & Hlen & Hall). cbn [app] in *.
  intros [= <-].
  assert (Hcount : List.length new = if size entropy =? 16 then 12%nat else 24%nat).
  { rewrite Hlen, Hbits.
    destruct Hsize as [Hs | Hs]; rewrite Hs; unfold size in Hs;
      [replace (List.length entropy) with 16%nat by lia
      |replace (List.length entropy) with 32%nat by lia]; reflexivity. }
  destruct (validateMnemonic_join new) as (Hnorm & Hsplit & Hvalid); [|assumption|].
  { destruct (size entropy =? 16); [now left|now right]. }
  rewrite Hsplit. repeat split; try assumption.
  unfold size at 1. rewrite Hcount. now destruct (size entropy =? 16).
Qed.

Lemma entropyToMnemonic_validates_witness :
  size (split " " "abandon abandon abandon abandon abandon abandon abandon abandon abandon abandon abandon abandon") = 12 /\
  Forall (fun w => In w BIP39WordList.words)
    (split " " "abandon abandon abandon abandon abandon abandon abandon abandon abandon abandon abandon abandon") /\
  @normalizeMnemonic Model.text
    "abandon abandon abandon abandon abandon abandon abandon abandon abandon abandon abandon abandon"
  = "abandon abandon abandon abandon abandon abandon abandon abandon abandon abandon abandon abandon"%string /\
  @BIP39.validateMnemonic Model.text
    "abandon abandon abandon abandon abandon abandon abandon abandon abandon abandon abandon abandon"
  = true.
Proof.
  apply (@entropyToMnemonic_validates Model.text Model.jca model_text_spec (zeros 16)).
  - left. reflexivity.
  - vm_compute. reflexivity.
Defined.

(** *** The first word *)

Lemma toInt2_byteBits (b : Byte.byte) (s : string) :
  toInt2 0 (byteBits b ++ s) = toInt2 (unsigned b) s.
Proof. destruct b; reflexivity. Qed.

Lemma substring_byteBits (b : Byte.byte) (s : string) :
  substring 0 11 (byteBits b ++ s) = (byteBits b ++ substring 0 3 s)%string.
Proof. destruct b; reflexivity. Qed.

Lemma toInt2_top3 (b : Byte.byte) (acc : Z) (s : string) :
  toInt2 acc (substring 0 3 (byteBits b ++ s)) = 8 * acc + unsigned b / 32.
Proof.
  destruct b;
    match goal with
    | |- toInt2 _ (substring 0 3 (byteBits ?x ++ _)) = _ + ?q =>
        let v := eval vm_compute in (byteBits x) in
        let w := eval vm_compute in q in
        change (byteBits x) with v; change q with w
    end;
    cbn [append substring toInt2 Ascii.eqb Bool.eqb]; lia.
Qed.

(** X16. The first word is taken at the index that the first eleven bits
    of the entropy spell, [8 * byte0 + byte1 / 32]; as the list holds 203
    words, every entropy for which that index is 203 or more, so every
    entropy whose first byte is 26 or more, makes [entropyToMnemonic] throw
    [IndexOutOfBoundsException]. *)
Theorem entropyToMnemonic_first_word `{JavaText} `{JCA}
    (b0 b1 : Byte.byte) (rest : bytes) :
  203 <= 8 * unsigned b0 + unsigned b1 / 32 ->
  BIP39.entropyToMnemonic (b0 :: b1 :: rest) = Throw IndexOutOfBoundsException.
Proof.
  intros Hindex. unfold BIP39.entropyToMnemonic. cbv zeta.
  rewrite entropy_bits. cbn [append fold_right].
  set (more := fold_right (fun b s => (byteBits b ++ s)%string) EmptyString rest).
  destruct (checksumLoop_outcome (sha256 (b0 :: b1 :: rest))
              (Z.to_nat (size (b0 :: b1 :: rest) / 4)) 0
              (byteBits b0 ++ byteBits b1 ++ more)%string)
    as [-> | [tail ->]]; [reflexivity|].
  cbn [bind]. rewrite <- !append_assoc.
  set (bits := (byteBits b0 ++ byteBits b1 ++ more ++ tail)%string).
  assert (Hlen : (16 <= String.length bits)%nat)
    by (subst bits; rewrite !length_append, !byteBits_length; lia).
  destruct (String.length bits / 11)%nat as [|count] eqn:Hcount.
  { apply Nat.div_small_iff in Hcount; lia. }
  cbn [BIP39.wordLoop]. change (Z.to_nat (0 * 11)) with O.
  subst bits. rewrite substring_byteBits, toInt2_byteBits, toInt2_top3.
  now rewrite getWord_out_of_range by lia.
Qed.

Lemma entropyToMnemonic_first_word_witness :
  @BIP39.entropyToMnemonic Model.jca (Byte.x1a :: Byte.x00 :: zeros 14)
  = Throw IndexOutOfBoundsException.
Proof.
  apply (@entropyToMnemonic_first_word Model.text Model.jca Byte.x1a Byte.x00 (zeros 14)).
  vm_compute. discriminate.
Defined.

(* ------------------------------------------------------------------ *)
(** ** The client: what holds in every state it can reach *)

Lemma backoff_values (n : nat) :
  (n < 5)%nat -> In (backoff n) [1000; 2000; 4000; 8000; 16000].
Proof.
  intros Hn. do 5 (destruct n as [|n]; [cbn; tauto|]). lia.
Qed.

Lemma shouldRetry_true (p : WsReconnectPolicy.t) :
  WsReconnectPolicy.shouldRetry p = true ->
  WsReconnectPolicy.isAuthExpired p = false /\
  WsReconnectPolicy.isNetworkAvailable p = true /\
  WsReconnectPolicy.attemptCount p < 5.
Proof.
  unfold WsReconnectPolicy.shouldRetry.
  destruct (WsReconnectPolicy.isAuthExpired p); [discriminate|].
  destruct (WsReconnectPolicy.isNetworkAvailable p); [|discriminate].
  cbn [negb]. intros Hlt. apply Z.ltb_lt in Hlt. now repeat split.
Qed.

Lemma step_network (c : t) (e : Event) :
  WsReconnectPolicy.isNetworkAvailable (reconnectPolicy (step c e))
  = WsReconnectPolicy.isNetworkAvailable (reconnectPolicy c).
Proof.
  destruct e; cbn [step]; try reflexivity.
  - now destruct (connect_policy c) as [-> _].
  - unfold onFailure, attemptReconnect. cbn [reconnectPolicy].
    now destruct (WsReconnectPolicy.shouldRetry (reconnectPolicy c)).
  - destruct (start_policy c) as (-> & _). now destruct (launched c).
  - now destruct (resume_policy c) as [-> _].
Qed.

Lemma run_network (es : list Event) (c : t) :
  WsReconnectPolicy.isNetworkAvailable (reconnectPolicy (run c es))
  = WsReconnectPolicy.isNetworkAvailable (reconnectPolicy c).
Proof.
  revert c. induction es as [|e es IH]; intros c; [reflexivity|].
  cbn [run fold_left]. fold (run (step c e) es). now rewrite IH, step_network.
Qed.

Lemma run_app (c : t) (es es' : list Event) : run c (es ++ es') = run (run c es) es'.
Proof. unfold run. apply fold_left_app. Qed.

(** An event and, for a failure, the start of the coroutine it launched. *)
Lemma step_invariant (c : t) (e : Event) :
  clientInvariant c -> clientInvariant (run c (promptly [e])).
Proof.
  intros ((n & Hn & Hle) & Hnet & Hdel & Hlaunched). unfold clientInvariant.
  destruct e; cbn [promptly flat_map app run fold_left step].
  - destruct (connect_policy c) as [-> ->]. destruct (connect_pending c) as [-> _].
    repeat split; eauto.
  - rewrite disconnect_delays. cbn [disconnect reconnectPolicy launched].
    repeat split; eauto.
  - unfold delays. cbn [markAuthExpired actions reconnectPolicy launched
                        WsReconnectPolicy.markAuthExpired
                        WsReconnectPolicy.attemptCount
                        WsReconnectPolicy.isNetworkAvailable].
    repeat split; eauto.
  - unfold delays at 1. cbn [onOpen actions reconnectPolicy launched].
    rewrite delays_app, app_nil_r.
    cbn [WsReconnectPolicy.reset WsReconnectPolicy.attemptCount
         WsReconnectPolicy.isNetworkAvailable].
    repeat split; try assumption.
    exists 0%nat. split; [reflexivity|lia].
  - destruct (WsReconnectPolicy.shouldRetry (reconnectPolicy c)) eqn:Hretry.
    + apply shouldRetry_true in Hretry as (Hauth & _ & Hlt).
      rewrite (start_onFailure c n Hn ltac:(lia) Hauth Hnet).
      unfold delays at 1. cbn [actions reconnectPolicy launched].
      rewrite delays_app. cbn [WsReconnectPolicy.attemptCount
                               WsReconnectPolicy.isNetworkAvailable].
      repeat split; try assumption.
      * exists (S n). split; [reflexivity|lia].
      * apply Forall_app. split; [assumption|].
        constructor; [apply backoff_values; lia|constructor].
    + rewrite (onFailure_no_retry c Hretry). unfold start. cbn [launched].
      rewrite Hlaunched. unfold delays. cbn [actions reconnectPolicy launched].
      repeat split; eauto.
  - unfold delays. cbn [onClosed actions reconnectPolicy launched]. repeat split; eauto.
  - unfold start. rewrite Hlaunched. repeat split; eauto.
  - destruct (resume_policy c) as [-> ->]. destruct (resume_pending c) as [-> _].
    repeat split; eauto.
Qed.

Lemma run_invariant (es : list Event) (c : t) :
  clientInvariant c -> clientInvariant (run c (promptly es)).
Proof.
  revert c. induction es as [|e es IH]; intros c Hc; [exact Hc|].
  replace (promptly (e :: es)) with (promptly [e] ++ promptly es)
    by (unfold promptly; cbn [flat_map]; now rewrite app_nil_r).
  rewrite run_app. apply IH, step_invariant, Hc.
Qed.

(** Sockets opened, and failures while a retry is due, leave the policy
    alone; the failures launch one coroutine each. *)
Lemma run_connects (n : nat) (c : t) :
  reconnectPolicy (run c (repeat Connect n)) = reconnectPolicy c /\
  delays (run c (repeat Connect n)) = delays c /\
  launched (run c (repeat Connect n)) = launched c.
Proof.
  revert c. induction n as [|n IH]; intros c; [now repeat split|].
  cbn [repeat run fold_left step]. fold (run (connect c) (repeat Connect n)).
  destruct (IH (connect c)) as (-> & -> & ->).
  destruct (connect_policy c) as [-> ->]. now destruct (connect_pending c) as [-> _].
Qed.

Lemma run_failures (n : nat) (c : t) :
  WsReconnectPolicy.shouldRetry (reconnectPolicy c) = true ->
  reconnectPolicy (run c (repeat OnFailure n)) = reconnectPolicy c /\
  delays (run c (repeat OnFailure n)) = delays c /\
  launched (run c (repeat OnFailure n)) = (launched c + n)%nat.
Proof.
  revert c. induction n as [|n IH]; intros c Hretry.
  - repeat split. cbn [repeat run fold_left]. lia.
  - cbn [repeat run fold_left step]. fold (run (onFailure c) (repeat OnFailure n)).
    rewrite (onFailure_retry c Hretry).
    match goal with
    | |- context [run ?x _] => destruct (IH x Hretry) as (-> & -> & ->)
    end.
    cbn [reconnectPolicy launched]. repeat split. lia.
Qed.

(** Coroutines that start one after the other take the delays of
    consecutive attempts, whatever the counter has reached. *)
Lemma run_starts (n k : nat) (c : t) :
  WsReconnectPolicy.attemptCount (reconnectPolicy c) = Z.of_nat k ->
  (k + n <= 31)%nat -> (n <= launched c)%nat ->
  WsReconnectPolicy.attemptCount (reconnectPolicy (run c (repeat Start n)))
  = Z.of_nat (k + n) /\
  delays (run c (repeat Start n)) = delays c ++ map backoff (seq k n).
Proof.
  revert k c. induction n as [|n IH]; intros k c Hk Hle Hlaunched.
  - cbn [repeat run fold_left seq map]. rewrite Nat.add_0_r, app_nil_r. now split.
  - cbn [repeat run fold_left step]. fold (run (start c) (repeat Start n)).
    destruct (launched c) as [|m] eqn:Hm; [lia|].
    assert (Hstart : start c
                     = {| webSocket := webSocket c;
                          connectionState := connectionState c;
                          reconnectPolicy :=
                            {| WsReconnectPolicy.attemptCount := Z.of_nat (S k);
                               WsReconnectPolicy.isAuthExpired :=
                                 WsReconnectPolicy.isAuthExpired (reconnectPolicy c);
                               WsReconnectPolicy.isNetworkAvailable :=
                                 WsReconnectPolicy.isNetworkAvailable (reconnectPolicy c) |};
                          launched := m;
                          suspended := suspended c ++ [backoff k];
                          actions := actions c ++ [Delay (backoff k)] |}).
    { unfold start. rewrite Hm. now rewrite (getDelayMs_backoff _ k) by (try assumption; lia). }
    rewrite Hstart.
    match goal with
    | |- context [run ?x _] => destruct (IH (S k) x) as [Hcount Hdelays]
    end; cbn [reconnectPolicy launched WsReconnectPolicy.attemptCount]; try lia.
    rewrite Hcount, Hdelays. split; [f_equal; lia|].
    unfold delays at 1. cbn [actions]. rewrite delays_app, <- app_assoc. reflexivity.
Qed.

(** X17. When every reconnect coroutine starts as soon as it is launched,
    the client, from its initial state and by whatever sequence of calls,
    callbacks and resumptions, keeps the attempt counter between 0 and 5
    and issues delays of 1000, 2000, 4000, 8000 and 16000 ms only, below
    the cap.  Nothing in the code makes coroutines start promptly: when
    [n] sockets fail before any of the coroutines launched for them
    starts, all [n] pass the check, the counter reaches [n], past
    [RECONNECT_MAX_ATTEMPTS], and the delays go on to the cap of 30000 ms.
    In every schedule the network flag stays set, since the client never
    calls [setNetworkAvailable]. *)
Theorem client_reachable (es : list Event) (n : nat) :
  (launched (run new (promptly es)) = 0%nat /\
   0 <= WsReconnectPolicy.attemptCount (reconnectPolicy (run new (promptly es))) <= 5 /\
   Forall (fun ms => In ms [1000; 2000; 4000; 8000; 16000] /\
                     ms < Constants.RECONNECT_MAX_DELAY_MS)
     (delays (run new (promptly es)))) /\
  WsReconnectPolicy.isNetworkAvailable (reconnectPolicy (run new es)) = true /\
  ((n <= 31)%nat ->
   WsReconnectPolicy.attemptCount (reconnectPolicy (run new (racing n))) = Z.of_nat n /\
   delays (run new (racing n))
   = map (fun k => Z.min (1000 * 2 ^ Z.of_nat k) 30000) (seq 0 n)).
Proof.
  split; [|split].
  - destruct (run_invariant es new) as ((k & Hk & Hle) & Hnet & Hdel & Hlaunched).
    { repeat split; [exists 0%nat; split; [reflexivity|lia]|constructor]. }
    rewrite Hk. repeat split; try lia; try assumption.
    eapply Forall_impl; [|exact Hdel]. intros ms Hin. split; [exact Hin|].
    unfold Constants.RECONNECT_MAX_DELAY_MS. cbn in Hin.
    destruct Hin as [<- | [<- | [<- | [<- | [<- | []]]]]]; lia.
  - now rewrite run_network.
  - intros Hn. unfold racing. rewrite !run_app.
    destruct (run_connects n new) as (Hpol & Hdel & Hlaunched).
    destruct (run_failures n (run new (repeat Connect n))) as (Hpol' & Hdel' & Hlaunched').
    { now rewrite Hpol. }
    destruct (run_starts n 0 (run (run new (repeat Connect n)) (repeat OnFailure n)))
      as [Hcount Hdelays].
    + now rewrite Hpol', Hpol.
    + lia.
    + rewrite Hlaunched'. lia.
    + split; [exact Hcount|]. rewrite Hdelays, Hdel', Hdel. reflexivity.
Qed.

(** X18. For the policy on its own: after [markAuthExpired], whatever
    calls follow, as long as [reset] is not among them, the auth-expired
    flag stays set, [isAuthenticationRequired] answers [true] and
    [shouldRetry] answers [false]; restoring the network does not bring
    retries back. *)
Theorem authExpired_until_reset (p : WsReconnectPolicy.t) (cs : list PolicyCalls.Call) :
  forallb (fun c => negb (PolicyCalls.isReset c)) cs = true ->
  WsReconnectPolicy.isAuthenticationRequired
    (PolicyCalls.calls (WsReconnectPolicy.markAuthExpired p) cs) = true /\
  WsReconnectPolicy.shouldRetry
    (PolicyCalls.calls (WsReconnectPolicy.markAuthExpired p) cs) = false /\
  WsReconnectPolicy.shouldRetry
    (WsReconnectPolicy.setNetworkAvailable
       (PolicyCalls.calls (WsReconnectPolicy.markAuthExpired p) cs) true) = false.
Proof.
  intros Hcs.
  assert (Hflag : forall q, WsReconnectPolicy.isAuthExpired q = true ->
            WsReconnectPolicy.isAuthExpired (PolicyCalls.calls q cs) = true).
  { clear p. induction cs as [|c cs IH]; intros q Hq; [exact Hq|].
    cbn [forallb] in Hcs. apply andb_prop in Hcs as [Hc Hcs].
    cbn [PolicyCalls.calls fold_left]. apply (IH Hcs).
    destruct c; cbn in Hc |- *; try assumption; discriminate. }
  specialize (Hflag (WsReconnectPolicy.markAuthExpired p) eq_refl).
  unfold WsReconnectPolicy.isAuthenticationRequired, WsReconnectPolicy.shouldRetry.
  cbn [WsReconnectPolicy.setNetworkAvailable WsReconnectPolicy.isAuthExpired].
  now rewrite Hflag.
Qed.

Lemma authExpired_until_reset_witness :
  WsReconnectPolicy.shouldRetry
    (PolicyCalls.calls (WsReconnectPolicy.markAuthExpired WsReconnectPolicy.new)
       [PolicyCalls.SetNetworkAvailable false; PolicyCalls.GetDelayMs;
        PolicyCalls.SetNetworkAvailable true]) = false.
Proof.
  apply (authExpired_until_reset WsReconnectPolicy.new
           [PolicyCalls.SetNetworkAvailable false; PolicyCalls.GetDelayMs;
            PolicyCalls.SetNetworkAvailable true]).
  reflexivity.
Defined.

(** X19. [disconnect] drops the socket and moves to [DISCONNECTED], and
    leaves the suspended reconnect coroutines where they are: when one is
    pending, its resumption after the disconnect opens a new socket and
    moves the client to [CONNECTING]. *)
Theorem disconnect_keeps_reconnect (c : t) (ms : Z) (rest : list Z) :
  suspended c = ms :: rest ->
  connectionState (disconnect c) = DISCONNECTED /\
  webSocket (disconnect c) = None /\
  suspended (disconnect c) = ms :: rest /\
  connectionState (resume (disconnect c)) = CONNECTING /\
  webSocket (resume (disconnect c)) = Some (created (disconnect c)) /\
  actions (resume (disconnect c)) = actions (disconnect c) ++ [NewWebSocket].
Proof.
  intros Hsusp. unfold resume. cbn [disconnect suspended connectionState webSocket].
  rewrite Hsusp. unfold connect. cbn [connectionState isConnected].
  repeat split.
Qed.

Lemma disconnect_keeps_reconnect_witness :
  connectionState (run new [Connect; OnFailure; Start; Disconnect]) = DISCONNECTED /\
  connectionState (run new [Connect; OnFailure; Start; Disconnect; Resume]) = CONNECTING /\
  actions (run new [Connect; OnFailure; Start; Disconnect; Resume])
  = [NewWebSocket; Delay 1000; Close; NewWebSocket].
Proof.
  destruct (disconnect_keeps_reconnect (run new [Connect; OnFailure; Start]) 1000 [] eq_refl)
    as (Hstate & _ & _ & Hre & _ & Hact).
  split; [exact Hstate|]. split; [exact Hre|exact Hact].
Defined.

(** X20. While the counter is between 0 and 30, [getDelayMs] returns
    between 1000 and 30000 ms, never less for a larger counter, and exactly
    30000 ms from the counter 5 on; the counter goes up by one. *)
Theorem getDelayMs_range (p q : WsReconnectPolicy.t) :
  0 <= WsReconnectPolicy.attemptCount p <= WsReconnectPolicy.attemptCount q ->
  WsReconnectPolicy.attemptCount q <= 30 ->
  1000 <= fst (WsReconnectPolicy.getDelayMs p) /\
  fst (WsReconnectPolicy.getDelayMs p) <= fst (WsReconnectPolicy.getDelayMs q) /\
  fst (WsReconnectPolicy.getDelayMs q) <= 30000 /\
  (5 <= WsReconnectPolicy.attemptCount p -> fst (WsReconnectPolicy.getDelayMs p) = 30000) /\
  WsReconnectPolicy.attemptCount (snd (WsReconnectPolicy.getDelayMs p))
  = WsReconnectPolicy.attemptCount p + 1.
Proof.
  intros Hpq Hq.
  rewrite (getDelayMs_backoff p (Z.to_nat (WsReconnectPolicy.attemptCount p))) by lia.
  rewrite (getDelayMs_backoff q (Z.to_nat (WsReconnectPolicy.attemptCount q))) by lia.
  cbn [fst snd WsReconnectPolicy.attemptCount]. unfold backoff.
  unfold Constants.RECONNECT_BASE_DELAY_MS, Constants.RECONNECT_MAX_DELAY_MS.
  rewrite !Z2Nat.id by lia.
  set (a := WsReconnectPolicy.attemptCount p) in *.
  set (b := WsReconnectPolicy.attemptCount q) in *.
  assert (Ha : 1 <= 2 ^ a) by (pose proof (Z.pow_pos_nonneg 2 a); lia).
  assert (Hab : 2 ^ a <= 2 ^ b) by (apply Z.pow_le_mono_r; lia).
  repeat split; try lia.
  intros H5. assert (2 ^ 5 <= 2 ^ a) by (apply Z.pow_le_mono_r; lia).
  change (2 ^ 5) with 32 in *. lia.
Qed.

Lemma getDelayMs_range_witness :
  1000 <= fst (WsReconnectPolicy.getDelayMs WsReconnectPolicy.new) /\
  fst (WsReconnectPolicy.getDelayMs WsReconnectPolicy.new)
  <= fst (WsReconnectPolicy.getDelayMs (snd (WsReconnectPolicy.getDelayMs WsReconnectPolicy.new))).
Proof.
  destruct (getDelayMs_range WsReconnectPolicy.new
              (snd (WsReconnectPolicy.getDelayMs WsReconnectPolicy.new)))
    as (Hlow & Hmono & _).
  - vm_compute. split; discriminate.
  - vm_compute. discriminate.
  - split; [exact Hlow|exact Hmono].
Defined.

(* ------------------------------------------------------------------ *)
(** ** The small platform's decoder and cipher *)

Lemma toByte_u (b : Byte.byte) : toByte (Base64.u b) = b.
Proof. destruct b; reflexivity. Qed.

Lemma digit_eqb_pad (i : Z) : 0 <= i < 64 -> Ascii.eqb (Base64.digit i) "=" = false.
Proof. intros Hi. apply Ascii.eqb_neq. now apply digit_not_pad. Qed.

Lemma sextets_back (a b c : Z) :
  0 <= a < 256 -> 0 <= b < 256 -> 0 <= c < 256 ->
  a / 4 * 4 + (a mod 4 * 16 + b / 16) / 16 = a /\
  (a mod 4 * 16 + b / 16) mod 16 * 16 + (b mod 16 * 4 + c / 64) / 4 = b /\
  (b mod 16 * 4 + c / 64) mod 4 * 64 + c mod 64 = c.
Proof. intros Ha Hb Hc. Z.to_euclidean_division_equations. lia. Qed.

Lemma decode_encodeToString (input : bytes) :
  ModelAndroid.decode (Base64.encodeToString input) = Some input.
Proof.
  assert (Hgen : forall n input, (List.length input <= n)%nat ->
                   ModelAndroid.decode (Base64.encodeToString input) = Some input).
  { clear input. induction n as [|n IH]; intros input Hlen.
    - destruct input; [reflexivity|cbn in Hlen; lia].
    - destruct input as [|a [|b [|c rest]]]; [reflexivity| | |];
        cbn [Base64.encodeToString ModelAndroid.decode]; unfold ModelAndroid.sextet;
        pose proof (u_range a) as Ha.
      + rewrite !base64Value_digit by sextet_range.
        destruct (sextets_back (Base64.u a) 0 0 Ha ltac:(lia) ltac:(lia)) as (H1 & _).
        change (0 / 16) with 0 in H1. rewrite Z.add_0_r in H1.
        cbn [Ascii.eqb Bool.eqb]. now rewrite H1, toByte_u.
      + pose proof (u_range b) as Hb.
        rewrite (digit_eqb_pad (Base64.u b mod 16 * 4)) by sextet_range.
        rewrite !base64Value_digit by sextet_range.
        destruct (sextets_back (Base64.u a) (Base64.u b) 0 Ha Hb ltac:(lia)) as (H1 & H2 & _).
        change (0 / 64) with 0 in H2. rewrite Z.add_0_r in H2.
        cbn [Ascii.eqb Bool.eqb]. now rewrite H1, H2, !toByte_u.
      + pose proof (u_range b) as Hb. pose proof (u_range c) as Hc.
        rewrite (digit_eqb_pad (Base64.u b mod 16 * 4 + Base64.u c / 64)) by sextet_range.
        rewrite (digit_eqb_pad (Base64.u c mod 64)) by sextet_range.
        rewrite !base64Value_digit by sextet_range.
        destruct (sextets_back (Base64.u a) (Base64.u b) (Base64.u c) Ha Hb Hc)
          as (H1 & H2 & H3).
        rewrite H1, H2, H3, !toByte_u.
        rewrite IH by (cbn [List.length] in Hlen; lia). reflexivity. }
  now apply (Hgen (List.length input)).
Qed.

Lemma model_android_spec : @AndroidPlatformSpec ModelAndroid.android.
Proof.
  constructor; cbn [gcmEncrypt gcmDecrypt base64Decode ModelAndroid.android].
  - intros key iv plaintext. unfold ModelAndroid.unseal, ModelAndroid.seal.
    set (tag := Model.fit 16 (Model.addBytes (Model.fit 16 key) (Model.fit 16 iv))).
    assert (Hlen : List.length tag = 16%nat).
    { pose proof (size_fit 16 (Model.addBytes (Model.fit 16 key) (Model.fit 16 iv))
                    ltac:(lia)) as Hs. unfold size in Hs. subst tag. lia. }
    rewrite firstn_app, Hlen, firstn_all2 by lia. cbn [Nat.sub firstn].
    rewrite app_nil_r, eqbBytes_refl.
    rewrite skipn_app, Hlen, skipn_all2 by lia. reflexivity.
  - apply decode_encodeToString.
Qed.

(* ------------------------------------------------------------------ *)
(** ** KeystoreManager *)

Lemma size_nextBytes (r : SecureRandom) (buffer : bytes) :
  size (fst (nextBytes r buffer)) = size buffer.
Proof. unfold nextBytes, size. cbn [fst]. now rewrite length_map, length_seq. Qed.

Lemma copyOfRange_head (iv rest : bytes) :
  size iv = 12 -> copyOfRange (iv ++ rest) 0 12 = Success iv.
Proof.
  intros Hiv. unfold copyOfRange. rewrite size_app. pose proof (size_nonneg rest).
  destruct (Z.ltb_spec (size iv + size rest) 12); [lia|].
  change (12 <? 0) with false. change (0 <? 0) with false. cbv iota.
  change (Z.to_nat (12 - 0)) with 12%nat. change (Z.to_nat 0) with O.
  f_equal. rewrite skipn_O. unfold size in Hiv.
  rewrite firstn_app. replace (12 - List.length iv)%nat with O by lia.
  rewrite firstn_O, app_nil_r. apply firstn_all2. lia.
Qed.

Lemma copyOfRange_tail (iv rest : bytes) :
  size iv = 12 -> copyOfRange (iv ++ rest) 12 (size (iv ++ rest)) = Success rest.
Proof.
  intros Hiv. unfold copyOfRange. rewrite size_app. pose proof (size_nonneg rest).
  destruct (Z.ltb_spec (size iv + size rest) (size iv + size rest)); [lia|].
  destruct (Z.ltb_spec (size iv + size rest) 12); [lia|].
  change (12 <? 0) with false. cbv iota.
  change (Z.to_nat 12) with 12%nat. f_equal. unfold size in *.
  rewrite skipn_app. replace (12 - List.length iv)%nat with O by lia.
  rewrite skipn_all2 by lia. cbn [skipn app]. apply firstn_all2. lia.
Qed.

Lemma copyOfRange_short (a : bytes) :
  size a < 12 -> copyOfRange a 0 12 = Failure (Thrown IndexOutOfBoundsException).
Proof.
  intros Ha. unfold copyOfRange. destruct (Z.ltb_spec (size a) 12); [|lia].
  reflexivity.
Qed.

Section KeystoreProofs.
Context `{AndroidPlatform} `{!AndroidPlatformSpec}.

Lemma getOrCreateKey_entry (k : KeystoreManager.t) :
  KeystoreManager.entry (snd (KeystoreManager.getOrCreateKey k))
  = Some (fst (KeystoreManager.getOrCreateKey k)) /\
  (forall key, KeystoreManager.entry k = Some key ->
               KeystoreManager.getOrCreateKey k = (key, k)).
Proof.
  unfold KeystoreManager.getOrCreateKey.
  destruct (KeystoreManager.entry k) as [key|] eqn:Hentry.
  - split; [exact Hentry|]. now intros key' [= <-].
  - split; [reflexivity|discriminate].
Qed.

Lemma wrapKey_shape (v : bytes) (k : KeystoreManager.t) :
  exists key iv,
    size iv = 12 /\
    KeystoreManager.entry (snd (KeystoreManager.wrapKey v k)) = Some key /\
    fst (KeystoreManager.wrapKey v k) = iv ++ gcmEncrypt key iv v /\
    (forall key0, KeystoreManager.entry k = Some key0 -> key = key0).
Proof.
  unfold KeystoreManager.wrapKey.
  destruct (getOrCreateKey_entry k) as [Hentry Hkeep].
  destruct (KeystoreManager.getOrCreateKey k) as [key k1]. cbn [fst snd] in *.
  pose proof (size_nextBytes (KeystoreManager.random k1) (zeros 12)) as Hiv.
  destruct (nextBytes (KeystoreManager.random k1) (zeros 12)) as [iv random'].
  cbn [fst snd KeystoreManager.entry] in *.
  exists key, iv. rewrite size_zeros in Hiv by lia. repeat split; try assumption.
  intros key0 Hk. specialize (Hkeep key0 Hk). congruence.
Qed.

Lemma unwrapKey_wrapKey_eq (v : bytes) (k : KeystoreManager.t) :
  KeystoreManager.unwrapKey (fst (KeystoreManager.wrapKey v k))
    (snd (KeystoreManager.wrapKey v k))
  = (Success v, snd (KeystoreManager.wrapKey v k)).
Proof.
  destruct (wrapKey_shape v k) as (key & iv & Hiv & Hentry & Hwrapped & _).
  rewrite Hwrapped. unfold KeystoreManager.unwrapKey.
  rewrite copyOfRange_head, copyOfRange_tail by assumption.
  destruct (getOrCreateKey_entry (snd (KeystoreManager.wrapKey v k))) as [_ Hkeep].
  rewrite (Hkeep key Hentry). now rewrite gcmDecrypt_gcmEncrypt.
Qed.
End KeystoreProofs.

(** X21. [unwrapKey] gives back what [wrapKey] wrapped: the wrapped form
    is a 12-byte IV followed by the ciphertext, a key is in the keystore
    afterwards (the one that was there, if there was one), and unwrapping
    in that state returns the key material and changes nothing. *)
Theorem unwrapKey_wrapKey `{AndroidPlatform} `{!AndroidPlatformSpec}
    (keyToWrap : bytes) (k : KeystoreManager.t) :
  KeystoreManager.unwrapKey (fst (KeystoreManager.wrapKey keyToWrap k))
    (snd (KeystoreManager.wrapKey keyToWrap k))
  = (Success keyToWrap, snd (KeystoreManager.wrapKey keyToWrap k)) /\
  exists key iv,
    size iv = 12 /\
    fst (KeystoreManager.wrapKey keyToWrap k) = iv ++ gcmEncrypt key iv keyToWrap /\
    KeystoreManager.entry (snd (KeystoreManager.wrapKey keyToWrap k)) = Some key /\
    (forall key0, KeystoreManager.entry k = Some key0 -> key = key0).
Proof.
  split; [apply unwrapKey_wrapKey_eq|].
  destruct (wrapKey_shape keyToWrap k) as (key & iv & Hiv & Hentry & Hwrapped & Hkeep).
  exists key, iv. now repeat split.
Qed.

Lemma unwrapKey_wrapKey_witness :
  @KeystoreManager.unwrapKey ModelAndroid.android
    (fst (@KeystoreManager.wrapKey ModelAndroid.android [Byte.x41]
            {| KeystoreManager.entry := None;
               KeystoreManager.random := {| tape := fun _ => Byte.x07; position := 0 |} |}))
    (snd (@KeystoreManager.wrapKey ModelAndroid.android [Byte.x41]
            {| KeystoreManager.entry := None;
               KeystoreManager.random := {| tape := fun _ => Byte.x07; position := 0 |} |}))
  = (Success [Byte.x41],
     snd (@KeystoreManager.wrapKey ModelAndroid.android [Byte.x41]
            {| KeystoreManager.entry := None;
               KeystoreManager.random := {| tape := fun _ => Byte.x07; position := 0 |} |})).
Proof.
  apply (@unwrapKey_wrapKey ModelAndroid.android model_android_spec).
Defined.

(** X22. [unwrapKey] on fewer than 12 bytes fails at [copyOfRange] and
    leaves the keystore alone.  On 12 bytes or more it never reports a
    missing key: when the alias has no entry it generates a key and stores
    it, so a key is in the keystore afterwards, also when the tag then
    fails to verify.  After [deleteKey] the key that the next use finds is
    a new one, drawn from the generator. *)
Theorem unwrapKey_edges `{AndroidPlatform} (wrappedKey : bytes) (k : KeystoreManager.t) :
  KeystoreManager.unwrapKey wrappedKey k
  = (if size wrappedKey <? 12 then (Failure (Thrown IndexOutOfBoundsException), k)
     else
       let iv := firstn 12 wrappedKey in
       let ciphertext := skipn 12 wrappedKey in
       let created := KeystoreManager.getOrCreateKey k in
       match gcmDecrypt (fst created) iv ciphertext with
       | Some plaintext => (Success plaintext, snd created)
       | None => (Failure AEADBadTagException, snd created)
       end) /\
  KeystoreManager.entry (snd (KeystoreManager.getOrCreateKey k))
  = Some (fst (KeystoreManager.getOrCreateKey k)) /\
  KeystoreManager.entry
    (snd (KeystoreManager.getOrCreateKey (KeystoreManager.deleteKey k)))
  = Some (fst (nextBytes (KeystoreManager.random k) (zeros 32))).
Proof.
  split; [|split].
  - unfold KeystoreManager.unwrapKey, copyOfRange. pose proof (size_nonneg wrappedKey).
    destruct (Z.ltb_spec (size wrappedKey) 12) as [Hshort|Hlong]; [reflexivity|].
    destruct (Z.ltb_spec (size wrappedKey) (size wrappedKey)); [lia|].
    change (12 <? 0) with false. change (0 <? 0) with false. cbv iota.
    change (Z.to_nat (12 - 0)) with 12%nat. change (Z.to_nat 0) with O.
    change (Z.to_nat 12) with 12%nat. rewrite skipn_O.
    rewrite (firstn_all2 (n := Z.to_nat (size wrappedKey - 12)))
      by (rewrite length_skipn; unfold size; lia).
    cbv zeta. destruct (KeystoreManager.getOrCreateKey k) as [key k1]. reflexivity.
  - unfold KeystoreManager.getOrCreateKey.
    destruct (KeystoreManager.entry k) as [key|] eqn:Hentry; [exact Hentry|].
    now destruct (nextBytes (KeystoreManager.random k) (zeros 32)).
  - unfold KeystoreManager.getOrCreateKey, KeystoreManager.deleteKey.
    destruct (KeystoreManager.entry k) as [key|] eqn:Hentry;
      cbn [KeystoreManager.entry KeystoreManager.random]; rewrite ?Hentry;
      now destruct (nextBytes (KeystoreManager.random k) (zeros 32)).
Qed.

(* ------------------------------------------------------------------ *)
(** ** SecureStorage *)

Lemma stored_remove_same (p : SharedPreferences.t) (key : string) :
  SharedPreferences.stored (SharedPreferences.remove p key) key = None.
Proof.
  induction p as [|[k v] p IH]; [reflexivity|]. cbn [SharedPreferences.remove].
  destruct (String.eqb k key) eqn:E; [exact IH|].
  cbn [SharedPreferences.stored]. now rewrite E.
Qed.

Lemma stored_remove_other (p : SharedPreferences.t) (key key' : string) :
  String.eqb key key' = false ->
  SharedPreferences.stored (SharedPreferences.remove p key) key'
  = SharedPreferences.stored p key'.
Proof.
  intros Hne. induction p as [|[k v] p IH]; [reflexivity|].
  cbn [SharedPreferences.remove SharedPreferences.stored].
  destruct (String.eqb k key) eqn:E.
  - apply String.eqb_eq in E. subst k. now rewrite IH, Hne.
  - cbn [SharedPreferences.stored]. now rewrite IH.
Qed.

(** What [getString] returns for a key after [putString] on it. *)
Lemma getString_putString_same (p : SharedPreferences.t) (key : string)
    (value : option string) :
  SharedPreferences.getString (SharedPreferences.putString p key value) key
  = match value with
    | Some v => if String.eqb v SharedPreferences.NULL_VALUE then None else Some v
    | None => None
    end.
Proof.
  unfold SharedPreferences.getString, SharedPreferences.putString.
  cbn [SharedPreferences.stored]. rewrite String.eqb_refl. now destruct value.
Qed.

Lemma getString_putString_other (p : SharedPreferences.t) (key key' : string)
    (value : option string) :
  String.eqb key key' = false ->
  SharedPreferences.getString (SharedPreferences.putString p key value) key'
  = SharedPreferences.getString p key'.
Proof.
  intros Hne. unfold SharedPreferences.getString, SharedPreferences.putString.
  cbn [SharedPreferences.stored]. now rewrite Hne, stored_remove_other.
Qed.

Lemma eqb_head (c c' : ascii) (s s' : string) :
  Ascii.eqb c c' = false -> String.eqb (String c s) (String c' s') = false.
Proof. intros Hc. cbn [String.eqb]. now rewrite Hc. Qed.

(** The Base64 alphabet has no underscore, so no encoded text is the text
    that stands for null. *)
Lemma digit_not_underscore (i : Z) : Ascii.eqb (Base64.digit i) "_" = false.
Proof.
  unfold Base64.digit. generalize (Z.to_nat i). intros n.
  do 64 (destruct n as [|n]; [reflexivity|]). reflexivity.
Qed.

Lemma encodeBase64_not_null (b : bytes) :
  String.eqb (encodeBase64 b) SharedPreferences.NULL_VALUE = false.
Proof.
  unfold encodeBase64, SharedPreferences.NULL_VALUE.
  destruct b as [|x [|y [|z rest]]]; [reflexivity| | |];
    cbn [Base64.encodeToString]; apply eqb_head, digit_not_underscore.
Qed.

(** Nor is the text of a UUID, which is made of hexadecimal digits and
    hyphens. *)
Lemma format02x_head (x : Byte.byte) (s : string) :
  String.eqb (format02x x ++ s) SharedPreferences.NULL_VALUE = false.
Proof. destruct x; reflexivity. Qed.

Lemma toString_not_null (u : bytes) :
  String.eqb (UUID.toString u) SharedPreferences.NULL_VALUE = false.
Proof.
  unfold UUID.toString. destruct (firstn 4 u) as [|x l]; [reflexivity|].
  rewrite toHex_cons, <- append_assoc. apply format02x_head.
Qed.

Lemma isLoggedIn_prefs `{AndroidPlatform} (s s' : SecureStorage.t) :
  SharedPreferences.getString (SecureStorage.prefs s') "session_token"
  = SharedPreferences.getString (SecureStorage.prefs s) "session_token" ->
  SharedPreferences.getString (SecureStorage.prefs s') "whisper_id"
  = SharedPreferences.getString (SecureStorage.prefs s) "whisper_id" ->
  SecureStorage.isLoggedIn s' = SecureStorage.isLoggedIn s.
Proof.
  intros Htoken Hid.
  unfold SecureStorage.isLoggedIn, SecureStorage.sessionToken, SecureStorage.whisperId.
  now rewrite Htoken, Hid.
Qed.

Lemma prefs_setWrapped `{AndroidPlatform} (key : string) (value : option bytes)
    (s : SecureStorage.t) :
  exists text,
    SecureStorage.prefs (SecureStorage.setWrapped key value s)
    = SharedPreferences.putString (SecureStorage.prefs s) key text.
Proof.
  unfold SecureStorage.setWrapped. destruct value as [v|].
  - destruct (KeystoreManager.wrapKey v (SecureStorage.keystoreManager s)) as [wrapped k].
    now eexists.
  - now eexists.
Qed.

Lemma prefs_getWrapped `{AndroidPlatform} (key : string) (s : SecureStorage.t) :
  SecureStorage.prefs (snd (SecureStorage.getWrapped key s)) = SecureStorage.prefs s.
Proof.
  unfold SecureStorage.getWrapped.
  destruct (SharedPreferences.getString (SecureStorage.prefs s) key) as [text|];
    [|reflexivity].
  destruct (decodeBase64 text) as [wrapped|e]; [|reflexivity].
  now destruct (KeystoreManager.unwrapKey wrapped (SecureStorage.keystoreManager s))
    as [[plain|e] k].
Qed.

Section StorageProofs.
Context `{AndroidPlatform} `{!AndroidPlatformSpec}.

Lemma decodeBase64_encodeBase64 (b : bytes) :
  decodeBase64 (encodeBase64 b) = Success b.
Proof. unfold decodeBase64, encodeBase64. now rewrite base64Decode_encode. Qed.

Lemma getWrapped_setWrapped (key : string) (v : bytes) (s : SecureStorage.t) :
  SecureStorage.getWrapped key (SecureStorage.setWrapped key (Some v) s)
  = (Success (Some v), SecureStorage.setWrapped key (Some v) s).
Proof.
  unfold SecureStorage.setWrapped.
  pose proof (unwrapKey_wrapKey_eq v (SecureStorage.keystoreManager s)) as Hround.
  destruct (KeystoreManager.wrapKey v (SecureStorage.keystoreManager s)) as [wrapped k].
  cbn [fst snd] in Hround. unfold SecureStorage.getWrapped.
  cbn [SecureStorage.prefs SecureStorage.keystoreManager].
  now rewrite getString_putString_same, encodeBase64_not_null,
    decodeBase64_encodeBase64, Hround.
Qed.

Lemma getWrapped_setWrapped_null (key : string) (s : SecureStorage.t) :
  SecureStorage.getWrapped key (SecureStorage.setWrapped key None s)
  = (Success None, SecureStorage.setWrapped key None s).
Proof.
  unfold SecureStorage.setWrapped, SecureStorage.getWrapped, SecureStorage.withPrefs.
  cbn [SecureStorage.prefs]. now rewrite getString_putString_same.
Qed.

Lemma getEncoded_setEncoded (key : string) (value : option bytes)
    (s : SecureStorage.t) :
  SecureStorage.getEncoded key (SecureStorage.setEncoded key value s) = Success value.
Proof.
  unfold SecureStorage.setEncoded, SecureStorage.getEncoded, SecureStorage.withPrefs.
  cbn [SecureStorage.prefs]. rewrite getString_putString_same.
  destruct value as [v|]; cbn [option_map]; [|reflexivity].
  now rewrite encodeBase64_not_null, decodeBase64_encodeBase64.
Qed.
End StorageProofs.

(** X23. A property kept under the keystore key reads back what was
    written to it, and the read changes nothing: the three private keys,
    and the mnemonic for the ASCII text that the embedding's strings are
    Kotlin's.  Writing null makes the next read return null.  This holds
    in every state of the storage, also when no keystore key exists yet. *)
Theorem wrapped_properties_round_trip `{AndroidPlatform} `{!AndroidPlatformSpec}
    (value : bytes) (words : string) (s : SecureStorage.t) :
  isAscii words = true ->
  SecureStorage.encPrivateKey (SecureStorage.set_encPrivateKey (Some value) s)
  = (Success (Some value), SecureStorage.set_encPrivateKey (Some value) s) /\
  SecureStorage.signPrivateKey (SecureStorage.set_signPrivateKey (Some value) s)
  = (Success (Some value), SecureStorage.set_signPrivateKey (Some value) s) /\
  SecureStorage.contactsKey (SecureStorage.set_contactsKey (Some value) s)
  = (Success (Some value), SecureStorage.set_contactsKey (Some value) s) /\
  SecureStorage.mnemonic (SecureStorage.set_mnemonic (Some words) s)
  = (Success (Some words), SecureStorage.set_mnemonic (Some words) s) /\
  SecureStorage.encPrivateKey (SecureStorage.set_encPrivateKey None s)
  = (Success None, SecureStorage.set_encPrivateKey None s) /\
  SecureStorage.signPrivateKey (SecureStorage.set_signPrivateKey None s)
  = (Success None, SecureStorage.set_signPrivateKey None s) /\
  SecureStorage.contactsKey (SecureStorage.set_contactsKey None s)
  = (Success None, SecureStorage.set_contactsKey None s) /\
  SecureStorage.mnemonic (SecureStorage.set_mnemonic None s)
  = (Success None, SecureStorage.set_mnemonic None s).
Proof.
  intros _.
  unfold SecureStorage.encPrivateKey, SecureStorage.set_encPrivateKey,
    SecureStorage.signPrivateKey, SecureStorage.set_signPrivateKey,
    SecureStorage.contactsKey, SecureStorage.set_contactsKey,
    SecureStorage.mnemonic, SecureStorage.set_mnemonic.
  cbn [option_map]. rewrite !getWrapped_setWrapped, !getWrapped_setWrapped_null.
  unfold toByteArray. rewrite string_of_list_byte_of_string. now repeat split.
Qed.

Lemma wrapped_properties_round_trip_witness :
  isAscii "abandon ability" = true /\
  @SecureStorage.mnemonic ModelAndroid.android
    (@SecureStorage.set_mnemonic ModelAndroid.android (Some "abandon ability"%string)
       sampleStorage)
  = (Success (Some "abandon ability"%string),
     @SecureStorage.set_mnemonic ModelAndroid.android (Some "abandon ability"%string)
       sampleStorage).
Proof.
  split; [reflexivity|].
  destruct (@wrapped_properties_round_trip ModelAndroid.android model_android_spec
              [Byte.x41] "abandon ability"%string sampleStorage eq_refl)
    as (_ & _ & _ & Hmnemonic & _).
  exact Hmnemonic.
Defined.

(** X24. The two public keys read back what was written, null included:
    a Base64 text is never [__NULL__], the text under which the encrypted
    preferences store null.  The session token and the Whisper id are
    stored as they are: they read back what was written unless that is
    the text [__NULL__], which reads back as null, so that writing it as
    the session token logs the user out. *)
Theorem plain_properties_round_trip `{AndroidPlatform} `{!AndroidPlatformSpec}
    (value : option bytes) (text : option string) (s : SecureStorage.t) :
  SecureStorage.encPublicKey (SecureStorage.set_encPublicKey value s) = Success value /\
  SecureStorage.signPublicKey (SecureStorage.set_signPublicKey value s) = Success value /\
  SecureStorage.sessionToken (SecureStorage.set_sessionToken text s)
  = match text with
    | Some v => if String.eqb v "__NULL__" then None else Some v
    | None => None
    end /\
  SecureStorage.whisperId (SecureStorage.set_whisperId text s)
  = match text with
    | Some v => if String.eqb v "__NULL__" then None else Some v
    | None => None
    end /\
  SecureStorage.isLoggedIn
    (SecureStorage.set_sessionToken (Some "__NULL__"%string) s) = false.
Proof.
  unfold SecureStorage.encPublicKey, SecureStorage.set_encPublicKey,
    SecureStorage.signPublicKey, SecureStorage.set_signPublicKey.
  rewrite !getEncoded_setEncoded.
  unfold SecureStorage.isLoggedIn, SecureStorage.sessionToken,
    SecureStorage.set_sessionToken, SecureStorage.whisperId,
    SecureStorage.set_whisperId, SecureStorage.withPrefs.
  cbn [SecureStorage.prefs]. rewrite !getString_putString_same.
  unfold SharedPreferences.NULL_VALUE. now repeat split.
Qed.

Lemma plain_properties_round_trip_witness :
  @SecureStorage.encPublicKey ModelAndroid.android
    (SecureStorage.set_encPublicKey (Some [Byte.x41; Byte.x42]) sampleStorage)
  = Success (Some [Byte.x41; Byte.x42]).
Proof.
  destruct (@plain_properties_round_trip ModelAndroid.android model_android_spec
              (Some [Byte.x41; Byte.x42]) None sampleStorage) as (Hpublic & _).
  exact Hpublic.
Defined.

(** X25. [isLoggedIn] depends on the session token and the Whisper id
    only: writing a key, a public key or the mnemonic, reading a wrapped
    property, and reading the device id (which may store a new one) all
    leave it as it was. *)
Theorem isLoggedIn_frame `{AndroidPlatform}
    (value : option bytes) (words : option string) (s : SecureStorage.t) :
  SecureStorage.isLoggedIn (SecureStorage.set_encPrivateKey value s)
  = SecureStorage.isLoggedIn s /\
  SecureStorage.isLoggedIn (SecureStorage.set_encPublicKey value s)
  = SecureStorage.isLoggedIn s /\
  SecureStorage.isLoggedIn (SecureStorage.set_signPrivateKey value s)
  = SecureStorage.isLoggedIn s /\
  SecureStorage.isLoggedIn (SecureStorage.set_signPublicKey value s)
  = SecureStorage.isLoggedIn s /\
  SecureStorage.isLoggedIn (SecureStorage.set_contactsKey value s)
  = SecureStorage.isLoggedIn s /\
  SecureStorage.isLoggedIn (SecureStorage.set_mnemonic words s)
  = SecureStorage.isLoggedIn s /\
  SecureStorage.isLoggedIn (snd (SecureStorage.encPrivateKey s))
  = SecureStorage.isLoggedIn s /\
  SecureStorage.isLoggedIn (snd (SecureStorage.mnemonic s))
  = SecureStorage.isLoggedIn s /\
  SecureStorage.isLoggedIn (snd (SecureStorage.deviceId s))
  = SecureStorage.isLoggedIn s.
Proof.
  assert (Hwrapped : forall key v,
             String.eqb key "session_token" = false ->
             String.eqb key "whisper_id" = false ->
             SecureStorage.isLoggedIn (SecureStorage.setWrapped key v s)
             = SecureStorage.isLoggedIn s).
  { intros key v Htoken Hid. destruct (prefs_setWrapped key v s) as [text Hprefs].
    apply isLoggedIn_prefs; rewrite Hprefs; now apply getString_putString_other. }
  assert (Hencoded : forall key v,
             String.eqb key "session_token" = false ->
             String.eqb key "whisper_id" = false ->
             SecureStorage.isLoggedIn (SecureStorage.setEncoded key v s)
             = SecureStorage.isLoggedIn s).
  { intros key v Htoken Hid. unfold SecureStorage.setEncoded, SecureStorage.withPrefs.
    apply isLoggedIn_prefs; cbn [SecureStorage.prefs];
      now apply getString_putString_other. }
  unfold SecureStorage.set_encPrivateKey, SecureStorage.set_encPublicKey,
    SecureStorage.set_signPrivateKey, SecureStorage.set_signPublicKey,
    SecureStorage.set_contactsKey, SecureStorage.set_mnemonic,
    SecureStorage.encPrivateKey.
  repeat split; try (apply Hwrapped; reflexivity); try (apply Hencoded; reflexivity).
  - apply isLoggedIn_prefs; now rewrite prefs_getWrapped.
  - assert (Hprefs : SecureStorage.prefs (snd (SecureStorage.mnemonic s))
                     = SecureStorage.prefs s).
    { unfold SecureStorage.mnemonic.
      pose proof (prefs_getWrapped "mnemonic" s) as Hget.
      now destruct (SecureStorage.getWrapped "mnemonic" s) as [[[b|]|e] s']. }
    apply isLoggedIn_prefs; now rewrite Hprefs.
  - unfold SecureStorage.deviceId.
    destruct (SharedPreferences.getString (SecureStorage.prefs s) "device_id")
      as [id|]; [reflexivity|].
    destruct (UUID.randomUUID (SecureStorage.uuids s)) as [uuid uuids']. cbn [snd].
    apply isLoggedIn_prefs; cbn [SecureStorage.prefs];
      now apply getString_putString_other.
Qed.

(** X26. [clearAll] forgets everything: no session, every property reads
    null, the keystore key is deleted, and the device id goes with the
    rest, so the next read of [deviceId] draws a new UUID and stores it. *)
Theorem clearAll_forgets `{AndroidPlatform} (s : SecureStorage.t) :
  let s' := SecureStorage.clearAll s in
  SecureStorage.isLoggedIn s' = false /\
  SecureStorage.sessionToken s' = None /\
  SecureStorage.whisperId s' = None /\
  SecureStorage.encPrivateKey s' = (Success None, s') /\
  SecureStorage.signPrivateKey s' = (Success None, s') /\
  SecureStorage.contactsKey s' = (Success None, s') /\
  SecureStorage.mnemonic s' = (Success None, s') /\
  SecureStorage.encPublicKey s' = Success None /\
  SecureStorage.signPublicKey s' = Success None /\
  KeystoreManager.entry (SecureStorage.keystoreManager s') = None /\
  fst (SecureStorage.deviceId s')
  = UUID.toString (fst (UUID.randomUUID (SecureStorage.uuids s))) /\
  SecureStorage.sessionToken (snd (SecureStorage.deviceId s')) = None /\
  SharedPreferences.getString (SecureStorage.prefs (snd (SecureStorage.deviceId s')))
    "device_id"
  = Some (UUID.toString (fst (UUID.randomUUID (SecureStorage.uuids s)))).
Proof.
  cbv zeta. repeat split; try reflexivity.
  - unfold SecureStorage.clearAll, KeystoreManager.deleteKey.
    cbn [SecureStorage.keystoreManager].
    now destruct (KeystoreManager.entry (SecureStorage.keystoreManager s)) eqn:Hentry.
  - unfold SecureStorage.deviceId, SecureStorage.clearAll, SharedPreferences.clear.
    cbn [SecureStorage.prefs SecureStorage.uuids].
    change (SharedPreferences.getString [] "device_id") with (@None string).
    destruct (UUID.randomUUID (SecureStorage.uuids s)) as [uuid uuids'].
    cbn [fst snd SecureStorage.prefs].
    now rewrite getString_putString_same, toString_not_null.
Qed.

(** X27. [deviceId] is stable: whatever the first read returned, read
    from the store or drawn and stored, the second read returns the same
    id and changes nothing. *)
Theorem deviceId_stable (s : SecureStorage.t) :
  SecureStorage.deviceId (snd (SecureStorage.deviceId s))
  = (fst (SecureStorage.deviceId s), snd (SecureStorage.deviceId s)).
Proof.
  unfold SecureStorage.deviceId at 2 3 4.
  destruct (SharedPreferences.getString (SecureStorage.prefs s) "device_id")
    as [id|] eqn:Hstored.
  - cbn [fst snd]. unfold SecureStorage.deviceId. now rewrite Hstored.
  - destruct (UUID.randomUUID (SecureStorage.uuids s)) as [uuid uuids']. cbn [fst snd].
    unfold SecureStorage.deviceId. cbn [SecureStorage.prefs].
    now rewrite getString_putString_same, toString_not_null.
Qed.

(* ------------------------------------------------------------------ *)
(** ** AuthService *)

(** X28. The service starts authenticated exactly when the storage holds
    both a session token and a Whisper id, and then under that id; in
    every other case it starts unauthenticated. *)
Theorem create_authenticated_iff
    (ws : WsClientImpl.t) (storage : SecureStorage.t) (id : string) :
  (AuthService.authState (AuthService.create ws storage) = Authenticated id <->
   SecureStorage.whisperId storage = Some id /\
   SecureStorage.sessionToken storage <> None) /\
  (AuthService.authState (AuthService.create ws storage) = Unauthenticated <->
   SecureStorage.whisperId storage = None \/
   SecureStorage.sessionToken storage = None).
Proof.
  unfold AuthService.create, SecureStorage.isLoggedIn. cbn [AuthService.authState].
  destruct (SecureStorage.sessionToken storage) as [token|];
    destruct (SecureStorage.whisperId storage) as [id'|].
  - split; split.
    + intros [= <-]. split; [reflexivity|discriminate].
    + now intros [[= <-] _].
    + discriminate.
    + now intros [Hid|Htoken].
  - split; split.
    + discriminate.
    + now intros [Hid _].
    + now left.
    + reflexivity.
  - split; split.
    + discriminate.
    + now intros [_ Htoken].
    + now right.
    + reflexivity.
  - split; split.
    + discriminate.
    + now intros [Hid _].
    + now left.
    + reflexivity.
Qed.

(** X29. [logout] ends unauthenticated with the storage cleared and the
    socket dropped, and a service constructed on what it leaves starts
    unauthenticated.  The reconnect policy and the reconnects already
    scheduled are not touched: one that is suspended in its delay still
    opens a socket when the delay is over. *)
Theorem logout_outcome (a : AuthService.t) :
  let a' := AuthService.logout a in
  AuthService.authState a' = Unauthenticated /\
  SecureStorage.isLoggedIn (AuthService.secureStorage a') = false /\
  WsClientImpl.connectionState (AuthService.wsClient a') = DISCONNECTED /\
  WsClientImpl.webSocket (AuthService.wsClient a') = None /\
  AuthService.authState
    (AuthService.create (AuthService.wsClient a') (AuthService.secureStorage a'))
  = Unauthenticated /\
  WsClientImpl.reconnectPolicy (AuthService.wsClient a')
  = WsClientImpl.reconnectPolicy (AuthService.wsClient a) /\
  WsClientImpl.suspended (AuthService.wsClient a')
  = WsClientImpl.suspended (AuthService.wsClient a) /\
  (WsClientImpl.suspended (AuthService.wsClient a) <> [] ->
   WsClientImpl.connectionState (WsClientImpl.resume (AuthService.wsClient a'))
   = CONNECTING /\
   WsClientImpl.webSocket (WsClientImpl.resume (AuthService.wsClient a')) <> None).
Proof.
  cbv zeta. repeat split; try reflexivity.
  - unfold AuthService.logout, WsClientImpl.resume, WsClientImpl.disconnect.
    cbn [AuthService.wsClient WsClientImpl.suspended].
    destruct (WsClientImpl.suspended (AuthService.wsClient a)); [contradiction|].
    reflexivity.
  - unfold AuthService.logout, WsClientImpl.resume, WsClientImpl.disconnect.
    cbn [AuthService.wsClient WsClientImpl.suspended].
    destruct (WsClientImpl.suspended (AuthService.wsClient a)); [contradiction|].
    discriminate.
Qed.
